(** * The OTV constraint engine of 1k-validators-be (src/src/constraints.ts)

    A shallow embedding of class [OTV]: the identity hash index
    ([populateIdentityHashTable]), the single-candidate validity checker
    ([checkSingleCandidate]), the scoring and ranking pass
    ([getValidCandidates]) and the round partitioner ([processCandidates]),
    with the properties the specification states about them.

    Conventions of the embedding.
    - Integral JS numbers (timestamps, eras, commission, bonded amounts,
      counters) are [Z]; fractional ones (ratios, scores) are exact rationals
      [Q].  The one expression whose claimed bound depends on rounding, the
      jitter [1 + Math.random() * 0.05], is also given in binary64, on Rocq's
      primitive floats.  What is proved of a score on [Q] is proved of the
      exact value; where the binary64 value can differ, as at the strict
      bound of the jitter, the statement says which of the two it is about.
    - An [async] method is a computation in the monad [Eff]: it may return
      early, and it records, in order, the calls it makes to its
      collaborators (chain-data reader, storage, clock, random source, HTTP
      client, logger).  A method that can throw completes as a
      [Completion]: resolved with its result or rejected with the error
      thrown.  A method that mutates the engine returns the engine after
      the call; a call that throws leaves the engine as it was.
    - Collaborators whose code lives outside constraints.ts are fields of the
      records [Externals] (pure library functions) and [Env] (what the
      outside world answers during one pass).
    - The first half of the file holds the definitions, the second the
      theorems. *)

From Stdlib Require Import ZArith QArith Qminmax Qfield Lqa String Ascii List Lia Floats.
Set Warnings "-register-all".
From stdpp Require Import base option list gmap strings pretty.

Local Open Scope string_scope.
Local Open Scope list_scope.
Local Open Scope Z_scope.

(** ** JavaScript values as the checker meets them *)

(** Modelled from the spec: chaindata.ts is not part of the sources.  Its
    error-carrying reads return a pair [value, error] where [error] is [null]
    or an error text; an error text is a non-empty string, so that the
    source's truthiness test [if (err)] and [err !== null] agree. *)
Record ErrorText := MkErrorText { err_head : ascii; err_tail : string }.

Definition err_text (e : ErrorText) : string := String (err_head e) (err_tail e).

Definition NumberResult : Type := option Z * option ErrorText.

(** [null] used as a number ([null > x], [null - x]) is [0]. *)
Definition nullToNumber (v : option Z) : Z := default 0 v.

(** [null] inside a template literal prints as "null". *)
Definition showNullable (v : option Z) : string :=
  match v with Some z => pretty z | None => "null" end.

(** [Array.prototype.toString] on a number array: the elements joined by
    commas. *)
Definition showArray (l : list Z) : string := String.concat "," (map pretty l).

(** A JS number that may fail to be one. *)
Inductive Number := NaN | Finite (q : Q) | Infinity (negative : bool).

Definition Qltb (x y : Q) : bool := negb (Qle_bool y x).

(** [x < bound] on JS numbers: every comparison with [NaN] is [false]. *)
Definition Number_lt (x : Number) (bound : Q) : bool :=
  match x with
  | NaN => false
  | Finite q => Qltb q bound
  | Infinity negative => negative
  end.

(** The values a JSON document (or a missing property) can hold. *)
Inductive JsValue :=
| JUndefined
| JNull
| JBool (b : bool)
| JNumber (q : Q)
| JString (s : string)
| JArray (elems : list JsValue)
| JObject.

(** [!!v]. *)
Definition truthy (v : JsValue) : bool :=
  match v with
  | JUndefined | JNull => false
  | JBool b => b
  | JNumber q => negb (Qeq_bool q 0)
  | JString s => negb (String.eqb s "")
  | JArray _ | JObject => true
  end.

(** [!!s] for an optional string property. *)
Definition truthy_string (s : option string) : bool :=
  match s with Some (String _ _) => true | _ => false end.

(** What the body of the cross-network response is: [null]/[undefined]
    (reading a property of it throws a TypeError) or a value whose
    properties [invalidityReasons] and [rank] can be read. *)
Inductive ResponseData :=
| DataNullish
| DataObject (invalidityReasons rank : JsValue).

(** [axios.get] either throws or resolves to a response. *)
Inductive HttpResult :=
| HttpError
| HttpResponse (data : ResponseData).

(** ** Data model *)

(** Modelled from the spec: types.ts is not part of the sources; the fields
    are those constraints.ts reads. *)
Record CandidateData := {
  name : string;
  stash : string;
  kusamaStash : option string;
  version : string;
  identity : string;
  discoveredAt : Z;
  nominatedAt : Z;
  onlineSince : Z;
  offlineSince : Z;
  offlineAccumulated : Z;
  rank : Z;
  faults : Z;
  bonded : option Z;
  inclusion : Q;
  spanInclusion : Q;
  unclaimedEras : option (list Z);
  skipSelfStake : bool;
}.

Record Release := { release_name : string }.

(** The chain-data reader, as one snapshot of the chain. *)
Record ChainData := {
  getValidators : list string;
  getIdentity : string -> string;
  hasIdentity : string -> bool * bool;
  destinationIsStaked : string -> bool;
  getCommission : string -> NumberResult;
  getBondedAmount : string -> NumberResult;
  getActiveEraIndex : NumberResult;
}.

(** Everything a pass reads from outside the engine.  [Date_now] is what
    the clock answers: every clock read of one pass gets this one value, so
    that nothing here tells two reads of the clock apart. *)
Record Env := {
  chaindata : ChainData;
  getLatestRelease : option Release;
  Date_now : Z;
  axios_get : string -> HttpResult;
  Math_random : nat -> Q;
}.

(** Dimension statistics (score.ts, not part of the sources). *)
Record Stats := {
  stat_min : Q; stat_max : Q; stat_mean : Q; stat_median : Q;
  stat_q10 : Q; stat_q25 : Q; stat_q75 : Q; stat_q90 : Q; stat_std : Q;
}.

(** Library and sibling-module functions constraints.ts imports. *)
Record Externals := {
  blake2AsHex : string -> string;
  formatAddress : string -> string;
  (** [semver.coerce(version)]: the version found in the text, [None]
      ([null]) when the text holds none *)
  semver_coerce : string -> option string;
  (** [semver.clean(name)]: [None] ([null]) when the name is no version *)
  semver_clean : string -> option string;
  (** [semver.gte(a, b)] on two versions *)
  semver_gte : string -> string -> bool;
  (** the TypeError [semver.gte] throws when an operand is [null] *)
  semver_TypeError : ErrorText;
  KOTVBackendEndpoint : string;
  (** [Number.prototype.toString] on a fractional number *)
  showNumber : Q -> string;
  (** [Number(s)] on a string that is not empty *)
  StringToNumber : string -> Number;
  getStats : list Q -> Stats;
  scaled : Q -> list Q -> Q;
}.

(** Modelled from the spec: constants.ts is not part of the sources; the
    minimum connection window is one week, in milliseconds. *)
Definition WEEK : Z := 7 * 24 * 60 * 60 * 1000.

(** The engine's own state: its constraint configuration and its caches. *)
Record Score := {
  total : Q;
  aggregate : Q;
  score_inclusion : Q;
  score_spanInclusion : Q;
  score_discovered : Q;
  score_nominated : Q;
  score_rank : Q;
  score_unclaimed : Q;
  score_bonded : Q;
  score_faults : Q;
  score_offline : Q;
  randomness : Q;
  updated : Z;
}.

(** The ranked projection of a candidate; the source stores the score under
    the key [aggregate]. *)
Record RankedCandidate := {
  rc_aggregate : Score;
  rc_discoveredAt : Z;
  rc_rank : Z;
  rc_unclaimedEras : option (list Z);
  rc_inclusion : Q;
  rc_spanInclusion : Q;
  rc_name : string;
  rc_stash : string;
  rc_identity : string;
  rc_nominatedAt : Z;
  rc_bonded : option Z;
}.

Record OTV := {
  skipConnectionTime : bool;
  skipIdentity : bool;
  skipStakedDesitnation : bool;
  skipClientUpgrade : bool;
  skipUnclaimed : bool;
  minSelfStake : Z;
  commission : Z;
  unclaimedEraThreshold : Z;
  validCache : list RankedCandidate;
  invalidCache : list string;
}.

(** ** Effects *)

(** The calls a method makes to its collaborators, as they appear in the
    source. *)
Inductive Call :=
| chaindata_getValidators
| chaindata_getIdentity (stash : string)
| chaindata_hasIdentity (stash : string)
| chaindata_destinationIsStaked (stash : string)
| chaindata_getCommission (stash : string)
| chaindata_getBondedAmount (stash : string)
| chaindata_getActiveEraIndex
| db_getLatestRelease
| db_setValidatorScoreMetadata (stats : list (Stats * Q)) (at_ : Z)
| db_setValidatorScore (stash : string) (score : Score)
| Date_getTime
| Math_random_call
| axios_get_call (url : string)
| logger_info (msg : string).

(** A step of a method body either returns from the method with [r] or goes
    on with [a]. *)
Inductive Step (R A : Type) :=
| Returned (r : R)
| Continue (a : A).
Arguments Returned {R A} r.
Arguments Continue {R A} a.

(** A method body: its outcome and the calls made so far. *)
Definition Eff (R A : Type) : Type := Step R A * list Call.

Definition eff_ret {R A} (a : A) : Eff R A := (Continue a, []).

Definition eff_bind {R A B} (m : Eff R A) (k : A -> Eff R B) : Eff R B :=
  match m with
  | (Returned r, t) => (Returned r, t)
  | (Continue a, t) => let '(s, t') := k a in (s, t ++ t')
  end.

#[global] Instance Eff_ret {R} : MRet (Eff R) := @eff_ret R.
#[global] Instance Eff_bind {R} : MBind (Eff R) := fun A B k m => eff_bind m k.

(** [await collaborator.call(...)]: the call is recorded, its result is [a]. *)
Definition await {R A} (c : Call) (a : A) : Eff R A := (Continue a, [c]).

(** [return r;] *)
Definition return_ {R A} (r : R) : Eff R A := (Returned r, []).

(** [if (b) return r;] *)
Definition return_if {R} (b : bool) (r : R) : Eff R unit :=
  if b then return_ r else mret tt.

(** Running a whole method body. *)
Definition run {R} (m : Eff R R) : R * list Call :=
  match m with
  | (Returned r, t) => (r, t)
  | (Continue r, t) => (r, t)
  end.

(** How a call that can [throw] completes. *)
Inductive Completion (A : Type) :=
| Resolved (a : A)
| Rejected (e : ErrorText).
Arguments Resolved {A} a.
Arguments Rejected {A} e.

(** [throw e;] in a method that completes with an [R]. *)
Definition throw {R A} (e : ErrorText) : Eff (Completion R) A := return_ (Rejected e).

(** The value of an expression that can throw: the method goes on with the
    value, or throws what the expression throws. *)
Definition try_ {R A} (v : Completion A) : Eff (Completion R) A :=
  match v with
  | Resolved a => mret a
  | Rejected e => throw e
  end.

(** The text [sub] occurs in [s]. *)
Definition mentions (sub s : string) : Prop :=
  exists pre post, s = pre +:+ sub +:+ post.

(** The checker's result [[boolean, string]]. *)
Definition Verdict : Type := bool * string.

Definition Valid : Verdict := (true, "").
Definition Invalid (reason : string) : Verdict := (false, reason).

Section Engine.

Variable ext : Externals.

(** ** Conversions of JSON values (ECMAScript ToString and ToNumber) *)

Fixpoint ToString (v : JsValue) : string :=
  match v with
  | JUndefined => "undefined"
  | JNull => "null"
  | JBool true => "true"
  | JBool false => "false"
  | JNumber q => showNumber ext q
  | JString s => s
  | JArray elems =>
      String.concat ","
        (map (fun e => match e with
                       | JUndefined | JNull => ""
                       | _ => ToString e
                       end) elems)
  | JObject => "[object Object]"
  end.

(** [Number(s)] on a string: the empty string converts to [0], by the
    language standard; the other strings are left to [StringToNumber]. *)
Definition StringToNumber_js (s : string) : Number :=
  if String.eqb s "" then Finite 0 else StringToNumber ext s.

Definition ToNumber (v : JsValue) : Number :=
  match v with
  | JUndefined => NaN
  | JNull => Finite 0
  | JBool true => Finite 1
  | JBool false => Finite 0
  | JNumber q => Finite q
  | JString s => StringToNumber_js s
  | JArray _ => StringToNumber_js (ToString v)
  | JObject => NaN
  end.

(** ** Reasons, as the template literals of the source build them *)

Definition reason_offline (c : CandidateData) : string :=
  name c +:+ " offline. Offline since " +:+ pretty (offlineSince c) +:+ ".".

Definition reason_no_intention (c : CandidateData) : string :=
  name c +:+ " does not have a validate intention".

Definition reason_not_upgraded (c : CandidateData) : string :=
  name c +:+ " is not running the latest client code.".

Definition reason_connection (c : CandidateData) : string :=
  name c +:+ " hasn't been connected for minimum length.".

Definition reason_no_identity (c : CandidateData) : string :=
  name c +:+ " does not have an identity set.".

Definition reason_unverified (c : CandidateData) : string :=
  name c +:+ " has an identity but is not verified by registrar.".

Definition reason_identity_count (c : CandidateData) (numIds : Z) (idHash : string) : string :=
  name c +:+ " has too many candidates in the set with same identity. Number: "
    +:+ pretty numIds +:+ " Hash: " +:+ idHash.

Definition reason_downtime (c : CandidateData) : string :=
  name c +:+ " has been offline "
    +:+ showNumber ext (inject_Z (offlineAccumulated c) / 1000 / 60)
    +:+ " minutes this week.".

Definition reason_not_staked (c : CandidateData) : string :=
  name c +:+ " does not have reward destination set to Staked".

Definition reason_read_error (c : CandidateData) (err : ErrorText) : string :=
  name c +:+ " " +:+ err_text err.

Definition reason_commission (self : OTV) (c : CandidateData) (value : option Z) : string :=
  name c +:+ " commission is set higher than the maximum allowed. Set: "
    +:+ showNullable value +:+ " Allowed: " +:+ pretty (commission self).

Definition reason_bonded (c : CandidateData) (bondedAmt : option Z) : string :=
  name c +:+ " has less than the minimum amount bonded: "
    +:+ showNullable bondedAmt +:+ " is bonded.".

Definition reason_unclaimed (c : CandidateData) (eras : list Z) (threshold : Z) : string :=
  name c +:+ " has unclaimed eras: " +:+ showArray eras
    +:+ " prior to era: " +:+ pretty (threshold + 1).

Definition reason_kusama_invalid (c : CandidateData) (invalidityReasons : JsValue) : string :=
  name c +:+ " has a kusama node that is invalid: " +:+ ToString invalidityReasons.

Definition reason_kusama_rank (c : CandidateData) (rank : JsValue) : string :=
  name c +:+ " has a Kusama stash with lower than 25 rank in the Kusama OTV programme: "
    +:+ ToString rank +:+ ".".

Definition kusama_url (kusamaStash : string) : string :=
  KOTVBackendEndpoint ext +:+ "/candidate/" +:+ kusamaStash.

(** [offlineAccumulated / WEEK > 0.02].  For an integral
    [offlineAccumulated] the rounded quotient exceeds the double 0.02 exactly
    when the exact quotient exceeds 2/100: the two differ by at least
    1/WEEK, far more than a rounding step. *)
Definition too_much_downtime (c : CandidateData) : bool :=
  Qltb (2 # 100) (inject_Z (offlineAccumulated c) / inject_Z WEEK).

(** [identityHashTable.get(idHash) || 0] *)
Definition orZero (v : option Z) : Z :=
  match v with
  | Some n => if n =? 0 then 0 else n
  | None => 0
  end.

(** ** checkSingleCandidate (constraints.ts, lines 141-297)

    The method is a sequence of guarded early returns; every local it binds
    is used only inside the guard that binds it, so the body is embedded as
    the sequence of these blocks.  The method completes with a verdict or
    with the error it throws. *)

(** A block of the body: it returns a verdict, throws, or falls through to
    the next block. *)
Definition Block : Type := Eff (Completion Verdict) unit.

(** Lines 158-161: ensure the candidate is online. *)
Definition online_block (c : CandidateData) : Block :=
  return_if ((onlineSince c =? 0) || negb (offlineSince c =? 0))
    (Resolved (Invalid (reason_offline c))).

(** Lines 163-167: check that the validator has a validate intention. *)
Definition intention_block (c : CandidateData) (env : Env) : Block :=
  validators ← await chaindata_getValidators (getValidators (chaindata env));
  return_if (negb (bool_decide (formatAddress ext (stash c) ∈ validators)))
    (Resolved (Invalid (reason_no_intention c))).

(** [semver.gte(a, b)] builds a version from each operand and throws a
    TypeError on an operand that is [null]. *)
Definition semver_gte_js (a b : option string) : Completion bool :=
  match a, b with
  | Some x, Some y => Resolved (semver_gte ext x y)
  | _, _ => Rejected (semver_TypeError ext)
  end.

(** Lines 169-178: only take nodes that have been upgraded to the latest
    version.  The comparison of line 174 runs, and can throw, before
    [skipClientUpgrade] is read; nothing in the method catches it. *)
Definition version_block (self : OTV) (c : CandidateData) (env : Env) : Block :=
  latestRelease ← await db_getLatestRelease (getLatestRelease env);
  match latestRelease with
  | Some release =>
      let nodeVersion := semver_coerce ext (version c) in
      let latestVersion := semver_clean ext (release_name release) in
      isUpgraded ← try_ (semver_gte_js nodeVersion latestVersion);
      return_if (negb isUpgraded && negb (skipClientUpgrade self))
        (Resolved (Invalid (reason_not_upgraded c)))
  | None => mret tt
  end.

(** Lines 180-186: ensure the node has been connected for a minimum of one
    week. *)
Definition connection_block (self : OTV) (c : CandidateData) (env : Env) : Block :=
  if negb (skipConnectionTime self) then
    now ← await Date_getTime (Date_now env);
    return_if (now - discoveredAt c <? WEEK) (Resolved (Invalid (reason_connection c)))
  else mret tt.

(** Lines 188-210: ensure the validator stash has an identity set. *)
Definition identity_block (self : OTV) (c : CandidateData) (env : Env)
    (identityHashTable : gmap string Z) : Block :=
  if negb (skipIdentity self) then
    '(hasId, verified) ← await (chaindata_hasIdentity (stash c))
                               (hasIdentity (chaindata env) (stash c));
    return_if (negb hasId) (Resolved (Invalid (reason_no_identity c)));;
    return_if (negb verified) (Resolved (Invalid (reason_unverified c)));;
    idString ← await (chaindata_getIdentity (stash c))
                     (getIdentity (chaindata env) (stash c));
    let idHash := blake2AsHex ext idString in
    let numIds := orZero (identityHashTable !! idHash) in
    return_if ((numIds =? 0) || (2 <? numIds))
      (Resolved (Invalid (reason_identity_count c numIds idHash)))
  else mret tt.

(** Lines 212-221: ensures the node has 98% up time. *)
Definition uptime_block (c : CandidateData) : Block :=
  return_if (too_much_downtime c) (Resolved (Invalid (reason_downtime c))).

(** Lines 223-230: ensure that the reward destination is set to 'Staked'. *)
Definition destination_block (self : OTV) (c : CandidateData) (env : Env) : Block :=
  if negb (skipStakedDesitnation self) then
    isStaked ← await (chaindata_destinationIsStaked (stash c))
                     (destinationIsStaked (chaindata env) (stash c));
    return_if (negb isStaked) (Resolved (Invalid (reason_not_staked c)))
  else mret tt.

(** Lines 232-242: ensure that the commission is in line with the network
    rules. *)
Definition commission_block (self : OTV) (c : CandidateData) (env : Env) : Block :=
  '(commission_, err) ← await (chaindata_getCommission (stash c))
                              (getCommission (chaindata env) (stash c));
  match err with
  | Some e => return_ (Resolved (Invalid (reason_read_error c e)))
  | None => mret tt
  end;;
  return_if (commission self <? nullToNumber commission_)
    (Resolved (Invalid (reason_commission self c commission_))).

(** Lines 244-256: the self-stake minimum. *)
Definition bonded_block (self : OTV) (c : CandidateData) (env : Env) : Block :=
  if negb (skipSelfStake c) then
    '(bondedAmt, err2) ← await (chaindata_getBondedAmount (stash c))
                               (getBondedAmount (chaindata env) (stash c));
    match err2 with
    | Some e => return_ (Resolved (Invalid (reason_read_error c e)))
    | None => mret tt
    end;;
    return_if (nullToNumber bondedAmt <? minSelfStake self)
      (Resolved (Invalid (reason_bonded c bondedAmt)))
  else mret tt.

(** Lines 258-270: unclaimed eras.  [err3] is bound and not read. *)
Definition unclaimed_block (self : OTV) (c : CandidateData) (env : Env) : Block :=
  if negb (skipUnclaimed self) then
    '(currentEra, err3) ← await chaindata_getActiveEraIndex
                                (getActiveEraIndex (chaindata env));
    let threshold := nullToNumber currentEra - unclaimedEraThreshold self - 1 in
    match unclaimedEras c with
    | Some eras =>
        return_if (negb (forallb (fun era => threshold <? era) eras))
          (Resolved (Invalid (reason_unclaimed c eras threshold)))
    | None => mret tt
    end
  else mret tt.

(** The [try { ... } catch (e) { logger.info(...) }] block of lines 272-294:
    a throw inside it, from [axios.get] or from reading a property of a
    nullish body, ends the block with the log call and no return. *)
Definition kusama_block (c : CandidateData) (env : Env) : Block :=
  if truthy_string (kusamaStash c) then
    let url := kusama_url (default "" (kusamaStash c)) in
    res ← await (axios_get_call url) (axios_get env url);
    match res with
    | HttpError => await (logger_info "Error trying to get kusama data...") tt
    | HttpResponse DataNullish =>
        await (logger_info "Error trying to get kusama data...") tt
    | HttpResponse (DataObject invalidityReasons rank) =>
        return_if (truthy invalidityReasons)
          (Resolved (Invalid (reason_kusama_invalid c invalidityReasons)));;
        return_if (Number_lt (ToNumber rank) 25)
          (Resolved (Invalid (reason_kusama_rank c rank)))
    end
  else mret tt.

(** The body of the method: the blocks in the order of the source, then
    [return [true, ""]]. *)
Definition checkSingleCandidate_body
    (self : OTV) (env : Env) (candidate : CandidateData)
    (identityHashTable : gmap string Z)
    : Eff (Completion Verdict) (Completion Verdict) :=
  online_block candidate;;
  intention_block candidate env;;
  version_block self candidate env;;
  connection_block self candidate env;;
  identity_block self candidate env identityHashTable;;
  uptime_block candidate;;
  destination_block self candidate env;;
  commission_block self candidate env;;
  bonded_block self candidate env;;
  unclaimed_block self candidate env;;
  kusama_block candidate env;;
  return_ (Resolved Valid).

Definition checkSingleCandidate
    (self : OTV) (env : Env) (candidate : CandidateData)
    (identityHashTable : gmap string Z) : Completion Verdict * list Call :=
  run (checkSingleCandidate_body self env candidate identityHashTable).

End Engine.

(** ** The eleven checks of specification section 4.3, one by one

    Each check is stated on the data it reads: it passes, fails with a
    reason, or throws, and it needs some collaborator calls.  The checks
    follow the specification's words where the code does what they say.
    In two places it does not, and there the check says what the code does:
    the client-version check throws when the version comparison throws,
    skipped or not, and the unclaimed-eras check does not look at the error
    of the era read.  [first_failure] runs a list of checks the way the
    specification says: in order, stopping at the first check that does not
    pass. *)

Inductive Outcome :=
| Pass
| Fail (reason : string)
| Throw (e : ErrorText).

Definition CheckOutcome : Type := Outcome * list Call.

Definition passes : CheckOutcome -> Prop := fun o => o.1 = Pass.

Section Checks.

Variable ext : Externals.
Variable self : OTV.
Variable env : Env.
Variable c : CandidateData.
Variable identityHashTable : gmap string Z.

(** 1. Online: fails if [onlineSince == 0] or [offlineSince != 0]. *)
Definition check_online : CheckOutcome :=
  if bool_decide (onlineSince c = 0 ∨ offlineSince c ≠ 0)
  then (Fail (reason_offline c), [])
  else (Pass, []).

(** 2. Validator intention: fails if the formatted stash is absent from the
    current validator set. *)
Definition check_validate_intention : CheckOutcome :=
  (if bool_decide (formatAddress ext (stash c) ∉ getValidators (chaindata env))
   then Fail (reason_no_intention c) else Pass,
   [chaindata_getValidators]).

(** 3. Client version: only evaluated when a latest release exists;
    skippable; fails if the candidate's version is strictly older.  When the
    candidate's text holds no version, or the release name is none, the
    comparison throws, whether the check is skipped or not. *)
Definition check_client_version : CheckOutcome :=
  (match getLatestRelease env with
   | Some release =>
       match semver_coerce ext (version c), semver_clean ext (release_name release) with
       | Some nodeVersion, Some latestVersion =>
           if skipClientUpgrade self then Pass
           else if semver_gte ext nodeVersion latestVersion then Pass
           else Fail (reason_not_upgraded c)
       | _, _ => Throw (semver_TypeError ext)
       end
   | None => Pass
   end,
   [db_getLatestRelease]).

(** 4. Connection age: skippable; fails if [now - discoveredAt] is less
    than one week. *)
Definition check_connection_age : CheckOutcome :=
  if skipConnectionTime self then (Pass, [])
  else (if bool_decide (Date_now env - discoveredAt c < WEEK)
        then Fail (reason_connection c) else Pass,
        [Date_getTime]).

(** 5. Identity: skippable; fails if no identity is set, or it is not
    verified, or the count of its digest in the table is [0] or [> 2]. *)
Definition check_identity : CheckOutcome :=
  if skipIdentity self then (Pass, [])
  else
    let '(hasId, verified) := hasIdentity (chaindata env) (stash c) in
    if negb hasId then (Fail (reason_no_identity c), [chaindata_hasIdentity (stash c)])
    else if negb verified then (Fail (reason_unverified c), [chaindata_hasIdentity (stash c)])
    else
      let idHash := blake2AsHex ext (getIdentity (chaindata env) (stash c)) in
      let count := default 0 (identityHashTable !! idHash) in
      (if bool_decide (count = 0 ∨ 2 < count)
       then Fail (reason_identity_count c count idHash) else Pass,
       [chaindata_hasIdentity (stash c); chaindata_getIdentity (stash c)]).

(** 6. Uptime: fails if [offlineAccumulated / WEEK > 0.02]; not skippable. *)
Definition check_uptime : CheckOutcome :=
  (if too_much_downtime c then Fail (reason_downtime ext c) else Pass, []).

(** 7. Reward destination: skippable; fails if the destination is not
    "Staked". *)
Definition check_reward_destination : CheckOutcome :=
  if skipStakedDesitnation self then (Pass, [])
  else (if destinationIsStaked (chaindata env) (stash c) then Pass
        else Fail (reason_not_staked c),
        [chaindata_destinationIsStaked (stash c)]).

(** 8. Commission: a read error is the reason; otherwise fails if the
    commission exceeds the ceiling. *)
Definition check_commission : CheckOutcome :=
  (match getCommission (chaindata env) (stash c) with
   | (_, Some e) => Fail (reason_read_error c e)
   | (value, None) =>
       if bool_decide (nullToNumber value > commission self)
       then Fail (reason_commission self c value) else Pass
   end,
   [chaindata_getCommission (stash c)]).

(** 9. Self-stake: skippable per candidate; a read error is the reason;
    otherwise fails if the bonded amount is below [minSelfStake]. *)
Definition check_self_stake : CheckOutcome :=
  if skipSelfStake c then (Pass, [])
  else (match getBondedAmount (chaindata env) (stash c) with
        | (_, Some e) => Fail (reason_read_error c e)
        | (value, None) =>
            if bool_decide (nullToNumber value < minSelfStake self)
            then Fail (reason_bonded c value) else Pass
        end,
        [chaindata_getBondedAmount (stash c)]).

(** [threshold = currentEra - unclaimedEraThreshold - 1] *)
Definition unclaimed_threshold : Z :=
  nullToNumber (getActiveEraIndex (chaindata env)).1 - unclaimedEraThreshold self - 1.

(** 10. Unclaimed rewards: skippable; fails if any entry of [unclaimedEras]
    is [<= threshold].  The error of the era read is not looked at: the
    threshold is computed from the value read with it, [null] counting as
    0. *)
Definition check_unclaimed : CheckOutcome :=
  if skipUnclaimed self then (Pass, [])
  else (match unclaimedEras c with
        | Some eras =>
            if existsb (fun era => era <=? unclaimed_threshold) eras
            then Fail (reason_unclaimed c eras unclaimed_threshold) else Pass
        | None => Pass
        end,
        [chaindata_getActiveEraIndex]).

(** 11. Cross-network correlation: only with a secondary-network stash;
    fails if the response reports invalidity reasons or a rank below 25; a
    failed lookup is logged and is no failure of the check. *)
Definition check_cross_network : CheckOutcome :=
  match kusamaStash c with
  | Some (String a k) =>
      let url := kusama_url ext (String a k) in
      match axios_get env url with
      | HttpResponse (DataObject invalidityReasons rank) =>
          (if truthy invalidityReasons
           then Fail (reason_kusama_invalid ext c invalidityReasons)
           else if Number_lt (ToNumber ext rank) 25
                then Fail (reason_kusama_rank ext c rank)
                else Pass,
           [axios_get_call url])
      | _ => (Pass, [axios_get_call url; logger_info "Error trying to get kusama data..."])
      end
  | _ => (Pass, [])
  end.

(** The fixed order of section 4.3. *)
Definition checks : list CheckOutcome :=
  [ check_online; check_validate_intention; check_client_version;
    check_connection_age; check_identity; check_uptime;
    check_reward_destination; check_commission; check_self_stake;
    check_unclaimed; check_cross_network ].

End Checks.

(** The calls of a run of checks, in order. *)
Definition calls_of (l : list CheckOutcome) : list Call := concat (map snd l).

(** In order, returning on the first failure and throwing on the first
    throw; Valid if every check passes. *)
Definition after (o : CheckOutcome) (rest : Completion Verdict * list Call)
    : Completion Verdict * list Call :=
  match o with
  | (Fail reason, calls) => (Resolved (Invalid reason), calls)
  | (Throw e, calls) => (Rejected e, calls)
  | (Pass, calls) => (rest.1, calls ++ rest.2)
  end.

Definition first_failure (l : list CheckOutcome) : Completion Verdict * list Call :=
  foldr after (Resolved Valid, []) l.
Arguments first_failure : simpl never.

(** A check outcome as a block of a method body. *)
Definition of_check (o : CheckOutcome) : Block :=
  match o with
  | (Fail reason, calls) => (Returned (Resolved (Invalid reason)), calls)
  | (Throw e, calls) => (Returned (Rejected e), calls)
  | (Pass, calls) => (Continue tt, calls)
  end.


(** ** Loops *)

(** [for (const x of l) { body }], the variables the body assigns to being
    the state [s]. *)
Fixpoint for_of {R A S} (l : list A) (body : A -> S -> Eff R S) (s : S) : Eff R S :=
  match l with
  | [] => mret s
  | x :: l' => s' ← body x s; for_of l' body s'
  end.

(** One iteration of a loop body, in which [continue] is the early return. *)
Definition iteration {R S} (m : Eff S S) : Eff R S :=
  let '(s, t) := run m in (Continue s, t).

(** [continue;] with the loop variables as they are. *)
Definition continue {S A} (s : S) : Eff S A := return_ s.

(** [await this.method(...)] on a method that can throw: the calls of the
    callee become calls of the caller, and what the callee throws, the caller
    throws. *)
Definition await_throwing {R A} (m : Completion A * list Call) : Eff (Completion R) A :=
  match m.1 with
  | Resolved a => (Continue a, m.2)
  | Rejected e => (Returned (Rejected e), m.2)
  end.

(** One iteration of a loop body that can throw.  The body ends early with
    [Resolved s], which is [continue] with the loop variables [s], or with
    [Rejected e], which is a throw: it leaves the method. *)
Definition iteration_throwing {R S} (m : Eff (Completion S) S) : Eff (Completion R) S :=
  match m with
  | (Returned (Resolved s), t) => (Continue s, t)
  | (Returned (Rejected e), t) => (Returned (Rejected e), t)
  | (Continue s, t) => (Continue s, t)
  end.

(** [continue;] in such a body. *)
Definition continue_throwing {S A} (s : S) : Eff (Completion S) A := return_ (Resolved s).

(** [Array.prototype.sort(cmp)].  Modelled from the language standard, which
    leaves the algorithm open and fixes the result for a consistent
    comparator: the stable arrangement in which [cmp x y > 0] never holds for
    [x] before [y].  Insertion from the right end keeps equal elements in
    their input order. *)
Fixpoint insert_by {A} (cmp : A -> A -> Q) (x : A) (l : list A) : list A :=
  match l with
  | [] => [x]
  | y :: l' => if Qltb 0 (cmp x y) then y :: insert_by cmp x l' else x :: l
  end.

Definition Array_sort {A} (cmp : A -> A -> Q) (l : list A) : list A :=
  foldr (insert_by cmp) [] l.

Section Passes.

Variable ext : Externals.

(** ** populateIdentityHashTable (lines 99-114) *)

Definition populateIdentityHashTable (env : Env) (candidates : list CandidateData)
    : gmap string Z * list Call :=
  run (
    await (logger_info "(OTV::populateIdentityHashTable) Populating hash table") tt;;
    map ← for_of candidates (fun candidate (map : gmap string Z) =>
      identityString ← await (chaindata_getIdentity (stash candidate))
                             (getIdentity (chaindata env) (stash candidate));
      let identityHash := blake2AsHex ext identityString in
      let prevValue := orZero (map !! identityHash) in
      mret (<[identityHash := prevValue + 1]> map)) ∅;
    return_ map).

(** What one turn of the loop does to the table. *)
Definition count_identity (env : Env) (m : gmap string Z) (c : CandidateData)
    : gmap string Z :=
  let h := blake2AsHex ext (getIdentity (chaindata env) (stash c)) in
  <[h := orZero (m !! h) + 1]> m.

(** The sum of the occurrence counts of a table. *)
Definition sum_counts (m : gmap string Z) : Z :=
  map_fold (fun _ n acc => n + acc) 0 m.

(** A table whose counts are integers [>= 1] that add up to [n]. *)
Definition counts (n : Z) (m : gmap string Z) : Prop :=
  (forall h v, m !! h = Some v -> 1 <= v) /\ sum_counts m = n.

(** ** getValidCandidates (lines 300-512) *)

Definition INCLUSION_WEIGHT : Q := 5.
Definition SPAN_INCLUSION_WEIGHT : Q := 40.
Definition DISCOVERED_WEIGHT : Q := 5.
Definition NOMINATED_WEIGHT : Q := 35.
Definition RANK_WEIGHT : Q := 5.
Definition UNCLAIMED_WEIGHT : Q := 15.
Definition BONDED_WEIGHT : Q := 13.
Definition FAULTS_WEIGHT : Q := 5.
Definition OFFLINE_WEIGHT : Q := 2.

(** [x ? x : 0] on a number. *)
Definition orZeroZ (x : Z) : Q := inject_Z (if x =? 0 then 0 else x).
Definition orZeroQ (x : Q) : Q := if Qeq_bool x 0 then 0%Q else x.

(** [candidate.unclaimedEras && candidate.unclaimedEras.length
     ? candidate.unclaimedEras.length : 0] *)
Definition unclaimedCount (c : CandidateData) : Q :=
  match unclaimedEras c with
  | Some eras => inject_Z (if Z.of_nat (length eras) =? 0 then 0 else Z.of_nat (length eras))
  | None => 0%Q
  end.

(** The nine populations of lines 326-380. *)
Record Populations := {
  bondedValues : list Q;
  faultsValues : list Q;
  inclusionValues : list Q;
  spanInclusionValues : list Q;
  discoveredAtValues : list Q;
  nominatedAtValues : list Q;
  offlineValues : list Q;
  rankValues : list Q;
  unclaimedValues : list Q;
}.

Definition populations (validCandidates : list CandidateData) : Populations := {|
  bondedValues := map (fun c => inject_Z (orZero (bonded c))) validCandidates;
  faultsValues := map (fun c => orZeroZ (faults c)) validCandidates;
  inclusionValues := map (fun c => orZeroQ (inclusion c)) validCandidates;
  spanInclusionValues := map (fun c => orZeroQ (spanInclusion c)) validCandidates;
  discoveredAtValues := map (fun c => orZeroZ (discoveredAt c)) validCandidates;
  nominatedAtValues := map (fun c => orZeroZ (nominatedAt c)) validCandidates;
  offlineValues := map (fun c => orZeroZ (offlineAccumulated c)) validCandidates;
  rankValues := map (fun c => orZeroZ (rank c)) validCandidates;
  unclaimedValues := map unclaimedCount validCandidates;
|}.

(** The arguments of [db.setValidatorScoreMetadata], in its order. *)
Definition scoreMetadata (p : Populations) : list (Stats * Q) :=
  [ (getStats ext (bondedValues p), BONDED_WEIGHT);
    (getStats ext (faultsValues p), FAULTS_WEIGHT);
    (getStats ext (inclusionValues p), INCLUSION_WEIGHT);
    (getStats ext (spanInclusionValues p), SPAN_INCLUSION_WEIGHT);
    (getStats ext (discoveredAtValues p), DISCOVERED_WEIGHT);
    (getStats ext (nominatedAtValues p), NOMINATED_WEIGHT);
    (getStats ext (offlineValues p), OFFLINE_WEIGHT);
    (getStats ext (rankValues p), RANK_WEIGHT);
    (getStats ext (unclaimedValues p), UNCLAIMED_WEIGHT) ].

(** Lines 406-469: the score of one valid candidate, [random] being the
    value [Math.random()] returned and [now] the value of [Date.now()]. *)
Definition computeScore (p : Populations) (candidate : CandidateData)
    (random : Q) (now : Z) : Score :=
  let scaledInclusion := scaled ext (inclusion candidate) (inclusionValues p) in
  let inclusionScore := ((1 - scaledInclusion) * INCLUSION_WEIGHT)%Q in
  let scaledSpanInclusion := scaled ext (spanInclusion candidate) (spanInclusionValues p) in
  let spanInclusionScore := ((1 - scaledSpanInclusion) * SPAN_INCLUSION_WEIGHT)%Q in
  let scaledDiscovered := scaled ext (inject_Z (discoveredAt candidate)) (discoveredAtValues p) in
  let discoveredScore := ((1 - scaledDiscovered) * DISCOVERED_WEIGHT)%Q in
  let scaledNominated := scaled ext (inject_Z (nominatedAt candidate)) (nominatedAtValues p) in
  let nominatedScore := ((1 - scaledNominated) * NOMINATED_WEIGHT)%Q in
  let scaledRank := scaled ext (inject_Z (rank candidate)) (rankValues p) in
  let rankScore := (scaledRank * RANK_WEIGHT)%Q in
  let scaledUnclaimed :=
    match unclaimedEras candidate with
    | Some eras => scaled ext (inject_Z (Z.of_nat (length eras))) (unclaimedValues p)
    | None => 0%Q
    end in
  let unclaimedScore := ((1 - scaledUnclaimed) * UNCLAIMED_WEIGHT)%Q in
  (* [scaled(undefined, ...)] is falsy, whatever [scaled] makes of it *)
  let bondedScore :=
    match bonded candidate with
    | Some b =>
        let scaledBonded := scaled ext (inject_Z b) (bondedValues p) in
        if Qeq_bool scaledBonded 0 then 0%Q else (scaledBonded * BONDED_WEIGHT)%Q
    | None => 0%Q
    end in
  let scaledOffline := scaled ext (inject_Z (offlineAccumulated candidate)) (offlineValues p) in
  let offlineScore := ((1 - scaledOffline) * OFFLINE_WEIGHT)%Q in
  let scaledFaults := scaled ext (inject_Z (faults candidate)) (faultsValues p) in
  let faultsScore := ((1 - scaledFaults) * FAULTS_WEIGHT)%Q in
  let aggregate :=
    (inclusionScore + spanInclusionScore + faultsScore + discoveredScore
     + nominatedScore + rankScore + unclaimedScore + bondedScore + offlineScore)%Q in
  let randomness := (1 + random * (5 # 100))%Q in
  {| total := (aggregate * randomness)%Q;
     aggregate := aggregate;
     score_inclusion := inclusionScore;
     score_spanInclusion := spanInclusionScore;
     score_discovered := discoveredScore;
     score_nominated := nominatedScore;
     score_rank := rankScore;
     score_unclaimed := unclaimedScore;
     score_bonded := bondedScore;
     score_faults := faultsScore;
     score_offline := offlineScore;
     randomness := randomness;
     updated := now |}.

(** Lines 488-500. *)
Definition rankedCandidate (score : Score) (candidate : CandidateData) : RankedCandidate := {|
  rc_aggregate := score;
  rc_discoveredAt := discoveredAt candidate;
  rc_rank := rank candidate;
  rc_unclaimedEras := unclaimedEras candidate;
  rc_inclusion := inclusion candidate;
  rc_spanInclusion := spanInclusion candidate;
  rc_name := name candidate;
  rc_stash := stash candidate;
  rc_identity := identity candidate;
  rc_nominatedAt := nominatedAt candidate;
  rc_bonded := bonded candidate;
|}.

(** [(a, b) => b.aggregate.total - a.aggregate.total] *)
Definition byTotalDescending (a b : RankedCandidate) : Q :=
  (total (rc_aggregate b) - total (rc_aggregate a))%Q.

(** [this.validCache = rankedCandidates] *)
Definition set_validCache (self : OTV) (ranked : list RankedCandidate) : OTV := {|
  skipConnectionTime := skipConnectionTime self;
  skipIdentity := skipIdentity self;
  skipStakedDesitnation := skipStakedDesitnation self;
  skipClientUpgrade := skipClientUpgrade self;
  skipUnclaimed := skipUnclaimed self;
  minSelfStake := minSelfStake self;
  commission := commission self;
  unclaimedEraThreshold := unclaimedEraThreshold self;
  validCache := ranked;
  invalidCache := invalidCache self;
|}.

(** What a pass resolves to: the engine after the call and the ranking. *)
Definition PassResult : Type := OTV * list RankedCandidate.

(** Lines 309-321: one turn of the first loop; the state of the loop is the
    array [validCandidates].  A check that throws ends the pass. *)
Definition collectValid_turn (self : OTV) (env : Env) (identityHashTable : gmap string Z)
    (candidate : CandidateData) (validCandidates : list CandidateData)
    : Eff (Completion (list CandidateData)) (list CandidateData) :=
  '(isValid, reason) ← await_throwing
     (checkSingleCandidate ext self env candidate identityHashTable);
  (if negb isValid then
     await (logger_info reason) tt;;
     continue_throwing validCandidates
   else mret tt);;
  mret (validCandidates ++ [candidate]).

Definition collectValid (self : OTV) (env : Env) (candidates : list CandidateData)
    (identityHashTable : gmap string Z) : Eff (Completion PassResult) (list CandidateData) :=
  for_of candidates (fun candidate validCandidates =>
    iteration_throwing
      (collectValid_turn self env identityHashTable candidate validCandidates)) [].

(** Lines 405-502: one turn of the second loop; the state of the loop is
    the array [rankedCandidates]; the [i]-th draw of the pass is
    [Math_random env i]. *)
Definition scoreAll_turn (env : Env) (p : Populations)
    (candidate : CandidateData) (rankedCandidates : list RankedCandidate)
    : Eff (Completion PassResult) (list RankedCandidate) :=
  random ← await Math_random_call (Math_random env (length rankedCandidates));
  now ← await Date_getTime (Date_now env);
  let score := computeScore p candidate random now in
  await (db_setValidatorScore (stash candidate) score) tt;;
  mret (rankedCandidates ++ [rankedCandidate score candidate]).

Definition scoreAll (env : Env) (p : Populations) (validCandidates : list CandidateData)
    : Eff (Completion PassResult) (list RankedCandidate) :=
  for_of validCandidates (scoreAll_turn env p) [].

(** The method returns the ranking; the engine after the call is the first
    component of the result.  When a check throws, the method throws: it
    returns no ranking and the engine stays as it was. *)
Definition getValidCandidates (self : OTV) (env : Env) (candidates : list CandidateData)
    (identityHashTable : gmap string Z) : Completion PassResult * list Call :=
  run (
    await (logger_info "(OTV::getValidCandidates) Getting candidates") tt;;
    validCandidates ← collectValid self env candidates identityHashTable;
    let p := populations validCandidates in
    now ← await Date_getTime (Date_now env);
    await (db_setValidatorScoreMetadata (scoreMetadata p) now) tt;;
    rankedCandidates ← scoreAll env p validCandidates;
    let rankedCandidates := Array_sort byTotalDescending rankedCandidates in
    (* Cache the value to return from the server. *)
    return_ (Resolved (set_validCache self rankedCandidates, rankedCandidates))).

(** What the two loops of the method compute, as functions of the input. *)

(** The check of the candidate returns, and the verdict is Valid. *)
Definition accepts (self : OTV) (env : Env) (identityHashTable : gmap string Z)
    (c : CandidateData) : bool :=
  match (checkSingleCandidate ext self env c identityHashTable).1 with
  | Resolved (isValid, _) => isValid
  | Rejected _ => false
  end.

(** The check of the candidate throws. *)
Definition throws (self : OTV) (env : Env) (identityHashTable : gmap string Z)
    (c : CandidateData) : bool :=
  match (checkSingleCandidate ext self env c identityHashTable).1 with
  | Resolved _ => false
  | Rejected _ => true
  end.

(** The error of the first candidate, in input order, whose check throws. *)
Fixpoint first_throw (self : OTV) (env : Env) (identityHashTable : gmap string Z)
    (candidates : list CandidateData) : option ErrorText :=
  match candidates with
  | [] => None
  | c :: rest =>
      match (checkSingleCandidate ext self env c identityHashTable).1 with
      | Resolved _ => first_throw self env identityHashTable rest
      | Rejected e => Some e
      end
  end.

(** The candidates the checker accepts, in input order. *)
Definition validCandidatesOf (self : OTV) (env : Env) (candidates : list CandidateData)
    (identityHashTable : gmap string Z) : list CandidateData :=
  List.filter (accepts self env identityHashTable) candidates.

(** The scores of the valid candidates, the first of the list taking the
    [i]-th draw. *)
Fixpoint scoresFrom (env : Env) (p : Populations) (i : nat) (l : list CandidateData)
    : list (CandidateData * Score) :=
  match l with
  | [] => []
  | c :: l' =>
      (c, computeScore p c (Math_random env i) (Date_now env)) :: scoresFrom env p (S i) l'
  end.

(** The score records a pass persists: the arguments of its
    [db.setValidatorScore] calls. *)
Definition persistedScores (calls : list Call) : list Score :=
  omap (fun call => match call with
                    | db_setValidatorScore _ score => Some score
                    | _ => None
                    end) calls.

(** The score records a ranking holds. *)
Definition cachedScores (ranking : list RankedCandidate) : list Score :=
  map rc_aggregate ranking.

(** The invariant of a score record: the aggregate is the sum of the nine
    sub-scores, the jitter lies in [1, 1.05), the total is their product. *)
Definition score_invariant (s : Score) : Prop :=
  (aggregate s ==
     score_inclusion s + score_spanInclusion s + score_discovered s
     + score_nominated s + score_rank s + score_unclaimed s
     + score_bonded s + score_faults s + score_offline s)%Q
  /\ (1 <= randomness s)%Q /\ (randomness s < 105 # 100)%Q
  /\ (total s == aggregate s * randomness s)%Q.

(** Every two adjacent entries are in the relation [R]. *)
Definition adjacent {A} (R : A -> A -> Prop) (l : list A) : Prop :=
  forall i a b, l !! i = Some a -> l !! S i = Some b -> R a b.

(** [a] comes before [b] in a ranking descending by total. *)
Definition total_ge (a b : RankedCandidate) : Prop :=
  (total (rc_aggregate b) <= total (rc_aggregate a))%Q.

(** ** processCandidates (lines 538-644) *)

(** The sets [good] and [bad], in insertion order.  The members of the input
    set are distinct objects and every [bad] entry is a fresh object, so no
    [add] finds its argument already present. *)
Definition Partition : Type := list CandidateData * list (CandidateData * string).

Definition add_bad (s : Partition) (candidate : CandidateData) (reason : string) : Partition :=
  (s.1, s.2 ++ [(candidate, reason)]).

Definition add_good (s : Partition) (candidate : CandidateData) : Partition :=
  (s.1 ++ [candidate], s.2).

Definition reason_commission_raised (c : CandidateData) (value : option Z) : string :=
  name c +:+ " found commission higher than ten percent: " +:+ showNullable value.

Definition reason_bonded_round (c : CandidateData) (bondedAmt : option Z) : string :=
  name c +:+ " has less than the minimum required amount bonded: " +:+ showNullable bondedAmt.

(** Lines 553-642, the body of the loop. *)
Definition processCandidate (self : OTV) (env : Env) (entry : option CandidateData)
    (s : Partition) : Eff Partition Partition :=
  match entry with
  | None =>
      await (logger_info "{Constraints::processCandidates} candidate is null. Skipping..") tt;;
      continue s
  | Some candidate =>
      (* Ensure the commission wasn't raised. *)
      '(commission_, err) ← await (chaindata_getCommission (stash candidate))
                                  (getCommission (chaindata env) (stash candidate));
      (* If it errors we assume that a validator removed their validator status. *)
      match err with
      | Some e =>
          let reason := reason_read_error candidate e in
          await (logger_info reason) tt;;
          continue (add_bad s candidate reason)
      | None => mret tt
      end;;
      (if commission self <? nullToNumber commission_ then
         let reason := reason_commission_raised candidate commission_ in
         await (logger_info reason) tt;;
         continue (add_bad s candidate reason)
       else mret tt);;
      (if negb (skipSelfStake candidate) then
         '(bondedAmt, err2) ← await (chaindata_getBondedAmount (stash candidate))
                                    (getBondedAmount (chaindata env) (stash candidate));
         match err2 with
         | Some e =>
             let reason := reason_read_error candidate e in
             await (logger_info reason) tt;;
             continue (add_bad s candidate reason)
         | None => mret tt
         end;;
         if nullToNumber bondedAmt <? minSelfStake self then
           let reason := reason_bonded_round candidate bondedAmt in
           await (logger_info reason) tt;;
           continue (add_bad s candidate reason)
         else mret tt
       else mret tt);;
      (if negb (skipStakedDesitnation self) then
         isStaked ← await (chaindata_destinationIsStaked (stash candidate))
                          (destinationIsStaked (chaindata env) (stash candidate));
         if negb isStaked then
           continue (add_bad s candidate (reason_not_staked candidate))
         else mret tt
       else mret tt);;
      (* Ensure the candidate doesn't have too much offline time. *)
      (if too_much_downtime candidate then
         let reason := reason_downtime ext candidate in
         await (logger_info reason) tt;;
         continue (add_bad s candidate reason)
       else mret tt);;
      mret (add_good s candidate)
  end.

Definition processCandidates (self : OTV) (env : Env)
    (candidates : list (option CandidateData)) : Completion Partition * list Call :=
  run (
    await (logger_info "(OTV::processCandidates) Processing candidates") tt;;
    '(activeEraIndex, eraErr) ← await chaindata_getActiveEraIndex
                                      (getActiveEraIndex (chaindata env));
    match eraErr with
    | Some e => return_ (Rejected e)
    | None => mret tt
    end;;
    s ← for_of candidates (fun entry s =>
           iteration (processCandidate self env entry s)) ([], []);
    return_ (Resolved s)).

(** The reduced rule subset of specification section 4.6, written from its
    words: commission ceiling, self-stake minimum (skippable per candidate),
    reward destination staked (skippable), uptime.  A failing rule logs its
    reason, except the reward-destination rule. *)
Definition round_commission (self : OTV) (env : Env) (c : CandidateData) : CheckOutcome :=
  let read := chaindata_getCommission (stash c) in
  match getCommission (chaindata env) (stash c) with
  | (_, Some e) =>
      (Fail (reason_read_error c e), [read; logger_info (reason_read_error c e)])
  | (value, None) =>
      if bool_decide (nullToNumber value > commission self)
      then (Fail (reason_commission_raised c value),
            [read; logger_info (reason_commission_raised c value)])
      else (Pass, [read])
  end.

Definition round_self_stake (self : OTV) (env : Env) (c : CandidateData) : CheckOutcome :=
  let read := chaindata_getBondedAmount (stash c) in
  if skipSelfStake c then (Pass, [])
  else match getBondedAmount (chaindata env) (stash c) with
       | (_, Some e) =>
           (Fail (reason_read_error c e), [read; logger_info (reason_read_error c e)])
       | (value, None) =>
           if bool_decide (nullToNumber value < minSelfStake self)
           then (Fail (reason_bonded_round c value),
                 [read; logger_info (reason_bonded_round c value)])
           else (Pass, [read])
       end.

Definition round_destination (self : OTV) (env : Env) (c : CandidateData) : CheckOutcome :=
  if skipStakedDesitnation self then (Pass, [])
  else (if destinationIsStaked (chaindata env) (stash c) then Pass
        else Fail (reason_not_staked c),
        [chaindata_destinationIsStaked (stash c)]).

Definition round_uptime (c : CandidateData) : CheckOutcome :=
  if too_much_downtime c
  then (Fail (reason_downtime ext c), [logger_info (reason_downtime ext c)])
  else (Pass, []).

Definition round_checks (self : OTV) (env : Env) (c : CandidateData) : list CheckOutcome :=
  [ round_commission self env c; round_self_stake self env c;
    round_destination self env c; round_uptime c ].

(** What one turn of the loop of processCandidates does to the two sets. *)
Definition partition_turn (self : OTV) (env : Env)
    (s : Partition) (entry : option CandidateData) : Partition :=
  match entry with
  | None => s
  | Some c =>
      match (first_failure (round_checks self env c)).1 with
      | Resolved (true, _) => add_good s c
      | Resolved (false, reason) => add_bad s c reason
      | Rejected _ => s
      end
  end.

Definition partition_calls (self : OTV) (env : Env) (entry : option CandidateData)
    : list Call :=
  match entry with
  | None => [logger_info "{Constraints::processCandidates} candidate is null. Skipping.."]
  | Some c => (first_failure (round_checks self env c)).2
  end.

End Passes.

(** ** The jitter in binary64

    Line 453, [1 + Math.random() * 0.05], as the double-precision
    computation it is: [random] is the double [Math.random()] returned, the
    literals are the doubles nearest to 0.05 and to 1.05, and [+] and [*]
    round to nearest, ties to even. *)

(** The literal [0.05]. *)
Definition c0_05 : float := 0x1.999999999999ap-5%float.

(** The literal [1.05]. *)
Definition c1_05 : float := 0x1.0cccccccccccdp+0%float.

Definition randomness64 (random : float) : float := (1 + random * c0_05)%float.

(** Lines 442-469 in binary64: the score record assembled from the nine
    sub-scores and the draw. *)
Record Score64 := {
  total64 : float;
  aggregate64 : float;
  inclusion64 : float;
  spanInclusion64 : float;
  discovered64 : float;
  nominated64 : float;
  rank64 : float;
  unclaimed64 : float;
  bonded64 : float;
  faults64 : float;
  offline64 : float;
  jitter64 : float;
}.

Definition assembleScore64
    (inclusionScore spanInclusionScore faultsScore discoveredScore nominatedScore
     rankScore unclaimedScore bondedScore offlineScore random : float) : Score64 :=
  let aggregate :=
    (inclusionScore + spanInclusionScore + faultsScore + discoveredScore
     + nominatedScore + rankScore + unclaimedScore + bondedScore + offlineScore)%float in
  let randomness := randomness64 random in
  {| total64 := (aggregate * randomness)%float;
     aggregate64 := aggregate;
     inclusion64 := inclusionScore;
     spanInclusion64 := spanInclusionScore;
     discovered64 := discoveredScore;
     nominated64 := nominatedScore;
     rank64 := rankScore;
     unclaimed64 := unclaimedScore;
     bonded64 := bondedScore;
     faults64 := faultsScore;
     offline64 := offlineScore;
     jitter64 := randomness |}.

(** The mantissas of 1, of [c0_05] (at exponent -57) and of [c1_05] (at
    exponent -52). *)
Definition m_one : positive := 4503599627370496.
Definition m_0_05 : positive := 7205759403792794.
Definition m_1_05 : positive := 4728779608739021.

(** [rec] holds [N] shifted right by [n] bits, and its round and sticky
    bits are clear when the bits shifted out are all zero. *)
Definition shifted (N : Z) (n : Z) (rec : shr_record) : Prop :=
  0 <= shr_m rec /\ shr_m rec = N / 2 ^ n
  /\ (N mod 2 ^ n = 0 -> shr_r rec = false /\ shr_s rec = false).

(** [x] is [+0] or a positive float not above the double nearest 0.05. *)
Definition at_most_0_05 (x : spec_float) : Prop :=
  x = S754_zero false
  \/ exists q e',
       x = S754_finite false q e'
       /\ (e' < -57 \/ (e' = -57 /\ Z.pos q <= Z.pos m_0_05)).

(** The largest double below 1, [1 - 2^-52]. *)
Definition below_one : float := 0x1.ffffffffffffep-1%float.

(** ** A concrete scenario

    Stand-ins for the collaborators and a small candidate pool, on which the
    definitions above are evaluated. *)

Module Scenario.

(** Modelled from the spec: score.ts is not part of the sources.  [scaled]
    is [(value - min) / (max - min)], and [0] when the range is degenerate. *)
Definition scaled_spec (value : Q) (population : list Q) : Q :=
  match population with
  | [] => 0%Q
  | x :: l =>
      let lo := foldr Qmin x l in
      let hi := foldr Qmax x l in
      if Qeq_bool hi lo then 0%Q else ((value - lo) / (hi - lo))%Q
  end.

(** A stand-in for [getStats]: extrema only. *)
Definition extrema (population : list Q) : Stats :=
  match population with
  | [] => Build_Stats 0 0 0 0 0 0 0 0 0
  | x :: l => Build_Stats (foldr Qmin x l) (foldr Qmax x l) 0 0 0 0 0 0 0
  end.

(** A stand-in for the semver library: a text holds a version when it has
    a decimal digit, as for [semver.coerce]; versions are compared as
    texts, an equal one counting as upgraded. *)
Fixpoint has_digit (s : string) : bool :=
  match s with
  | EmptyString => false
  | String a s' =>
      ((48 <=? nat_of_ascii a)%nat && (nat_of_ascii a <=? 57)%nat) || has_digit s'
  end.

Definition ext : Externals := {|
  blake2AsHex := fun s => "0x" +:+ s;
  formatAddress := fun s => s;
  semver_coerce := fun v => if has_digit v then Some v else None;
  semver_clean := fun v => if has_digit v then Some v else None;
  semver_gte := String.eqb;
  semver_TypeError := MkErrorText "I" "nvalid Version: null";
  KOTVBackendEndpoint := "https://kusama.w3f.community";
  showNumber := fun q => pretty (Qnum q) +:+ "/" +:+ pretty (Zpos (Qden q));
  StringToNumber := fun s => if String.eqb s "" then Finite 0 else NaN;
  getStats := extrema;
  scaled := scaled_spec;
|}.

Definition otv : OTV := {|
  skipConnectionTime := false;
  skipIdentity := false;
  skipStakedDesitnation := false;
  skipClientUpgrade := false;
  skipUnclaimed := false;
  minSelfStake := 10000000000000;
  commission := 150000000;
  unclaimedEraThreshold := 4;
  validCache := [];
  invalidCache := [];
|}.

Definition candidate (name_ stash_ : string) (bonded_ : Z) : CandidateData := {|
  name := name_;
  stash := stash_;
  kusamaStash := None;
  version := "0.9.39";
  identity := name_;
  discoveredAt := 1000;
  nominatedAt := 0;
  onlineSince := 1000;
  offlineSince := 0;
  offlineAccumulated := 0;
  rank := 30;
  faults := 0;
  bonded := Some bonded_;
  inclusion := 0;
  spanInclusion := 0;
  unclaimedEras := Some [];
  skipSelfStake := false;
|}.

Definition with_unclaimedEras (c : CandidateData) (eras : option (list Z)) : CandidateData := {|
  name := name c; stash := stash c; kusamaStash := kusamaStash c;
  version := version c; identity := identity c; discoveredAt := discoveredAt c;
  nominatedAt := nominatedAt c; onlineSince := onlineSince c;
  offlineSince := offlineSince c; offlineAccumulated := offlineAccumulated c;
  rank := rank c; faults := faults c; bonded := bonded c;
  inclusion := inclusion c; spanInclusion := spanInclusion c;
  unclaimedEras := eras; skipSelfStake := skipSelfStake c;
|}.

Definition with_kusamaStash (c : CandidateData) (k : option string) : CandidateData := {|
  name := name c; stash := stash c; kusamaStash := k;
  version := version c; identity := identity c; discoveredAt := discoveredAt c;
  nominatedAt := nominatedAt c; onlineSince := onlineSince c;
  offlineSince := offlineSince c; offlineAccumulated := offlineAccumulated c;
  rank := rank c; faults := faults c; bonded := bonded c;
  inclusion := inclusion c; spanInclusion := spanInclusion c;
  unclaimedEras := unclaimedEras c; skipSelfStake := skipSelfStake c;
|}.

Definition alice : CandidateData := candidate "alice" "A1" 10000000000000.
Definition bob : CandidateData := candidate "bob" "B2" 20000000000000.
Definition carol : CandidateData := candidate "carol" "C3" 30000000000000.

(** The chain as the scenario sees it; [eraRead] is what
    [getActiveEraIndex] returns and [commissionOf] what [getCommission]
    does. *)
Definition chain (commissionOf : string -> NumberResult) (eraRead : NumberResult)
    : ChainData := {|
  getValidators := ["A1"; "B2"; "C3"];
  getIdentity := fun s => "id-" +:+ s;
  hasIdentity := fun _ => (true, true);
  destinationIsStaked := fun _ => true;
  getCommission := commissionOf;
  getBondedAmount := fun _ => (Some 50000000000000, None);
  getActiveEraIndex := eraRead;
|}.

Definition world (commissionOf : string -> NumberResult) (eraRead : NumberResult)
    (lookup : HttpResult) : Env := {|
  chaindata := chain commissionOf eraRead;
  getLatestRelease := Some {| release_name := "0.9.39" |};
  Date_now := 2 * WEEK;
  axios_get := fun _ => lookup;
  Math_random := fun i => (1 # Pos.of_succ_nat (S i))%Q;
|}.

Definition lowCommission : string -> NumberResult := fun _ => (Some 10000000, None).

Definition env : Env := world lowCommission (Some 100, None) HttpError.

Definition pool : list CandidateData := [alice; bob; carol].

Definition table : gmap string Z := (populateIdentityHashTable ext env pool).1.

(** alice with one old unclaimed era. *)
Definition alice90 : CandidateData := with_unclaimedEras alice (Some [90]).

(** alice with a secondary-network stash. *)
Definition aliceK : CandidateData := with_kusamaStash alice (Some "K1").

(** The era read fails: no value, an error text. *)
Definition eraError : ErrorText := MkErrorText "A" "ctive era not found".
Definition envEraError : Env := world lowCommission (None, Some eraError) HttpError.

(** The lookup answers with no invalidity reasons and [rank: null]. *)
Definition envNullRank : Env :=
  world lowCommission (Some 100, None) (HttpResponse (DataObject JUndefined JNull)).

(** bob has raised his commission above the ceiling of 150000000. *)
Definition raisedCommission : string -> NumberResult :=
  fun s => if String.eqb s "B2" then (Some 200000000, None) else (Some 10000000, None).
Definition envRaised : Env := world raisedCommission (Some 100, None) HttpError.

(** A nominated cohort with a null entry. *)
Definition cohort : list (option CandidateData) := [Some alice; None; Some bob].

(** The lookup answers with neither field. *)
Definition envNoRank : Env :=
  world lowCommission (Some 100, None) (HttpResponse (DataObject JUndefined JUndefined)).

End Scenario.

(** ** The rest of the class: getInvalidCandidates and the cache getters *)

(** [get validCandidateCache()] and [get invalidCandidateCache()], lines
    91-97. *)
Definition validCandidateCache (self : OTV) : list RankedCandidate := validCache self.
Definition invalidCandidateCache (self : OTV) : list string := invalidCache self.

(** [this.invalidCache = ...] *)
Definition set_invalidCache (self : OTV) (reasons : list string) : OTV := {|
  skipConnectionTime := skipConnectionTime self;
  skipIdentity := skipIdentity self;
  skipStakedDesitnation := skipStakedDesitnation self;
  skipClientUpgrade := skipClientUpgrade self;
  skipUnclaimed := skipUnclaimed self;
  minSelfStake := minSelfStake self;
  commission := commission self;
  unclaimedEraThreshold := unclaimedEraThreshold self;
  validCache := validCache self;
  invalidCache := reasons;
|}.

Section Diagnostics.

Variable ext : Externals.

(** Lines 122-129, the callback of [candidates.map]: it resolves to
    [{ stash, reason }] for a candidate the checker rejects and to
    [undefined] for one it accepts, and it throws when the check throws. *)
Definition invalidEntry (self : OTV) (env : Env) (identityHashTable : gmap string Z)
    (candidate : CandidateData) : Completion (option (string * string)) * list Call :=
  run (
    '(isValid, reason) ← await_throwing
       (checkSingleCandidate ext self env candidate identityHashTable);
    (if negb isValid then return_ (Resolved (Some (stash candidate, reason)))
     else mret tt);;
    return_ (Resolved None)).

(** [Promise.all] over results in input order: the array of the values when
    every promise resolves.  When some reject it rejects with the error of
    the one that rejects first in time; the first in input order is taken
    here, and the callbacks of this method all throw the same error
    (the TypeError of the version comparison). *)
Fixpoint Promise_all {A} (results : list (Completion A)) : Completion (list A) :=
  match results with
  | [] => Resolved []
  | Resolved a :: rest =>
      match Promise_all rest with
      | Resolved l => Resolved (a :: l)
      | Rejected e => Rejected e
      end
  | Rejected e :: _ => Rejected e
  end.

(** What the method resolves to: the engine after the call and the report. *)
Definition Report : Type := OTV * list (string * string).

(** getInvalidCandidates, lines 117-138.  [Promise.all] runs the callbacks
    concurrently: the calls of each candidate's check are in their own
    order, and how the checks of different candidates interleave is the
    scheduler's; the second component of the result holds the calls
    candidate by candidate, every callback running to its end whether
    another one throws or not.  The entries of the resolved array are in
    input order; [filter((i) => !!i)] drops the [undefined] ones.  When a
    check throws, the method throws and the engine stays as it was. *)
Definition getInvalidCandidates (self : OTV) (env : Env) (candidates : list CandidateData)
    (identityHashTable : gmap string Z) : Completion Report * list (list Call) :=
  let results := map (invalidEntry self env identityHashTable) candidates in
  (match Promise_all (map fst results) with
   | Resolved entries =>
       let invalid := omap id entries in
       Resolved (set_invalidCache self (map snd invalid), invalid)
   | Rejected e => Rejected e
   end,
   map snd results).

(** The entry [{ stash, reason }] of a candidate the checker rejects with a
    reason. *)
Definition rejection (self : OTV) (env : Env) (identityHashTable : gmap string Z)
    (c : CandidateData) : option (string * string) :=
  match (checkSingleCandidate ext self env c identityHashTable).1 with
  | Resolved (false, reason) => Some (stash c, reason)
  | _ => None
  end.

(** The digest under which the identity index counts a candidate. *)
Definition identityDigest (env : Env) (c : CandidateData) : string :=
  blake2AsHex ext (getIdentity (chaindata env) (stash c)).

(** How many candidates of a pool have the digest [h]. *)
Definition sharers (env : Env) (pool : list CandidateData) (h : string) : Z :=
  Z.of_nat (length (List.filter (fun c => String.eqb (identityDigest env c) h) pool)).

End Diagnostics.

(** [relaxed] differs from [strict] only by skipping more checks, allowing a
    higher commission, asking for less self-stake or tolerating older
    unclaimed eras. *)
Definition relaxes (strict relaxed : OTV) : Prop :=
  (skipConnectionTime strict = true -> skipConnectionTime relaxed = true)
  /\ (skipIdentity strict = true -> skipIdentity relaxed = true)
  /\ (skipStakedDesitnation strict = true -> skipStakedDesitnation relaxed = true)
  /\ (skipClientUpgrade strict = true -> skipClientUpgrade relaxed = true)
  /\ (skipUnclaimed strict = true -> skipUnclaimed relaxed = true)
  /\ commission strict <= commission relaxed
  /\ minSelfStake relaxed <= minSelfStake strict
  /\ unclaimedEraThreshold strict <= unclaimedEraThreshold relaxed.

(** The collaborator calls of the reduced rule subset of processCandidates. *)
Definition round_call (call : Call) : bool :=
  match call with
  | chaindata_getActiveEraIndex
  | chaindata_getCommission _
  | chaindata_getBondedAmount _
  | chaindata_destinationIsStaked _
  | logger_info _ => true
  | _ => false
  end.

(** The calls by which the checker reads: the chain, the clock, the latest
    release. *)
Definition read_call (call : Call) : bool :=
  match call with
  | chaindata_getValidators
  | chaindata_getIdentity _
  | chaindata_hasIdentity _
  | chaindata_destinationIsStaked _
  | chaindata_getCommission _
  | chaindata_getBondedAmount _
  | chaindata_getActiveEraIndex
  | db_getLatestRelease
  | Date_getTime => true
  | _ => false
  end.

(** The calls of the cross-network lookup: the HTTP request and the log line
    of its failure. *)
Definition lookup_call (call : Call) : bool :=
  match call with
  | axios_get_call _ | logger_info _ => true
  | _ => false
  end.

(** The metadata records a pass persists. *)
Definition persistedMetadata (calls : list Call) : list (list (Stats * Q) * Z) :=
  omap (fun call => match call with
                    | db_setValidatorScoreMetadata stats at_ => Some (stats, at_)
                    | _ => None
                    end) calls.

(** 2% of a week, in milliseconds: 3 h 21 min 36 s. *)
Definition downtime_allowance : Z := 12096000.

(** The sum of the nine weights. *)
Definition weight_sum : Q := 125.

(** What the checker asks of a candidate, stated on the data it reads:
    online; a validate intention; when a release is known, a version in
    the candidate's text and in the release name (or the comparison throws)
    and, unless skipped, the latest client; one week connected; an identity set, verified and shared by one
    or two candidates of the table; at most 2% of a week offline; rewards
    staked; a commission read without error and within the ceiling; a
    bonded amount read without error and at least the minimum; no unclaimed
    era at or below the threshold; and, when the lookup of the
    secondary-network stash answers, no invalidity reason and no rank below
    25. *)
Definition eligible (ext : Externals) (self : OTV) (env : Env) (c : CandidateData)
    (identityHashTable : gmap string Z) : Prop :=
  (onlineSince c <> 0 /\ offlineSince c = 0)
  /\ formatAddress ext (stash c) ∈ getValidators (chaindata env)
  /\ (forall release,
        getLatestRelease env = Some release ->
        exists nodeVersion latestVersion,
          semver_coerce ext (version c) = Some nodeVersion
          /\ semver_clean ext (release_name release) = Some latestVersion
          /\ (skipClientUpgrade self = false ->
              semver_gte ext nodeVersion latestVersion = true))
  /\ (skipConnectionTime self = false -> WEEK <= Date_now env - discoveredAt c)
  /\ (skipIdentity self = false ->
        hasIdentity (chaindata env) (stash c) = (true, true)
        /\ exists n, identityHashTable !! identityDigest ext env c = Some n
                     /\ n <> 0 /\ n <= 2)
  /\ offlineAccumulated c <= downtime_allowance
  /\ (skipStakedDesitnation self = false ->
        destinationIsStaked (chaindata env) (stash c) = true)
  /\ (exists value,
        getCommission (chaindata env) (stash c) = (value, None)
        /\ nullToNumber value <= commission self)
  /\ (skipSelfStake c = false ->
        exists value,
          getBondedAmount (chaindata env) (stash c) = (value, None)
          /\ minSelfStake self <= nullToNumber value)
  /\ (skipUnclaimed self = false ->
        forall eras, unclaimedEras c = Some eras ->
          Forall (fun era =>
                    nullToNumber (getActiveEraIndex (chaindata env)).1
                    - unclaimedEraThreshold self - 1 < era) eras)
  /\ (forall k invalidityReasons rank,
        kusamaStash c = Some k -> k <> "" ->
        axios_get env (kusama_url ext k)
        = HttpResponse (DataObject invalidityReasons rank) ->
        truthy invalidityReasons = false
        /\ Number_lt (ToNumber ext rank) 25 = false).

(** [candidate] is kept by a round of processCandidates: its commission is
    read without error and is within the ceiling, its bonded amount (unless
    the candidate skips the self-stake rule) is read without error and is at
    least the minimum, its rewards are staked (unless the engine skips the
    rule) and it was offline for at most 2% of a week. *)
Definition retained (self : OTV) (env : Env) (candidate : CandidateData) : bool :=
  match getCommission (chaindata env) (stash candidate) with
  | (value, None) =>
      (nullToNumber value <=? commission self)
      && (skipSelfStake candidate
          || match getBondedAmount (chaindata env) (stash candidate) with
             | (bondedAmt, None) => minSelfStake self <=? nullToNumber bondedAmt
             | (_, Some _) => false
             end)
      && (skipStakedDesitnation self
          || destinationIsStaked (chaindata env) (stash candidate))
      && (offlineAccumulated candidate <=? downtime_allowance)
  | (_, Some _) => false
  end.

(** The non-null entries of a nominated cohort, in order. *)
Definition nonNull (candidates : list (option CandidateData)) : list CandidateData :=
  omap id candidates.

(** The calls of the second loop: a draw, a clock read and a score write
    for each scored candidate. *)
Definition scoring_calls (scores : list (CandidateData * Score)) : list Call :=
  concat (map (fun cs : CandidateData * Score =>
                 [Math_random_call; Date_getTime; db_setValidatorScore (stash cs.1) cs.2])
            scores).

(** A score record whose nine sub-scores lie between 0 and their weights,
    whose aggregate lies between 0 and the sum 125 of the weights and whose
    total lies between 0 and 125 x 1.05 = 131.25, the bounds included. *)
Definition within_weights (s : Score) : Prop :=
  (0 <= score_inclusion s <= INCLUSION_WEIGHT)%Q
  /\ (0 <= score_spanInclusion s <= SPAN_INCLUSION_WEIGHT)%Q
  /\ (0 <= score_discovered s <= DISCOVERED_WEIGHT)%Q
  /\ (0 <= score_nominated s <= NOMINATED_WEIGHT)%Q
  /\ (0 <= score_rank s <= RANK_WEIGHT)%Q
  /\ (0 <= score_unclaimed s <= UNCLAIMED_WEIGHT)%Q
  /\ (0 <= score_bonded s <= BONDED_WEIGHT)%Q
  /\ (0 <= score_faults s <= FAULTS_WEIGHT)%Q
  /\ (0 <= score_offline s <= OFFLINE_WEIGHT)%Q
  /\ (0 <= aggregate s <= weight_sum)%Q
  /\ (0 <= total s <= weight_sum * (105 # 100))%Q.

(** [scaled] maps a member of the population into the unit interval. *)
Definition scaled_in_unit (ext : Externals) : Prop :=
  forall (value : Q) (population : list Q),
    (exists x, In x population /\ (x == value)%Q) ->
    (0 <= scaled ext value population <= 1)%Q.

(** Each draw of [Math.random()] lies in [0, 1). *)
Definition draws_in_unit (env : Env) : Prop :=
  forall i, (0 <= Math_random env i)%Q /\ (Math_random env i < 1)%Q.

(** Two engines and environments that agree on what a round of
    processCandidates consults: the commission ceiling, the self-stake
    minimum, the reward-destination skip flag, and the commission,
    bonded-amount and reward-destination reads. *)
Definition same_round_inputs (self self' : OTV) (env env' : Env) : Prop :=
  commission self = commission self'
  /\ minSelfStake self = minSelfStake self'
  /\ skipStakedDesitnation self = skipStakedDesitnation self'
  /\ (forall stash, getCommission (chaindata env) stash = getCommission (chaindata env') stash)
  /\ (forall stash,
        getBondedAmount (chaindata env) stash = getBondedAmount (chaindata env') stash)
  /\ (forall stash,
        destinationIsStaked (chaindata env) stash
        = destinationIsStaked (chaindata env') stash).

(** ** More of the scenario *)

Module Examples.

(** An engine that skips the unclaimed-eras check, allows a higher
    commission and asks for less self-stake. *)
Definition lenient : OTV := {|
  skipConnectionTime := false;
  skipIdentity := false;
  skipStakedDesitnation := false;
  skipClientUpgrade := false;
  skipUnclaimed := true;
  minSelfStake := 5000000000000;
  commission := 200000000;
  unclaimedEraThreshold := 10;
  validCache := [];
  invalidCache := [];
|}.

(** dave went offline at time 1500, and was offline for four hours of the
    week. *)
Definition dave : CandidateData := {|
  name := "dave";
  stash := "D4";
  kusamaStash := None;
  version := "0.9.39";
  identity := "dave";
  discoveredAt := 1000;
  nominatedAt := 0;
  onlineSince := 1000;
  offlineSince := 1500;
  offlineAccumulated := 14400000;
  rank := 3;
  faults := 1;
  bonded := Some 10000000000000;
  inclusion := 0;
  spanInclusion := 0;
  unclaimedEras := None;
  skipSelfStake := false;
|}.

(** The lookup answers with no invalidity reasons and the rank [q]. *)
Definition envRank (q : Q) : Env :=
  Scenario.world Scenario.lowCommission (Some 100, None)
    (HttpResponse (DataObject JUndefined (JNumber q))).

(** A chain on which every stash has the same identity. *)
Definition sharedChain : ChainData := {|
  getValidators := ["A1"; "B2"; "C3"];
  getIdentity := fun _ => "one operator";
  hasIdentity := fun _ => (true, true);
  destinationIsStaked := fun _ => true;
  getCommission := Scenario.lowCommission;
  getBondedAmount := fun _ => (Some 50000000000000, None);
  getActiveEraIndex := (Some 100, None);
|}.

Definition envShared : Env := {|
  chaindata := sharedChain;
  getLatestRelease := Some {| release_name := "0.9.39" |};
  Date_now := 2 * WEEK;
  axios_get := fun _ => HttpError;
  Math_random := fun i => (1 # Pos.of_succ_nat (S i))%Q;
|}.

(** An engine with the scenario's limits that skips every check it can and
    has a cache from an earlier pass. *)
Definition skipping : OTV := {|
  skipConnectionTime := true;
  skipIdentity := true;
  skipStakedDesitnation := false;
  skipClientUpgrade := true;
  skipUnclaimed := true;
  minSelfStake := 10000000000000;
  commission := 150000000;
  unclaimedEraThreshold := 84;
  validCache := [];
  invalidCache := ["an earlier reason"];
|}.

(** Another era, another time, another release, and a lookup that
    answers. *)
Definition envLater : Env := {|
  chaindata := Scenario.chain Scenario.lowCommission (Some 7, None);
  getLatestRelease := None;
  Date_now := 9 * WEEK;
  axios_get := fun _ => HttpResponse DataNullish;
  Math_random := fun _ => 0%Q;
|}.

(** alice on a build whose version text holds no version. *)
Definition aliceNightly : CandidateData := {|
  name := "alice";
  stash := "A1";
  kusamaStash := None;
  version := "nightly";
  identity := "alice";
  discoveredAt := 1000;
  nominatedAt := 0;
  onlineSince := 1000;
  offlineSince := 0;
  offlineAccumulated := 0;
  rank := 30;
  faults := 0;
  bonded := Some 10000000000000;
  inclusion := 0;
  spanInclusion := 0;
  unclaimedEras := Some [];
  skipSelfStake := false;
|}.

(** The scenario's engine with the client-version check skipped. *)
Definition skipUpgrade : OTV := {|
  skipConnectionTime := false;
  skipIdentity := false;
  skipStakedDesitnation := false;
  skipClientUpgrade := true;
  skipUnclaimed := false;
  minSelfStake := 10000000000000;
  commission := 150000000;
  unclaimedEraThreshold := 4;
  validCache := [];
  invalidCache := [];
|}.

(** The pool with dave in it. *)
Definition pool4 : list CandidateData := Scenario.pool ++ [dave].

(** A nominated cohort with a null entry and dave. *)
Definition cohort4 : list (option CandidateData) := Scenario.cohort ++ [Some dave].

(** A pool with the build whose version text holds no version in it. *)
Definition poolNightly : list CandidateData := [Scenario.bob; aliceNightly; Scenario.carol].

End Examples.

(** * Properties *)

(** ** The monad *)

Lemma eff_bind_assoc {R A B C} (m : Eff R A) (f : A -> Eff R B) (g : B -> Eff R C) :
  (m ≫= f) ≫= g = m ≫= (fun x => f x ≫= g).
Proof.
  unfold mbind, Eff_bind, eff_bind. destruct m as [[r|a] t]; [done|].
  destruct (f a) as [[r|b] t1]; [done|].
  destruct (g b) as [s t2]. by rewrite app_assoc.
Qed.

Lemma run_of_check o (m : Eff (Completion Verdict) (Completion Verdict)) :
  run (of_check o ;; m) = after o (run m).
Proof.
  destruct o as [[|reason|e] calls]; [|done..].
  unfold mbind, Eff_bind, eff_bind, run, after. simpl.
  by destruct m as [[r|r] t].
Qed.

Lemma orZero_default v : orZero v = default 0 v.
Proof. destruct v as [n|]; simpl; [|done]. destruct (Z.eqb_spec n 0); congruence. Qed.

Lemma forallb_existsb_era threshold eras :
  negb (forallb (fun era => threshold <? era) eras)
  = existsb (fun era => era <=? threshold) eras.
Proof.
  induction eras as [|e l IH]; simpl; [done|].
  rewrite negb_andb, IH. f_equal. rewrite Z.ltb_antisym. by rewrite negb_involutive.
Qed.

Lemma Qltb_lt (x y : Q) : Qltb x y = true <-> (x < y)%Q.
Proof.
  unfold Qltb. rewrite negb_true_iff. split.
  - intros H. apply Qnot_le_lt. intros Hle. apply Qle_bool_iff in Hle. congruence.
  - intros H. destruct (Qle_bool y x) eqn:Hb; [|done].
    apply Qle_bool_iff in Hb. exfalso. by apply (Qlt_not_le x y).
Qed.

Lemma Qltb_ge (x y : Q) : Qltb x y = false <-> (y <= x)%Q.
Proof.
  unfold Qltb. rewrite negb_false_iff. apply Qle_bool_iff.
Qed.

Ltac split_test :=
  match goal with
  | |- context [Z.eqb ?a ?b] => destruct (Z.eqb_spec a b)
  | |- context [Z.ltb ?a ?b] => destruct (Z.ltb_spec a b)
  | |- context [bool_decide ?P] => destruct (bool_decide_reflect P)
  end.

Ltac block_cases :=
  simpl; repeat (split_test; simpl); try done; try (exfalso; intuition lia).

Section Refinement.

Variable ext : Externals.
Variable self : OTV.
Variable env : Env.
Variable c : CandidateData.
Variable tbl : gmap string Z.

Lemma online_block_check : online_block c = of_check (check_online c).
Proof. unfold online_block, check_online, return_if. block_cases. Qed.

Lemma intention_block_check :
  intention_block ext c env = of_check (check_validate_intention ext env c).
Proof. unfold intention_block, check_validate_intention, return_if. block_cases. Qed.

Lemma version_block_check :
  version_block ext self c env = of_check (check_client_version ext self env c).
Proof.
  unfold version_block, check_client_version, return_if. simpl.
  destruct (getLatestRelease env) as [release|]; [|done]. simpl.
  destruct (semver_coerce _ _) as [nodeVersion|]; [|done].
  destruct (semver_clean _ _) as [latestVersion|]; [|done]. simpl.
  by destruct (semver_gte _ _ _), (skipClientUpgrade self).
Qed.

Lemma connection_block_check :
  connection_block self c env = of_check (check_connection_age self env c).
Proof.
  unfold connection_block, check_connection_age, return_if.
  destruct (skipConnectionTime self); [done|]. block_cases.
Qed.

Lemma identity_block_check :
  identity_block ext self c env tbl = of_check (check_identity ext self env c tbl).
Proof.
  unfold identity_block, check_identity, return_if.
  destruct (skipIdentity self); [done|]. simpl.
  destruct (hasIdentity _ _) as [[|] [|]]; try done. simpl.
  rewrite orZero_default. block_cases.
Qed.

Lemma uptime_block_check : uptime_block ext c = of_check (check_uptime ext c).
Proof. unfold uptime_block, check_uptime, return_if. by destruct (too_much_downtime c). Qed.

Lemma destination_block_check :
  destination_block self c env = of_check (check_reward_destination self env c).
Proof.
  unfold destination_block, check_reward_destination, return_if.
  destruct (skipStakedDesitnation self); [done|]. simpl.
  by destruct (destinationIsStaked _ _).
Qed.

Lemma commission_block_check :
  commission_block self c env = of_check (check_commission self env c).
Proof.
  unfold commission_block, check_commission, return_if. simpl.
  destruct (getCommission _ _) as [value [e|]]; [done|]. block_cases.
Qed.

Lemma bonded_block_check :
  bonded_block self c env = of_check (check_self_stake self env c).
Proof.
  unfold bonded_block, check_self_stake, return_if.
  destruct (skipSelfStake c); [done|]. simpl.
  destruct (getBondedAmount _ _) as [value [e|]]; [done|]. block_cases.
Qed.

Lemma unclaimed_block_check :
  unclaimed_block self c env = of_check (check_unclaimed self env c).
Proof.
  unfold unclaimed_block, check_unclaimed, unclaimed_threshold, return_if.
  destruct (skipUnclaimed self); [done|]. simpl.
  destruct (getActiveEraIndex _) as [currentEra err3]. simpl.
  destruct (unclaimedEras c) as [eras|]; [|done].
  rewrite forallb_existsb_era. by destruct (existsb _ _).
Qed.

Lemma kusama_block_check :
  kusama_block ext c env = of_check (check_cross_network ext env c).
Proof.
  unfold kusama_block, check_cross_network, return_if.
  destruct (kusamaStash c) as [[|a k]|]; try done. simpl.
  destruct (axios_get _ _) as [|[|invalidityReasons rank]]; try done. simpl.
  destruct (truthy invalidityReasons); [done|]. simpl.
  by destruct (Number_lt _ _).
Qed.

(** The method is the first-failure run of the eleven checks. *)
Lemma checkSingleCandidate_refines :
  checkSingleCandidate ext self env c tbl = first_failure (checks ext self env c tbl).
Proof.
  unfold checkSingleCandidate, checkSingleCandidate_body, checks, first_failure.
  rewrite online_block_check, intention_block_check, version_block_check,
    connection_block_check, identity_block_check, uptime_block_check,
    destination_block_check, commission_block_check, bonded_block_check,
    unclaimed_block_check, kusama_block_check.
  by rewrite !run_of_check.
Qed.

End Refinement.

(** ** First-failure runs *)

Lemma first_failure_cons o l : first_failure (o :: l) = after o (first_failure l).
Proof. done. Qed.

Lemma first_failure_all_pass l :
  Forall passes l -> first_failure l = (Resolved Valid, calls_of l).
Proof.
  induction 1 as [|[r calls] l Hp _ IH]; [done|].
  unfold passes in Hp. simpl in Hp. subst r.
  rewrite first_failure_cons, IH. done.
Qed.

Lemma first_failure_at l k o reason :
  l !! k = Some o -> Forall passes (take k l) -> o.1 = Fail reason ->
  first_failure l = (Resolved (Invalid reason), calls_of (take (S k) l)).
Proof.
  revert k. induction l as [|[r calls] l IH]; intros k Hk Hp Ho; [done|].
  destruct k as [|k]; simpl in Hk, Hp.
  - injection Hk as <-. simpl in Ho. subst r.
    unfold calls_of. simpl. by rewrite app_nil_r.
  - apply Forall_cons in Hp as [Hr Hp]. unfold passes in Hr. simpl in Hr. subst r.
    rewrite first_failure_cons, (IH k Hk Hp Ho). done.
Qed.

(** A run of checks that pass makes the next check's calls follow theirs. *)
Lemma first_failure_app_pass l1 l2 :
  Forall passes l1 ->
  first_failure (l1 ++ l2) = ((first_failure l2).1, calls_of l1 ++ (first_failure l2).2).
Proof.
  induction 1 as [|[r calls] l Hp _ IH].
  - simpl. by destruct (first_failure l2).
  - unfold passes in Hp. simpl in Hp. subst r.
    rewrite <- app_comm_cons, first_failure_cons, IH.
    unfold calls_of. simpl. by rewrite app_assoc.
Qed.

Lemma first_failure_throw_at l k o e :
  l !! k = Some o -> Forall passes (take k l) -> o.1 = Throw e ->
  first_failure l = (Rejected e, calls_of (take (S k) l)).
Proof.
  revert k. induction l as [|[r calls] l IH]; intros k Hk Hp Ho; [done|].
  destruct k as [|k]; simpl in Hk, Hp.
  - injection Hk as <-. simpl in Ho. subst r.
    unfold calls_of. simpl. by rewrite app_nil_r.
  - apply Forall_cons in Hp as [Hr Hp]. unfold passes in Hr. simpl in Hr. subst r.
    rewrite first_failure_cons, (IH k Hk Hp Ho). done.
Qed.

Lemma first_failure_valid l : (first_failure l).1 = Resolved Valid <-> Forall passes l.
Proof.
  split.
  - induction l as [|[[|r|e] calls] l IH]; intros H; [constructor| |done|done].
    rewrite first_failure_cons in H. constructor; [done|]. by apply IH.
  - intros H. by rewrite (first_failure_all_pass l H).
Qed.

Lemma first_failure_invalid l reason :
  (first_failure l).1 = Resolved (Invalid reason) -> exists o, o ∈ l /\ o.1 = Fail reason.
Proof.
  induction l as [|[[|r|e] calls] l IH]; intros H.
  - done.
  - rewrite first_failure_cons in H. destruct (IH H) as (o & Ho & Hr).
    exists o. split; [by apply list_elem_of_further|done].
  - injection H as <-. exists (Fail r, calls). split; [apply list_elem_of_here|done].
  - done.
Qed.

Lemma first_failure_rejected l e :
  (first_failure l).1 = Rejected e -> exists o, o ∈ l /\ o.1 = Throw e.
Proof.
  induction l as [|[[|r|e'] calls] l IH]; intros H.
  - done.
  - rewrite first_failure_cons in H. destruct (IH H) as (o & Ho & Hr).
    exists o. split; [by apply list_elem_of_further|done].
  - done.
  - injection H as <-. exists (Throw e', calls). split; [apply list_elem_of_here|done].
Qed.

Lemma first_failure_verdict l :
  (first_failure l).1 = Resolved Valid
  \/ (exists reason, (first_failure l).1 = Resolved (Invalid reason))
  \/ (exists e, (first_failure l).1 = Rejected e).
Proof.
  induction l as [|[[|r|e] calls] l IH];
    [by left|by rewrite first_failure_cons|right; left; by exists r|right; right; by exists e].
Qed.

(** The calls of a run are calls of its checks. *)
Lemma first_failure_calls (P : Call -> Prop) l :
  Forall (fun o : CheckOutcome => Forall P o.2) l -> Forall P (first_failure l).2.
Proof.
  induction 1 as [|[[|r|e] calls] l Ho _ IH]; [constructor| |done|done].
  rewrite first_failure_cons. cbn [after snd]. apply Forall_app. by split.
Qed.

(** X22. checkSingleCandidate evaluates its eleven checks in the fixed
    order of section 4.3 (online, validator intention, client version,
    connection age, identity, uptime, reward destination, commission,
    self-stake, unclaimed eras, cross-network), each as the code evaluates
    it: when the [k]-th check is the first not to pass and it fails, the
    verdict is Invalid with that check's reason; when it throws (the version
    comparison, skipped or not), the call throws its error; in both cases
    the calls made are those of the checks up to it and of no later one;
    when every check passes, the verdict is Valid. *)
Theorem checkSingleCandidate_fixed_order
    (ext : Externals) (self : OTV) (env : Env) (c : CandidateData)
    (identityHashTable : gmap string Z) :
  let l := [ check_online c;
             check_validate_intention ext env c;
             check_client_version ext self env c;
             check_connection_age self env c;
             check_identity ext self env c identityHashTable;
             check_uptime ext c;
             check_reward_destination self env c;
             check_commission self env c;
             check_self_stake self env c;
             check_unclaimed self env c;
             check_cross_network ext env c ] in
  let result := checkSingleCandidate ext self env c identityHashTable in
  (forall k o reason,
      l !! k = Some o -> Forall passes (take k l) -> o.1 = Fail reason ->
      result = (Resolved (Invalid reason), calls_of (take (S k) l)))
  /\ (forall k o e,
         l !! k = Some o -> Forall passes (take k l) -> o.1 = Throw e ->
         result = (Rejected e, calls_of (take (S k) l)))
  /\ (Forall passes l -> result = (Resolved Valid, calls_of l)).
Proof.
  intros l result. subst result. rewrite checkSingleCandidate_refines.
  change (checks ext self env c identityHashTable) with l. split; [|split].
  - intros k o reason. apply first_failure_at.
  - intros k o e. apply first_failure_throw_at.
  - apply first_failure_all_pass.
Qed.

Lemma first_failure_snoc_pass l o :
  passes o -> (first_failure (l ++ [o])).1 = (first_failure l).1.
Proof.
  intros Ho. induction l as [|[[|r|e] calls] l IH].
  - destruct o as [r calls]. unfold passes in Ho. simpl in Ho. by subst r.
  - rewrite <- app_comm_cons, !first_failure_cons. simpl. exact IH.
  - done.
  - done.
Qed.

Lemma checks_split ext self env c tbl :
  checks ext self env c tbl
  = take 9 (checks ext self env c tbl)
    ++ [check_unclaimed self env c; check_cross_network ext env c].
Proof. done. Qed.

Lemma checks_split_last ext self env c tbl :
  checks ext self env c tbl
  = take 10 (checks ext self env c tbl) ++ [check_cross_network ext env c].
Proof. done. Qed.

(** ** Strings *)

Lemma append_inj_l (s a b : string) : s +:+ a = s +:+ b -> a = b.
Proof. induction s as [|ch s IH]; simpl; [done|]. intros H. injection H as H. auto. Qed.

Lemma string_append_assoc (a b c : string) : (a +:+ b) +:+ c = a +:+ b +:+ c.
Proof.
  induction a as [|ch a IH]; [done|].
  change (String ch ((a +:+ b) +:+ c) = String ch (a +:+ b +:+ c)). by f_equal.
Qed.

Lemma string_append_nil_r (a : string) : a +:+ "" = a.
Proof.
  induction a as [|ch a IH]; [done|].
  change (String ch (a +:+ "") = String ch a). by f_equal.
Qed.

Lemma mentions_infix (pre sub post : string) : mentions sub (pre +:+ sub +:+ post).
Proof. by exists pre, post. Qed.

(** ** The single-candidate checker *)

(** The comparison of line 174 throws when the candidate's text holds no
    version or the release name is none: a candidate that is online and has
    a validate intention gets no verdict, with a latest release known,
    whether the client-version check is skipped or not, and no call is made
    after the two reads. *)
Lemma version_comparison_throws ext self env c tbl release :
  onlineSince c <> 0 -> offlineSince c = 0 ->
  formatAddress ext (stash c) ∈ getValidators (chaindata env) ->
  getLatestRelease env = Some release ->
  semver_coerce ext (version c) = None \/ semver_clean ext (release_name release) = None ->
  checkSingleCandidate ext self env c tbl
  = (Rejected (semver_TypeError ext), [chaindata_getValidators; db_getLatestRelease]).
Proof.
  intros Hon Hoff Hval Hrel Hnull.
  rewrite checkSingleCandidate_refines. unfold checks.
  rewrite !first_failure_cons.
  unfold check_online, check_validate_intention, check_client_version.
  rewrite bool_decide_false by lia. rewrite bool_decide_false by tauto.
  rewrite Hrel. cbn [after fst snd app].
  destruct Hnull as [-> | ->]; [done|].
  by destruct (semver_coerce ext (version c)).
Qed.

(** C1, at a candidate whose version text holds no version.  The engine
    skips the client-version check and a latest release is known; alice
    passes every check; the same alice on a build whose version text is
    "nightly", in which [semver.coerce] finds no version, gets no verdict:
    the call throws the TypeError of [semver.gte] after the validator and
    release reads, and it does so with the check not skipped as well. *)
Theorem unversioned_candidate_throws :
  skipClientUpgrade Examples.skipUpgrade = true
  /\ getLatestRelease Scenario.env = Some {| release_name := "0.9.39" |}
  /\ semver_coerce Scenario.ext (version Examples.aliceNightly) = None
  /\ (checkSingleCandidate Scenario.ext Examples.skipUpgrade Scenario.env
        Scenario.alice Scenario.table).1 = Resolved Valid
  /\ checkSingleCandidate Scenario.ext Examples.skipUpgrade Scenario.env
       Examples.aliceNightly Scenario.table
     = (Rejected (semver_TypeError Scenario.ext),
        [chaindata_getValidators; db_getLatestRelease])
  /\ checkSingleCandidate Scenario.ext Scenario.otv Scenario.env
       Examples.aliceNightly Scenario.table
     = (Rejected (semver_TypeError Scenario.ext),
        [chaindata_getValidators; db_getLatestRelease]).
Proof. by vm_compute. Qed.

(** No reason of the cross-network check is the unclaimed-eras reason. *)
Lemma cross_network_reason_not_unclaimed ext env c eras threshold reason :
  (check_cross_network ext env c).1 = Fail reason ->
  reason <> reason_unclaimed c eras threshold.
Proof.
  unfold check_cross_network, reason_unclaimed, reason_kusama_invalid, reason_kusama_rank.
  destruct (kusamaStash c) as [[|a k]|]; try done.
  destruct (axios_get _ _) as [|[|invalidityReasons rank_]]; try done. simpl.
  destruct (truthy invalidityReasons).
  - intros [= <-] H. apply append_inj_l in H. discriminate H.
  - destruct (Number_lt _ _); [|done].
    intros [= <-] H. apply append_inj_l in H. discriminate H.
Qed.

(** C3. For every candidate reaching the unclaimed-rewards check (the nine
    checks before it pass) with skipUnclaimed false and a present
    unclaimedEras sequence, with threshold = currentEra -
    unclaimedEraThreshold - 1, the verdict is Invalid with the unclaimed-eras
    reason if and only if some entry of unclaimedEras is <= threshold. *)
Theorem unclaimed_check_iff
    (ext : Externals) (self : OTV) (env : Env) (c : CandidateData)
    (identityHashTable : gmap string Z) (eras : list Z) (currentEra threshold : Z) :
  Forall passes (take 9 (checks ext self env c identityHashTable)) ->
  skipUnclaimed self = false ->
  unclaimedEras c = Some eras ->
  currentEra = nullToNumber (getActiveEraIndex (chaindata env)).1 ->
  threshold = currentEra - unclaimedEraThreshold self - 1 ->
  (checkSingleCandidate ext self env c identityHashTable).1
    = Resolved (Invalid (reason_unclaimed c eras threshold))
  <-> exists era, era ∈ eras /\ era <= threshold.
Proof.
  intros Hreach Hskip Heras -> ->.
  rewrite checkSingleCandidate_refines, checks_split, (first_failure_app_pass _ _ Hreach).
  cbn [fst]. rewrite !first_failure_cons.
  unfold check_unclaimed at 1. rewrite Hskip, Heras. fold (unclaimed_threshold self env).
  destruct (existsb _ eras) eqn:Hex; cbn [after fst snd].
  - split; [intros _|done].
    apply existsb_exists in Hex as (era & Hin & Hle).
    exists era. split; [by apply list_elem_of_In | by apply Z.leb_le].
  - split.
    + intros H. exfalso.
      destruct (check_cross_network ext env c) as [[|reason|e] calls] eqn:Hk; simpl in H.
      * discriminate H.
      * injection H as H. revert H.
        apply (cross_network_reason_not_unclaimed ext env c). by rewrite Hk.
      * discriminate H.
    + intros (era & Hin & Hle). exfalso.
      assert (existsb (fun era => era <=? unclaimed_threshold self env) eras = true) as Ht.
      { apply existsb_exists. exists era. split; [by apply list_elem_of_In | by apply Z.leb_le]. }
      congruence.
Qed.

(** The scenario of the specification: unclaimedEras = [90], current era
    100, unclaimedEraThreshold 4; the threshold is 95 and the verdict is
    Invalid citing the unclaimed eras. *)
Lemma unclaimed_check_iff_witness :
  100 - unclaimedEraThreshold Scenario.otv - 1 = 95
  /\ (checkSingleCandidate Scenario.ext Scenario.otv Scenario.env
        Scenario.alice90 Scenario.table).1
     = Resolved (Invalid "alice has unclaimed eras: 90 prior to era: 96").
Proof.
  split; [reflexivity|].
  apply (unclaimed_check_iff Scenario.ext Scenario.otv Scenario.env
           Scenario.alice90 Scenario.table [90] 100 95).
  - vm_compute. repeat (constructor; [reflexivity|]). constructor.
  - reflexivity.
  - reflexivity.
  - reflexivity.
  - reflexivity.
  - exists 90. split; [apply list_elem_of_here | lia].
Defined.

(** A commission read that returns an error makes the verdict Invalid with
    the error text in the reason, and the value read is compared with
    nothing. *)
Lemma commission_read_error_invalid ext self env c tbl value e :
  Forall passes (take 7 (checks ext self env c tbl)) ->
  getCommission (chaindata env) (stash c) = (value, Some e) ->
  (checkSingleCandidate ext self env c tbl).1
  = Resolved (Invalid (name c +:+ " " +:+ err_text e))
  /\ mentions (err_text e) (name c +:+ " " +:+ err_text e).
Proof.
  intros Hreach Hread.
  assert ((checkSingleCandidate ext self env c tbl).1
          = Resolved (Invalid (name c +:+ " " +:+ err_text e))) as Hv.
  { rewrite checkSingleCandidate_refines.
    change (checks ext self env c tbl)
      with (take 7 (checks ext self env c tbl)
            ++ [check_commission self env c; check_self_stake self env c;
                check_unclaimed self env c; check_cross_network ext env c]).
    rewrite (first_failure_app_pass _ _ Hreach), first_failure_cons.
    unfold check_commission. by rewrite Hread. }
  split; [done|].
  exists (name c +:+ " "), "". by rewrite string_append_nil_r, string_append_assoc.
Qed.

(** The same for the bonded-amount read. *)
Lemma bonded_read_error_invalid ext self env c tbl value e :
  Forall passes (take 8 (checks ext self env c tbl)) ->
  skipSelfStake c = false ->
  getBondedAmount (chaindata env) (stash c) = (value, Some e) ->
  (checkSingleCandidate ext self env c tbl).1
  = Resolved (Invalid (name c +:+ " " +:+ err_text e)).
Proof.
  intros Hreach Hskip Hread.
  rewrite checkSingleCandidate_refines.
  change (checks ext self env c tbl)
    with (take 8 (checks ext self env c tbl)
          ++ [check_self_stake self env c;
              check_unclaimed self env c; check_cross_network ext env c]).
  rewrite (first_failure_app_pass _ _ Hreach), first_failure_cons.
  unfold check_self_stake. by rewrite Hskip, Hread.
Qed.

(** The error of the era read takes no part in the verdict: the unclaimed
    check reads the value of the pair only. *)
Lemma era_read_error_not_consulted self env env' c :
  (getActiveEraIndex (chaindata env)).1 = (getActiveEraIndex (chaindata env')).1 ->
  (check_unclaimed self env c).1 = (check_unclaimed self env' c).1.
Proof. unfold check_unclaimed, unclaimed_threshold. by intros ->. Qed.

(** C2, at the era read.  The era read returns no value and the error
    "Active era not found"; the candidate has the unclaimed era 90 and
    passes every other check.  The verdict is Valid: the error is not
    surfaced, and the null value is used as the number 0 in the threshold
    (-5), with which 90 is compared. *)
Theorem era_read_error_ignored :
  getActiveEraIndex (chaindata Scenario.envEraError) = (None, Some Scenario.eraError)
  /\ checkSingleCandidate Scenario.ext Scenario.otv Scenario.envEraError
       Scenario.alice90 Scenario.table
     = (Resolved Valid,
        [chaindata_getValidators; db_getLatestRelease; Date_getTime;
         chaindata_hasIdentity "A1"; chaindata_getIdentity "A1";
         chaindata_destinationIsStaked "A1"; chaindata_getCommission "A1";
         chaindata_getBondedAmount "A1"; chaindata_getActiveEraIndex])
  /\ unclaimed_threshold Scenario.otv Scenario.envEraError = -5.
Proof. by vm_compute. Qed.

(** C8. For every candidate with a secondary-network stash, if the
    cross-network lookup throws (axios.get throws, or the body is null and
    reading its property throws) the cross-network check does not fail: the
    verdict is that of the ten checks before it, in particular Valid when
    they all pass. *)
Theorem lookup_failure_is_advisory
    (ext : Externals) (self : OTV) (env : Env) (c : CandidateData)
    (identityHashTable : gmap string Z) (k : string) :
  kusamaStash c = Some k -> k <> "" ->
  axios_get env (kusama_url ext k) = HttpError
  \/ axios_get env (kusama_url ext k) = HttpResponse DataNullish ->
  passes (check_cross_network ext env c)
  /\ (checkSingleCandidate ext self env c identityHashTable).1
     = (first_failure (take 10 (checks ext self env c identityHashTable))).1
  /\ (Forall passes (take 10 (checks ext self env c identityHashTable)) ->
      (checkSingleCandidate ext self env c identityHashTable).1 = Resolved Valid).
Proof.
  intros Hk Hne Hthrow.
  assert (passes (check_cross_network ext env c)) as Hpass.
  { unfold passes, check_cross_network. rewrite Hk.
    destruct k as [|a k]; [done|]. by destruct Hthrow as [-> | ->]. }
  assert ((checkSingleCandidate ext self env c identityHashTable).1
          = (first_failure (take 10 (checks ext self env c identityHashTable))).1) as Heq.
  { rewrite checkSingleCandidate_refines, checks_split_last at 1.
    by apply first_failure_snoc_pass. }
  split; [done|]. split; [done|].
  intros Hten. rewrite Heq. by rewrite (first_failure_all_pass _ Hten).
Qed.

Lemma lookup_failure_is_advisory_witness :
  (checkSingleCandidate Scenario.ext Scenario.otv Scenario.env
     Scenario.aliceK Scenario.table).1 = Resolved Valid.
Proof.
  apply (lookup_failure_is_advisory Scenario.ext Scenario.otv Scenario.env
           Scenario.aliceK Scenario.table "K1").
  - reflexivity.
  - discriminate.
  - left. reflexivity.
  - vm_compute. repeat (constructor; [reflexivity|]). constructor.
Defined.

(** C10, as stated, at a [null] rank.  The response carries no
    invalidityReasons and the rank [null], which is no number; the candidate
    passes the ten checks before the cross-network one; [Number(null)] is 0,
    [0 < 25], and the verdict is Invalid for the rank. *)
Lemma null_rank_fails_candidate :
  kusamaStash Scenario.aliceK = Some "K1"
  /\ axios_get Scenario.envNullRank (kusama_url Scenario.ext "K1")
     = HttpResponse (DataObject JUndefined JNull)
  /\ (forall q, JNull <> JNumber q)
  /\ Forall passes (take 10 (checks Scenario.ext Scenario.otv Scenario.envNullRank
                               Scenario.aliceK Scenario.table))
  /\ (checkSingleCandidate Scenario.ext Scenario.otv Scenario.envNullRank
        Scenario.aliceK Scenario.table).1
     = Resolved (Invalid "alice has a Kusama stash with lower than 25 rank in the Kusama OTV programme: null.").
Proof.
  split; [reflexivity|]. split; [reflexivity|]. split; [discriminate|].
  split; [|by vm_compute].
  vm_compute. repeat (constructor; [reflexivity|]). constructor.
Qed.

(** The ranks that [Number] converts to 0 without being one: [null],
    [false], the empty string and the empty array. *)
Lemma zero_like_rank ext rank_ :
  rank_ = JNull \/ rank_ = JBool false \/ rank_ = JString "" \/ rank_ = JArray [] ->
  ToNumber ext rank_ = Finite 0.
Proof. by intros [-> | [-> | [-> | ->]]]. Qed.

(** C10, amended. For every candidate with a secondary-network stash whose
    lookup succeeds with no (or an empty) invalidityReasons field: a rank
    that is missing ([undefined]), an object, or any other value that
    [Number] converts to NaN does not fail the candidate, and the verdict is
    that of the ten checks before the cross-network one; a rank that is
    [null], [false], the empty string or the empty array converts to 0 and
    fails the candidate like any number below 25: the cross-network check
    fails with the rank reason, the verdict is never Valid, and it is
    Invalid with the rank reason when the ten checks before pass. *)
Theorem nan_rank_does_not_fail
    (ext : Externals) (self : OTV) (env : Env) (c : CandidateData)
    (identityHashTable : gmap string Z) (k : string) (invalidityReasons rank_ : JsValue) :
  kusamaStash c = Some k -> k <> "" ->
  axios_get env (kusama_url ext k) = HttpResponse (DataObject invalidityReasons rank_) ->
  invalidityReasons = JUndefined \/ invalidityReasons = JString "" ->
  let verdict := (checkSingleCandidate ext self env c identityHashTable).1 in
  let before := take 10 (checks ext self env c identityHashTable) in
  (rank_ = JUndefined \/ rank_ = JObject \/ ToNumber ext rank_ = NaN ->
   passes (check_cross_network ext env c)
   /\ verdict = (first_failure before).1)
  /\ (rank_ = JNull \/ rank_ = JBool false \/ rank_ = JString "" \/ rank_ = JArray []
      \/ (exists q, rank_ = JNumber q /\ (q < 25)%Q) ->
      (check_cross_network ext env c).1 = Fail (reason_kusama_rank ext c rank_)
      /\ verdict <> Resolved Valid
      /\ (Forall passes before ->
          verdict = Resolved (Invalid (name c
            +:+ " has a Kusama stash with lower than 25 rank in the Kusama OTV programme: "
            +:+ ToString ext rank_ +:+ ".")))).
Proof.
  intros Hk Hne Hres Hir verdict before. subst verdict before.
  assert (truthy invalidityReasons = false) as Hfalsy by (by destruct Hir as [-> | ->]).
  split.
  - intros Hrank.
    assert (ToNumber ext rank_ = NaN) as Hnan by (by destruct Hrank as [-> | [-> | ?]]).
    assert (passes (check_cross_network ext env c)) as Hpass.
    { unfold passes, check_cross_network. rewrite Hk.
      destruct k as [|a k]; [done|]. by rewrite Hres, Hnan, Hfalsy. }
    split; [done|].
    rewrite checkSingleCandidate_refines, checks_split_last at 1.
    by apply first_failure_snoc_pass.
  - intros Hrank.
    assert (Number_lt (ToNumber ext rank_) 25 = true) as Hlt.
    { destruct Hrank as [H | [H | [H | [H | (q & -> & Hq)]]]];
        try (rewrite (zero_like_rank ext rank_) by tauto; reflexivity).
      simpl. by apply Qltb_lt. }
    assert ((check_cross_network ext env c).1 = Fail (reason_kusama_rank ext c rank_))
      as Hfail.
    { unfold check_cross_network. rewrite Hk.
      destruct k as [|a k]; [done|]. by rewrite Hres, Hfalsy, Hlt. }
    split; [done|].
    rewrite checkSingleCandidate_refines, checks_split_last.
    split.
    + intros Hvalid.
      apply first_failure_valid in Hvalid as Hv. apply Forall_app in Hv as [_ Hv].
      rewrite Forall_singleton in Hv. unfold passes in Hv. congruence.
    + intros Hten. rewrite (first_failure_app_pass _ _ Hten), first_failure_cons.
      destruct (check_cross_network ext env c) as [o calls]. simpl in Hfail. by subst o.
Qed.

Lemma nan_rank_does_not_fail_witness :
  (checkSingleCandidate Scenario.ext Scenario.otv Scenario.envNoRank
     Scenario.aliceK Scenario.table).1 = Resolved Valid
  /\ (checkSingleCandidate Scenario.ext Scenario.otv Scenario.envNullRank
        Scenario.aliceK Scenario.table).1 <> Resolved Valid.
Proof.
  split.
  - etransitivity.
    + apply (proj1 (nan_rank_does_not_fail Scenario.ext Scenario.otv Scenario.envNoRank
                      Scenario.aliceK Scenario.table "K1" JUndefined JUndefined
                      eq_refl ltac:(discriminate) eq_refl (or_introl eq_refl))).
      left. reflexivity.
    + by vm_compute.
  - apply (proj2 (nan_rank_does_not_fail Scenario.ext Scenario.otv Scenario.envNullRank
                    Scenario.aliceK Scenario.table "K1" JUndefined JNull
                    eq_refl ltac:(discriminate) eq_refl (or_introl eq_refl))).
    left. reflexivity.
Defined.

(** The calls of the checker are reads, or belong to the lookup. *)
Lemma checks_only_read ext self env c tbl :
  Forall (fun o : CheckOutcome =>
            Forall (fun call => read_call call || lookup_call call = true) o.2)
    (checks ext self env c tbl).
Proof.
  unfold checks, check_online, check_validate_intention, check_client_version,
    check_connection_age, check_identity, check_uptime, check_reward_destination,
    check_commission, check_self_stake, check_unclaimed, check_cross_network.
  repeat (constructor; [repeat case_match; repeat constructor|]). constructor.
Qed.

Lemma checks_no_lookup ext self env c tbl :
  truthy_string (kusamaStash c) = false ->
  Forall (fun o : CheckOutcome => Forall (fun call => read_call call = true) o.2)
    (checks ext self env c tbl).
Proof.
  intros Hk.
  unfold checks, check_online, check_validate_intention, check_client_version,
    check_connection_age, check_identity, check_uptime, check_reward_destination,
    check_commission, check_self_stake, check_unclaimed, check_cross_network.
  destruct (kusamaStash c) as [[|a k]|]; [|done|];
    (repeat (constructor; [repeat case_match; repeat constructor|]); constructor).
Qed.

Lemma checkSingleCandidate_only_reads ext self env c tbl :
  Forall (fun call => read_call call || lookup_call call = true)
    (checkSingleCandidate ext self env c tbl).2.
Proof.
  rewrite checkSingleCandidate_refines. apply first_failure_calls, checks_only_read.
Qed.

(** ** The identity hash index *)

Lemma sum_counts_insert (m : gmap string Z) h n :
  sum_counts (<[h := n]> m) = n + sum_counts m - default 0 (m !! h).
Proof.
  unfold sum_counts. destruct (m !! h) as [v|] eqn:Hh; simpl.
  - rewrite <- (insert_delete_eq m h n).
    rewrite (map_fold_delete_L _ 0 h v m); [|intros; lia|done].
    rewrite map_fold_insert_L; [lia|intros; lia|apply lookup_delete_eq].
  - rewrite map_fold_insert_L; [lia|intros; lia|done].
Qed.

Lemma count_identity_counts ext env m c n :
  counts n m -> counts (n + 1) (count_identity ext env m c).
Proof.
  intros [Hpos Hsum]. unfold count_identity.
  set (h := blake2AsHex ext _). rewrite orZero_default. split.
  - intros h' v. rewrite lookup_insert. case_decide as Hh.
    + intros [= <-]. destruct (m !! h) as [w|] eqn:Hw; simpl; [|lia].
      specialize (Hpos h w Hw). lia.
    + apply Hpos.
  - rewrite sum_counts_insert. lia.
Qed.

Lemma populate_loop {R} ext env (l : list CandidateData) (m : gmap string Z) :
  for_of (R := R) l (fun candidate (map : gmap string Z) =>
    identityString ← await (chaindata_getIdentity (stash candidate))
                           (getIdentity (chaindata env) (stash candidate));
    let identityHash := blake2AsHex ext identityString in
    let prevValue := orZero (map !! identityHash) in
    mret (<[identityHash := prevValue + 1]> map)) m
  = (Continue (foldl (count_identity ext env) m l),
     map (fun c => chaindata_getIdentity (stash c)) l).
Proof.
  revert m. induction l as [|c l IH]; intros m; [done|].
  simpl. unfold mbind, Eff_bind, eff_bind in *. simpl. by rewrite IH.
Qed.

Lemma populateIdentityHashTable_fold ext env candidates :
  (populateIdentityHashTable ext env candidates).1
  = foldl (count_identity ext env) ∅ candidates.
Proof.
  unfold populateIdentityHashTable. by rewrite populate_loop.
Qed.

Lemma foldl_count_identity ext env l m n :
  counts n m -> counts (n + Z.of_nat (length l)) (foldl (count_identity ext env) m l).
Proof.
  revert m n. induction l as [|c l IH]; intros m n Hm; cbn [foldl length].
  - by rewrite Z.add_0_r.
  - replace (n + Z.of_nat (S (length l))) with ((n + 1) + Z.of_nat (length l)) by lia.
    apply IH. by apply count_identity_counts.
Qed.

(** C9. For every candidate list, every occurrence count of the map
    populateIdentityHashTable returns is an integer >= 1, and the counts add
    up to the number of candidates in the list. *)
Theorem populateIdentityHashTable_counts
    (ext : Externals) (env : Env) (candidates : list CandidateData) :
  let table := (populateIdentityHashTable ext env candidates).1 in
  (forall digest count, table !! digest = Some count -> 1 <= count)
  /\ sum_counts table = Z.of_nat (length candidates).
Proof.
  intros table. subst table. rewrite populateIdentityHashTable_fold.
  apply (foldl_count_identity ext env candidates ∅ 0).
  split; [by intros h v; rewrite lookup_empty|done].
Qed.

(** ** Binary64 rounding of the jitter *)

Lemma digits2_pos_spec p :
  2 ^ (Z.pos (digits2_pos p) - 1) <= Z.pos p < 2 ^ Z.pos (digits2_pos p).
Proof.
  induction p as [p IH|p IH|]; cbn [digits2_pos].
  - rewrite Pos2Z.inj_succ, Z.pow_succ_r by lia.
    replace (Z.succ (Z.pos (digits2_pos p)) - 1) with (Z.succ (Z.pos (digits2_pos p) - 1)) by lia.
    rewrite Z.pow_succ_r by lia. lia.
  - rewrite Pos2Z.inj_succ, Z.pow_succ_r by lia.
    replace (Z.succ (Z.pos (digits2_pos p)) - 1) with (Z.succ (Z.pos (digits2_pos p) - 1)) by lia.
    rewrite Z.pow_succ_r by lia. lia.
  - simpl. lia.
Qed.

Lemma digits2_pos_unique p d :
  2 ^ (d - 1) <= Z.pos p < 2 ^ d -> Z.pos (digits2_pos p) = d.
Proof.
  intros [Hlo Hhi]. pose proof (digits2_pos_spec p) as [Hlo' Hhi'].
  assert (1 <= d) as Hd.
  { destruct (Z.le_gt_cases 1 d) as [?|Hlt]; [done|].
    assert (2 ^ d <= 2 ^ 0) by (destruct (Z.le_gt_cases 0 d); [apply Z.pow_le_mono_r; lia | rewrite Z.pow_neg_r by lia; simpl; lia]).
    simpl in *. lia. }
  assert (d - 1 < Z.pos (digits2_pos p)) as H1.
  { apply (Z.pow_lt_mono_r_iff 2); lia. }
  assert (Z.pos (digits2_pos p) - 1 < d) as H2.
  { apply (Z.pow_lt_mono_r_iff 2); lia. }
  lia.
Qed.

(** Shifting right. *)
Lemma iter_pos_nat {A} (f : A -> A) p x :
  SpecFloat.iter_pos f p x = Nat.iter (Pos.to_nat p) f x.
Proof.
  revert x. induction p as [p IH|p IH|]; intros x; cbn [SpecFloat.iter_pos].
  - rewrite !IH, Pos2Nat.inj_xI. rewrite <- Nat.iter_add.
    replace (S (2 * Pos.to_nat p)) with (Pos.to_nat p + Pos.to_nat p + 1)%nat by lia.
    rewrite (Nat.iter_add _ 1). done.
  - rewrite !IH, Pos2Nat.inj_xO. rewrite <- Nat.iter_add.
    by replace (2 * Pos.to_nat p)%nat with (Pos.to_nat p + Pos.to_nat p)%nat by lia.
  - done.
Qed.

Lemma shr_1_shifted N n rec :
  0 <= n -> shifted N n rec -> shifted N (n + 1) (shr_1 rec).
Proof.
  intros Hn (Hpos & Hm & Hz).
  assert (shr_m (shr_1 rec) = shr_m rec / 2) as Hdiv.
  { destruct rec as [[|[p|p|]|p] r s]; cbn [shr_1 shr_m] in *; try lia.
    - done.
    - rewrite Pos2Z.inj_xI. apply Z.div_unique with 1; lia.
    - rewrite Pos2Z.inj_xO. apply Z.div_unique with 0; lia.
    - done. }
  assert (2 ^ (n + 1) = 2 ^ n * 2) as Hpow by (rewrite Z.pow_add_r by lia; done).
  assert (0 < 2 ^ n) as Hp by (apply Z.pow_pos_nonneg; lia).
  split; [rewrite Hdiv; apply Z.div_pos; lia|]. split.
  - rewrite Hdiv, Hm, Hpow. rewrite Z.div_div by lia. done.
  - intros Hmod. rewrite Hpow in Hmod.
    assert (N mod 2 ^ n = 0) as Hmod0.
    { apply Z.mod_divide in Hmod; [|lia]. apply Z.mod_divide; [lia|].
      destruct Hmod as [k Hk]. exists (k * 2). lia. }
    destruct (Hz Hmod0) as [Hr Hs].
    assert (shr_m rec mod 2 = 0) as Heven.
    { rewrite Hm. apply Z.mod_divide in Hmod; [|lia]. destruct Hmod as [k Hk].
      rewrite Hk. replace (k * (2 ^ n * 2)) with ((k * 2) * 2 ^ n) by lia.
      rewrite Z.div_mul by lia. apply Z.mod_mul. lia. }
    destruct rec as [[|[p|p|]|p] r s]; cbn [shr_1 shr_m shr_r shr_s] in *; subst r s;
      try done; try lia.
    + rewrite Pos2Z.inj_xI in Heven. exfalso.
      replace (2 * Z.pos p + 1) with (1 + Z.pos p * 2) in Heven by lia.
      rewrite Z.mod_add in Heven by lia. done.
Qed.

Lemma iter_shr_1_shifted N (n : nat) :
  0 <= N ->
  shifted N (Z.of_nat n) (Nat.iter n shr_1 {| shr_m := N; shr_r := false; shr_s := false |}).
Proof.
  intros HN. induction n as [|n IH].
  - simpl. unfold shifted. cbn [shr_m shr_r shr_s]. rewrite Z.div_1_r. done.
  - rewrite Nat2Z.inj_succ. cbn [Nat.iter].
    replace (Z.succ (Z.of_nat n)) with (Z.of_nat n + 1) by lia.
    apply shr_1_shifted; [lia|done].
Qed.

(** Rounding [N / 2^n] to nearest-even stays between any two integers that
    bracket the quotient. *)
Lemma rounded_shift_bounds N p :
  0 <= N ->
  let rec := SpecFloat.iter_pos shr_1 p {| shr_m := N; shr_r := false; shr_s := false |} in
  let q := round_nearest_even (shr_m rec) (loc_of_shr_record rec) in
  (forall L, L * 2 ^ Z.pos p <= N -> L <= q)
  /\ (forall H, N <= H * 2 ^ Z.pos p -> q <= H).
Proof.
  intros HN rec q. subst q rec. rewrite iter_pos_nat.
  pose proof (iter_shr_1_shifted N (Pos.to_nat p) HN) as (Hpos & Hm & Hz).
  rewrite positive_nat_Z in Hm, Hz.
  set (rec := Nat.iter _ _ _) in *.
  assert (0 < 2 ^ Z.pos p) as Hp by (apply Z.pow_pos_nonneg; lia).
  assert (shr_m rec <= round_nearest_even (shr_m rec) (loc_of_shr_record rec)
          <= shr_m rec + 1) as Hq.
  { destruct rec as [m [|] [|]]; cbn [loc_of_shr_record round_nearest_even shr_m];
      try destruct (Z.even m); lia. }
  pose proof (Z.div_mod N (2 ^ Z.pos p) ltac:(lia)) as Hdm.
  pose proof (Z.mod_pos_bound N (2 ^ Z.pos p) Hp) as Hmb.
  split.
  - intros L HL. assert (L <= shr_m rec); [|lia].
    rewrite Hm. apply Z.div_le_lower_bound; lia.
  - intros H HH.
    assert (shr_m rec <= H) as Hle.
    { rewrite Hm. apply Z.div_le_upper_bound; [lia|]. lia. }
    destruct (Z.eq_dec (shr_m rec) H) as [Heq|]; [|lia].
    assert (N mod 2 ^ Z.pos p = 0) as Hmod by nia.
    destruct (Hz Hmod) as [Hr Hs].
    destruct rec as [m r s]. cbn [shr_m shr_r shr_s] in *. subst r s.
    cbn [loc_of_shr_record round_nearest_even]. lia.
Qed.

Lemma Pos_iter_xO p d : Z.pos (Pos.iter xO p d) = Z.pos p * 2 ^ Z.pos d.
Proof.
  induction d as [|d IH] using Pos.peano_ind.
  - simpl. lia.
  - rewrite Pos.iter_succ, Pos2Z.inj_xO, IH, Pos2Z.inj_succ, Z.pow_succ_r by lia. lia.
Qed.

(** A valid mantissa has at most 53 bits. *)
Lemma bounded_lt m e : bounded prec emax m e = true -> Z.pos m < 2 ^ 53 /\ -1074 <= e.
Proof.
  unfold bounded, canonical_mantissa, fexp, SpecFloat.emin.
  intros H. apply andb_prop in H as [H _]. apply Z.eqb_eq in H.
  pose proof (digits2_pos_spec m) as [_ Hd].
  change (3 - emax - prec) with (-1074) in H. change prec with 53 in H.
  assert (Z.pos (digits2_pos m) <= 53) by lia.
  split; [|lia].
  eapply Z.lt_le_trans; [exact Hd|]. apply Z.pow_le_mono_r; lia.
Qed.

(** One plus a float in [0, 0.05] lies between 1 and 1.05. *)
Lemma add_one_bounds mx ex :
  bounded prec emax mx ex = true ->
  SFleb (S754_finite false mx ex) (S754_finite false m_0_05 (-57)) = true ->
  exists q,
    SF64add (S754_finite false m_one (-52)) (S754_finite false mx ex)
    = S754_finite false q (-52)
    /\ Z.pos m_one <= Z.pos q <= Z.pos m_1_05.
Proof.
  intros Hb Hle. apply bounded_lt in Hb as [Hmx Hex]. 
  assert (exists d, ex = -52 - Z.pos d /\ 5 <= Z.pos d
                    /\ (Z.pos d = 5 -> Z.pos mx <= Z.pos m_0_05)) as (d & -> & Hd & Hd5).
  { unfold SFleb, SFcompare in Hle. revert Hle.
    destruct (Z.compare_spec ex (-57)) as [-> | Hlt | Hgt]; intros Hle. 
    - exists 5%positive. split; [reflexivity|]. split; [lia|]. intros _.
      destruct (Pos.compare_cont Eq mx m_0_05) eqn:Hc.
      + apply (Pos.compare_eq mx m_0_05) in Hc. rewrite Hc. apply Z.le_refl.
      + apply Pos2Z.pos_le_pos, Pos.lt_le_incl. exact Hc.
      + discriminate Hle.
    - exists (Z.to_pos (-52 - ex)). rewrite Z2Pos.id by lia. split; [lia|]. split; lia.
    - discriminate Hle. }
  unfold SF64add, SFadd.
  replace (Z.min (-52) (-52 - Z.pos d)) with (-52 - Z.pos d) by lia.
  unfold shl_align.
  replace (-52 - Z.pos d - -52) with (Z.neg d) by lia.
  rewrite Z.sub_diag. cbn [fst cond_Zopp binary_normalize].
  assert (Z.pos (Pos.iter xO m_one d) + Z.pos mx = Z.pos (Pos.iter xO m_one d + mx)) as -> by done.
  cbn [binary_normalize].
  set (M := (Pos.iter xO m_one d + mx)%positive).
  assert (Z.pos M = Z.pos m_one * 2 ^ Z.pos d + Z.pos mx) as HM.
  { unfold M. by rewrite Pos2Z.inj_add, Pos_iter_xO. }
  assert (0 < 2 ^ Z.pos d) as Hp by (apply Z.pow_pos_nonneg; lia).
  assert (32 <= 2 ^ Z.pos d) as Hp5 by (apply (Z.pow_le_mono_r 2 5); lia).
  assert (Z.pos d <> 5 -> 64 <= 2 ^ Z.pos d) as Hp6
    by (intros; apply (Z.pow_le_mono_r 2 6); lia).
  assert (2 ^ 53 = 9007199254740992) as E53 by (vm_compute; reflexivity).
  assert (2 ^ 52 = 4503599627370496) as E52 by (vm_compute; reflexivity).
  rewrite E53 in Hmx.
  assert (Z.pos (digits2_pos M) = 53 + Z.pos d) as HdM.
  { apply digits2_pos_unique. rewrite HM.
    replace (53 + Z.pos d - 1) with (52 + Z.pos d) by lia.
    rewrite !Z.pow_add_r by lia. rewrite E52, E53.
    unfold m_one. nia. }
  assert (fexp prec emax 1 = -52) as Efexp1 by (vm_compute; reflexivity).
  unfold binary_round. rewrite HdM.
  replace (53 + Z.pos d + (-52 - Z.pos d)) with 1 by lia.
  rewrite Efexp1.
  unfold shl_align. replace (-52 - (-52 - Z.pos d)) with (Z.pos d) by lia.
 
  unfold binary_round_aux. unfold shr_fexp at 1. unfold Zdigits2. rewrite HdM.
  replace (53 + Z.pos d + (-52 - Z.pos d)) with 1 by lia.
  rewrite Efexp1.
  replace (-52 - (-52 - Z.pos d)) with (Z.pos d) by lia.
  cbn [shr shr_record_of_loc].
  replace (-52 - Z.pos d + Z.pos d) with (-52) by lia.
 
  destruct (rounded_shift_bounds (Z.pos M) d ltac:(lia)) as [Hlo Hhi].
  set (rec := SpecFloat.iter_pos shr_1 d _) in *.
  set (q := round_nearest_even (shr_m rec) (loc_of_shr_record rec)) in *.
  assert (Z.pos m_one <= q) as Hq1 by (apply Hlo; lia).
  assert (q <= Z.pos m_1_05) as Hq2.
  { apply Hhi. rewrite HM. unfold m_one, m_1_05.
    destruct (Z.eq_dec (Z.pos d) 5) as [H5|H5].
    - specialize (Hd5 H5). unfold m_0_05 in Hd5. lia.
    - specialize (Hp6 H5). lia. }
 
  clearbody q. destruct q as [|qp|qp]; try (unfold m_one in Hq1; lia).
  exists qp. split; [|lia].
  assert (Z.pos (digits2_pos qp) = 53) as Hdq.
  { apply digits2_pos_unique. replace (53 - 1) with 52 by lia. rewrite E52, E53.
    unfold m_one, m_1_05 in *. lia. }
 
  unfold shr_fexp, Zdigits2. rewrite Hdq.
  replace (fexp prec emax (53 + -52) - -52) with 0 by (vm_compute; reflexivity).
  cbn [shr shr_record_of_loc shr_m]. reflexivity.
Qed.

(** A valid mantissa and its exponent. *)
Lemma bounded_canonical m e :
  bounded prec emax m e = true ->
  Z.max (Z.pos (digits2_pos m) + e - 53) (-1074) = e.
Proof.
  unfold bounded, canonical_mantissa, fexp, SpecFloat.emin.
  intros H. apply andb_prop in H as [H _]. apply Z.eqb_eq in H. exact H.
Qed.

Lemma fexp_max x : fexp prec emax x = Z.max (x - 53) (-1074).
Proof. reflexivity. Qed.

(** The product of a float in [0, 1) with the double nearest 0.05 is that
    double at most. *)
Lemma mul_0_05_bounds m e :
  bounded prec emax m e = true ->
  SFltb (S754_finite false m e) (S754_finite false m_one (-52)) = true ->
  at_most_0_05 (SF64mul (S754_finite false m e) (S754_finite false m_0_05 (-57))).
Proof.
  intros Hb Hlt. pose proof (bounded_canonical m e Hb) as Hcan.
  pose proof (digits2_pos_spec m) as [Hdlo Hdhi].
  set (dm := Z.pos (digits2_pos m)) in *.
  assert (1 <= dm) as Hdm1 by (unfold dm; lia).
  assert (2 ^ 53 = 9007199254740992) as E53 by (vm_compute; reflexivity).
  assert (2 ^ 52 = 4503599627370496) as E52 by (vm_compute; reflexivity).
  assert (e <= -53 /\ dm <= 53) as [He Hdm].
  { unfold SFltb, SFcompare in Hlt. revert Hlt.
    destruct (Z.compare_spec e (-52)) as [-> | H | H]; intros Hlt; [|lia|done].
    exfalso. destruct (Pos.compare_cont Eq m m_one) eqn:Hc; try done.
    assert (Z.pos m < Z.pos m_one) as Hm by (apply Pos2Z.pos_lt_pos; exact Hc).
    assert (dm = 53) as Hd53 by lia.
    rewrite Hd53 in Hdlo. replace (53 - 1) with 52 in Hdlo by lia.
    rewrite E52 in Hdlo. unfold m_one in Hm. lia. }
  assert (Z.pos m < 2 ^ 53) as Hm53.
  { eapply Z.lt_le_trans; [exact Hdhi|]. apply Z.pow_le_mono_r; lia. }
  assert (2 ^ 53 <= 2 ^ (- e)) as Hpe by (apply Z.pow_le_mono_r; lia).
  (* the product and its number of digits *)
  unfold SF64mul, SFmul. cbn [xorb].
  set (P := (m * m_0_05)%positive).
  assert (Z.pos P = Z.pos m * Z.pos m_0_05) as HP by (unfold P; apply Pos2Z.inj_mul).
  pose proof (digits2_pos_spec P) as [HPlo HPhi].
  set (d := Z.pos (digits2_pos P)) in *.
  assert (dm + 52 <= d <= dm + 53) as Hd.
  { split.
    - assert (dm - 1 + 52 < d); [|lia].
      apply (Z.pow_lt_mono_r_iff 2); [lia|unfold d; lia|].
      eapply Z.le_lt_trans; [|exact HPhi]. rewrite HP, Z.pow_add_r, E52 by lia.
      unfold m_0_05. nia.
    - assert (d - 1 < dm + 53); [|lia].
      apply (Z.pow_lt_mono_r_iff 2); [lia|lia|].
      eapply Z.le_lt_trans; [exact HPlo|]. rewrite HP, Z.pow_add_r, E53 by lia.
      unfold m_0_05. nia. }
  (* the first shift *)
  unfold binary_round_aux. unfold shr_fexp at 1. unfold Zdigits2. fold d.
  rewrite fexp_max.
  set (e1 := Z.max (d + (e + -57) - 53) (-1074)).
  assert (-1074 <= e1 <= -57) as He1 by (unfold e1; lia).
  assert (0 < e1 - (e + -57)) as Hn1.
  { unfold e1. destruct (Z.max_spec (d + (e + -57) - 53) (-1074)) as [[? ->] | [? ->]]; [lia|].
    assert (d <> 53); [|lia]. intros Hd53.
    assert (dm = 1) as Hdm' by lia. rewrite Hdm' in Hcan. lia. }
  destruct (e1 - (e + -57)) as [|p1|p1] eqn:Hp1; try lia.
  cbn [shr shr_record_of_loc].
  replace (e + -57 + Z.pos p1) with e1 by lia.
  destruct (rounded_shift_bounds (Z.pos P) p1 ltac:(lia)) as [Hlo Hhi].
  set (rec := SpecFloat.iter_pos shr_1 p1 _) in *.
  set (q := round_nearest_even (shr_m rec) (loc_of_shr_record rec)) in *.
  assert (0 <= q) as Hq0 by (apply Hlo; lia).
  assert (0 < 2 ^ Z.pos p1) as Hpp by (apply Z.pow_pos_nonneg; lia).
  assert (q <= 2 ^ 53) as Hq53.
  { apply Hhi. rewrite <- Z.pow_add_r by lia.
    apply Z.lt_le_incl. eapply Z.lt_le_trans; [exact HPhi|].
    apply Z.pow_le_mono_r; [lia|]. unfold e1 in Hp1. lia. }
  assert (e1 = -57 -> q <= Z.pos m_0_05) as Hq57.
  { intros He57. apply Hhi. rewrite HP.
    assert (Z.pos p1 = - e) as -> by lia.
    unfold m_0_05. nia. }
  clearbody q. clear Hlo Hhi rec.
  (* the second shift *)
  destruct q as [|qp|qp]; [|clear Hq0|lia].
  - left. unfold shr_fexp. cbn [Zdigits2]. rewrite fexp_max.
    destruct (Z.max (0 + e1 - 53) (-1074) - e1) eqn:Hn2; try lia; done.
  - right. pose proof (digits2_pos_spec qp) as [Hqlo Hqhi].
    remember (Z.pos (digits2_pos qp)) as dq eqn:Edq.
    assert (1 <= dq) as Hdq1 by lia.
    assert (dq <= 54) as Hdq.
    { assert (dq - 1 < 54); [|lia]. apply (Z.pow_lt_mono_r_iff 2); [lia|lia|].
      eapply Z.le_lt_trans; [exact Hqlo|].
      replace 54 with (Z.succ 53) by lia. rewrite Z.pow_succ_r by lia. lia. }
    unfold shr_fexp. cbn [Zdigits2]. rewrite <- Edq, fexp_max.
    destruct (Z.eq_dec dq 54) as [H54|H54].
    + assert (Z.pos qp = 2 ^ 53) as Hq.
      { rewrite H54 in Hqlo. replace (54 - 1) with 53 in Hqlo by lia. lia. }
      assert (e1 <> -57) as Hne.
      { intros He57. specialize (Hq57 He57). unfold m_0_05 in Hq57. lia. }
      rewrite H54. replace (Z.max (54 + e1 - 53) (-1074) - e1) with 1 by lia.
      rewrite E53 in Hq. injection Hq as ->.
      cbn [shr shr_record_of_loc SpecFloat.iter_pos shr_1 shr_m].
      exists 4503599627370496%positive, (e1 + 1).
      replace (e1 + 1 <=? emax - prec) with true
        by (symmetry; apply Z.leb_le; unfold emax, prec; lia).
      split; [done|]. unfold m_0_05. lia.
    + assert (forall n, n <= 0 ->
                shr (shr_record_of_loc (Z.pos qp) loc_Exact) e1 n
                = ({| shr_m := Z.pos qp; shr_r := false; shr_s := false |}, e1)) as Hshr
        by (intros [|n|n] ?; [done|lia|done]).
      rewrite Hshr by lia. cbn [shr_m].
      exists qp, e1.
      replace (e1 <=? emax - prec) with true
        by (symmetry; apply Z.leb_le; unfold emax, prec; lia).
      split; [done|]. lia.
Qed.

Lemma Prim2SF_zero : Prim2SF 0%float = S754_zero false.
Proof. by vm_compute. Qed.
Lemma Prim2SF_one : Prim2SF 1%float = S754_finite false m_one (-52).
Proof. by vm_compute. Qed.
Lemma Prim2SF_c0_05 : Prim2SF c0_05 = S754_finite false m_0_05 (-57).
Proof. by vm_compute. Qed.
Lemma Prim2SF_c1_05 : Prim2SF c1_05 = S754_finite false m_1_05 (-52).
Proof. by vm_compute. Qed.

Lemma SFleb_same_exponent a b e :
  Z.pos a <= Z.pos b -> SFleb (S754_finite false a e) (S754_finite false b e) = true.
Proof.
  intros H. unfold SFleb, SFcompare. rewrite Z.compare_refl.
  destruct (Pos.compare_cont Eq a b) eqn:Hc; [done|done|].
  exfalso. apply (Pos.compare_gt_iff a b) in Hc. lia.
Qed.

Lemma at_most_0_05_leb q e :
  at_most_0_05 (S754_finite false q e) ->
  SFleb (S754_finite false q e) (S754_finite false m_0_05 (-57)) = true.
Proof.
  intros [H | (q' & e' & [= -> ->] & H)]; [done|].
  destruct H as [H | [-> H]]; [|by apply SFleb_same_exponent].
  unfold SFleb, SFcompare. by rewrite (proj2 (Z.compare_lt_iff _ _) H).
Qed.

(** In binary64, for every draw [r] with [0 <= r < 1], the jitter
    [1 + r * 0.05] lies between 1 and the double 1.05, both included. *)
Lemma randomness64_bounds (r : float) :
  (0 <=? r)%float = true -> (r <? 1)%float = true ->
  (1 <=? randomness64 r)%float = true /\ (randomness64 r <=? c1_05)%float = true.
Proof.
  unfold randomness64. rewrite !leb_spec, ltb_spec, add_spec.
  pose proof (Prim2SF_valid (r * c0_05)) as Hvalid. revert Hvalid.
  rewrite mul_spec, Prim2SF_zero, Prim2SF_one, Prim2SF_c0_05, Prim2SF_c1_05.
  pose proof (Prim2SF_valid r) as Hr. revert Hr.
  destruct (Prim2SF r) as [s|s| |s m e]; intros Hr Hvalid H0 H1.
  - by destruct s.
  - by destruct s.
  - done.
  - destruct s; [done|].
    pose proof (mul_0_05_bounds m e Hr H1) as Hx. revert Hvalid Hx.
    destruct (SF64mul _ _) as [sx|sx| |sx q e'] eqn:Hmul; intros Hvalid Hx.
    + by destruct sx.
    + by destruct Hx as [? | (? & ? & ? & _)].
    + by destruct Hx as [? | (? & ? & ? & _)].
    + assert (sx = false) as -> by (by destruct Hx as [? | (? & ? & [= -> _ _] & _)]).
      destruct (add_one_bounds q e' Hvalid (at_most_0_05_leb q e' Hx)) as (q2 & -> & Hq2).
      split; apply SFleb_same_exponent; lia.
Qed.

(** C4, as stated, at the draw [1 - 2^-52], the largest double below 1: the
    jitter of the score record, computed in binary64 as the code does, is
    the double 1.05 itself, not below it. *)
Lemma randomness64_reaches_1_05 :
  (0 <=? below_one)%float = true
  /\ (below_one <? 1)%float = true
  /\ jitter64 (assembleScore64 5 40 5 5 35 0 15 13 2 below_one) = c1_05
  /\ (jitter64 (assembleScore64 5 40 5 5 35 0 15 13 2 below_one) <? c1_05)%float = false.
Proof. by vm_compute. Qed.

(** ** Sorting *)

Lemma adjacent_nil {A} (R : A -> A -> Prop) : adjacent R [].
Proof. by intros i a b. Qed.

Lemma adjacent_singleton {A} (R : A -> A -> Prop) x : adjacent R [x].
Proof. intros i a b _. by destruct i. Qed.

Lemma adjacent_cons {A} (R : A -> A -> Prop) x y l :
  adjacent R (x :: y :: l) <-> R x y /\ adjacent R (y :: l).
Proof.
  split.
  - intros H. split; [by apply (H 0%nat)|].
    intros i a b Ha Hb. by apply (H (S i)).
  - intros [Hxy H] [|i] a b Ha Hb.
    + by injection Ha as <-; injection Hb as <-.
    + by apply (H i).
Qed.

Lemma adjacent_tail {A} (R : A -> A -> Prop) x l : adjacent R (x :: l) -> adjacent R l.
Proof. intros H i a b Ha Hb. by apply (H (S i)). Qed.

Lemma insert_by_total_ge x l :
  adjacent total_ge l -> adjacent total_ge (insert_by byTotalDescending x l).
Proof.
  induction l as [|y l IH]; intros Hl; simpl; [apply adjacent_singleton|].
  destruct (Qltb 0 (byTotalDescending x y)) eqn:Hcmp.
  - apply Qltb_lt in Hcmp. unfold byTotalDescending in Hcmp.
    assert (total_ge y x) as Hyx.
    { unfold total_ge. lra. }
    specialize (IH (adjacent_tail _ _ _ Hl)).
    destruct l as [|z l]; simpl in *.
    + apply adjacent_cons. split; [done|apply adjacent_singleton].
    + destruct (Qltb 0 (byTotalDescending x z)).
      * apply adjacent_cons. split; [|done]. by apply adjacent_cons in Hl as [? _].
      * apply adjacent_cons. by split.
  - apply Qltb_ge in Hcmp. unfold byTotalDescending in Hcmp.
    apply adjacent_cons. split; [|done].
    unfold total_ge. lra.
Qed.

Lemma Array_sort_total_ge l : adjacent total_ge (Array_sort byTotalDescending l).
Proof.
  induction l as [|x l IH]; simpl; [apply adjacent_nil|].
  by apply insert_by_total_ge.
Qed.

Lemma insert_by_Permutation {A} (cmp : A -> A -> Q) x l : insert_by cmp x l ≡ₚ x :: l.
Proof.
  induction l as [|y l IH]; simpl; [done|].
  destruct (Qltb 0 (cmp x y)); [|done].
  rewrite IH. apply Permutation_swap.
Qed.

Lemma Array_sort_Permutation {A} (cmp : A -> A -> Q) (l : list A) : Array_sort cmp l ≡ₚ l.
Proof.
  induction l as [|x l IH]; simpl; [done|].
  by rewrite insert_by_Permutation, IH.
Qed.

(** ** The scoring and ranking pass *)

Lemma persistedScores_app l1 l2 :
  persistedScores (l1 ++ l2) = persistedScores l1 ++ persistedScores l2.
Proof. apply omap_app. Qed.

Lemma persistedScores_cons call l :
  persistedScores (call :: l)
  = match call with
    | db_setValidatorScore _ score => score :: persistedScores l
    | _ => persistedScores l
    end.
Proof. by destruct call. Qed.

Lemma persistedScores_checking calls :
  Forall (fun call => read_call call || lookup_call call = true) calls ->
  persistedScores calls = [].
Proof.
  induction 1 as [|call l Hcall _ IH]; [done|].
  rewrite persistedScores_cons, IH. by destruct call.
Qed.

(** The checker writes no score. *)
Lemma checkSingleCandidate_persists_nothing ext self env c tbl :
  persistedScores (checkSingleCandidate ext self env c tbl).2 = [].
Proof. apply persistedScores_checking, checkSingleCandidate_only_reads. Qed.

Lemma persistedMetadata_app l1 l2 :
  persistedMetadata (l1 ++ l2) = persistedMetadata l1 ++ persistedMetadata l2.
Proof. apply omap_app. Qed.

Lemma persistedMetadata_checking calls :
  Forall (fun call => read_call call || lookup_call call = true) calls ->
  persistedMetadata calls = [].
Proof.
  induction 1 as [|call l Hcall _ IH]; [done|].
  change (call :: l) with ([call] ++ l). rewrite persistedMetadata_app, IH.
  by destruct call.
Qed.

Lemma for_of_cons {R A S} (x : A) l (body : A -> S -> Eff R S) s :
  for_of (x :: l) body s = body x s ≫= for_of l body.
Proof. done. Qed.

Lemma bind_continue {R A B} (a : A) t (k : A -> Eff R B) :
  ((Continue a, t) : Eff R A) ≫= k = ((k a).1, t ++ (k a).2).
Proof. unfold mbind, Eff_bind, eff_bind. by destruct (k a). Qed.

Lemma bind_returned {R A B} (r : R) t (k : A -> Eff R B) :
  ((Returned r, t) : Eff R A) ≫= k = (Returned r, t).
Proof. done. Qed.

(** The checker accepts a candidate when its check returns Valid. *)
Lemma accepts_valid ext self env tbl c :
  accepts ext self env tbl c = true
  <-> (checkSingleCandidate ext self env c tbl).1 = Resolved Valid.
Proof.
  unfold accepts. rewrite checkSingleCandidate_refines.
  destruct (first_failure_verdict (checks ext self env c tbl))
    as [-> | [[reason ->] | [e ->]]]; by split.
Qed.

(** The only error a check throws is the TypeError of the version
    comparison. *)
Lemma checkSingleCandidate_rejected ext self env c tbl e :
  (checkSingleCandidate ext self env c tbl).1 = Rejected e -> e = semver_TypeError ext.
Proof.
  rewrite checkSingleCandidate_refines. intros H.
  apply first_failure_rejected in H as (o & Ho & He). revert Ho He.
  unfold checks. rewrite !elem_of_cons, elem_of_nil.
  unfold check_online, check_validate_intention, check_client_version,
    check_connection_age, check_identity, check_uptime, check_reward_destination,
    check_commission, check_self_stake, check_unclaimed, check_cross_network.
  intros [-> | [-> | [-> | [-> | [-> | [-> | [-> | [-> | [-> | [-> | [-> | []]]]]]]]]]]];
    repeat case_match; simplify_eq/=; intros; simplify_eq; done.
Qed.

Lemma first_throw_none ext self env tbl candidates :
  first_throw ext self env tbl candidates = None
  <-> forall c, c ∈ candidates -> throws ext self env tbl c = false.
Proof.
  unfold throws. induction candidates as [|c l IH]; cbn [first_throw].
  - split; [|done]. intros _ c Hc. by apply elem_of_nil in Hc.
  - destruct (checkSingleCandidate ext self env c tbl).1 as [v|e] eqn:Hc.
    + rewrite IH. split.
      * intros H c' Hc'. apply elem_of_cons in Hc' as [-> | Hc']; [by rewrite Hc|by apply H].
      * intros H c' Hc'. apply H. by apply list_elem_of_further.
    + split; [done|]. intros H. specialize (H c (list_elem_of_here _ _)).
      by rewrite Hc in H.
Qed.

Lemma first_throw_some ext self env tbl candidates e :
  first_throw ext self env tbl candidates = Some e ->
  e = semver_TypeError ext
  /\ exists c, c ∈ candidates /\ throws ext self env tbl c = true.
Proof.
  unfold throws. induction candidates as [|c l IH]; cbn [first_throw]; [done|].
  destruct (checkSingleCandidate ext self env c tbl).1 as [v|e'] eqn:Hc.
  - intros H. destruct (IH H) as (He & c' & Hc' & Ht).
    split; [done|]. exists c'. split; [by apply list_elem_of_further|done].
  - intros [= ->]. split; [by apply (checkSingleCandidate_rejected ext self env c tbl)|].
    exists c. split; [apply list_elem_of_here|by rewrite Hc].
Qed.

(** One turn of the first loop: when the check returns, the candidate is
    kept if and only if the checker accepts it; when the check throws, the
    pass throws; the calls are those of the check, and a log line. *)
Lemma collectValid_turn_run ext self env tbl c acc :
  exists calls,
    Forall (fun call => read_call call || lookup_call call = true) calls
    /\ iteration_throwing (R := PassResult) (collectValid_turn ext self env tbl c acc)
       = match (checkSingleCandidate ext self env c tbl).1 with
         | Resolved _ =>
             (Continue (acc ++ List.filter (accepts ext self env tbl) [c]), calls)
         | Rejected e => (Returned (Rejected e), calls)
         end.
Proof.
  unfold collectValid_turn, iteration_throwing, await_throwing, accepts.
  cbn [List.filter].
  pose proof (checkSingleCandidate_only_reads ext self env c tbl) as Hc.
  destruct (checkSingleCandidate ext self env c tbl) as [[[[|] reason]|e] t]; simpl in *.
  - eexists. split; [|done]. by rewrite app_nil_r.
  - eexists. split; [|by rewrite app_nil_r]. apply Forall_app. split; [done|].
    by repeat constructor.
  - eexists. split; [|done]. done.
Qed.

(** The first loop yields the candidates the checker accepts, in input
    order, unless a check throws. *)
Lemma collectValid_loop ext self env tbl candidates acc :
  exists calls,
    Forall (fun call => read_call call || lookup_call call = true) calls
    /\ for_of (R := Completion PassResult) candidates (fun candidate validCandidates =>
         iteration_throwing
           (collectValid_turn ext self env tbl candidate validCandidates)) acc
       = match first_throw ext self env tbl candidates with
         | None => (Continue (acc ++ validCandidatesOf ext self env candidates tbl), calls)
         | Some e => (Returned (Rejected e), calls)
         end.
Proof.
  revert acc. induction candidates as [|c l IH]; intros acc.
  - exists []. split; [done|]. cbn. by rewrite app_nil_r.
  - rewrite for_of_cons. cbn [first_throw].
    destruct (collectValid_turn_run ext self env tbl c acc) as (calls0 & Hp0 & ->).
    destruct (checkSingleCandidate ext self env c tbl).1 as [v|e].
    + rewrite bind_continue.
      destruct (IH (acc ++ List.filter (accepts ext self env tbl) [c]))
        as (calls1 & Hp1 & ->).
      exists (calls0 ++ calls1). split; [by apply Forall_app|].
      destruct (first_throw ext self env tbl l); cbn [fst snd]; [done|].
      rewrite <- app_assoc. unfold validCandidatesOf. by rewrite <- List.filter_app.
    + exists calls0. split; [done|]. by rewrite bind_returned.
Qed.

(** One turn of the second loop: a draw, a clock read and one score
    persisted. *)
Lemma scoreAll_turn_run ext env p c acc :
  let score := computeScore ext p c (Math_random env (length acc)) (Date_now env) in
  scoreAll_turn ext env p c acc
  = (Continue (acc ++ [rankedCandidate score c]),
     [Math_random_call; Date_getTime; db_setValidatorScore (stash c) score]).
Proof. done. Qed.

(** The second loop scores the valid candidates in order, with a draw, a
    clock read and a score write for each. *)
Lemma scoreAll_loop ext env p l acc :
  for_of (R := Completion PassResult) l (scoreAll_turn ext env p) acc
  = (Continue (acc ++ map (fun cs => rankedCandidate cs.2 cs.1)
                        (scoresFrom ext env p (length acc) l)),
     scoring_calls (scoresFrom ext env p (length acc) l)).
Proof.
  revert acc. induction l as [|c l IH]; intros acc.
  - cbn. by rewrite app_nil_r.
  - rewrite for_of_cons, scoreAll_turn_run, bind_continue, IH.
    rewrite length_app. cbn [length].
    replace (length acc + 1)%nat with (S (length acc)) by lia.
    cbn [fst snd scoresFrom map]. by rewrite <- app_assoc.
Qed.

Lemma persistedScores_scoring scores :
  persistedScores (scoring_calls scores) = map snd scores.
Proof.
  induction scores as [|[c s] l IH]; [done|].
  unfold scoring_calls in *. cbn [map concat app]. rewrite !persistedScores_cons.
  by rewrite IH.
Qed.

(** What a pass returns, caches and calls: when no check throws, the ranking
    of the accepted candidates; when one throws, its error, after the calls
    of the checks so far. *)
Lemma getValidCandidates_result ext self env candidates tbl :
  let valid := validCandidatesOf ext self env candidates tbl in
  let scores := scoresFrom ext env (populations valid) 0 valid in
  let ranking :=
    Array_sort byTotalDescending (map (fun cs => rankedCandidate cs.2 cs.1) scores) in
  exists checking,
    Forall (fun call => read_call call || lookup_call call = true) checking
    /\ getValidCandidates ext self env candidates tbl
       = match first_throw ext self env tbl candidates with
         | None =>
             (Resolved (set_validCache self ranking, ranking),
              logger_info "(OTV::getValidCandidates) Getting candidates" :: checking
              ++ [Date_getTime;
                  db_setValidatorScoreMetadata (scoreMetadata ext (populations valid))
                    (Date_now env)]
              ++ scoring_calls scores)
         | Some e =>
             (Rejected e,
              logger_info "(OTV::getValidCandidates) Getting candidates" :: checking)
         end.
Proof.
  intros valid scores ranking. unfold getValidCandidates, collectValid, scoreAll.
  destruct (collectValid_loop ext self env tbl candidates []) as (calls1 & Hp1 & Heq1).
  pose proof (scoreAll_loop ext env (populations valid) valid []) as Heq2.
  rewrite app_nil_l in Heq1, Heq2. fold valid in Heq1.
  exists calls1. split; [done|].
  unfold mbind, Eff_bind, eff_bind, await. rewrite Heq1.
  destruct (first_throw ext self env tbl candidates) as [e|]; [done|].
  cbn [app]. rewrite Heq2. cbn [run return_ fst snd app length]. by rewrite app_nil_r.
Qed.

(** A pass that returns a ranking: no check threw. *)
Lemma getValidCandidates_resolved ext self env candidates tbl self' ranking calls :
  getValidCandidates ext self env candidates tbl = (Resolved (self', ranking), calls) ->
  let valid := validCandidatesOf ext self env candidates tbl in
  let scores := scoresFrom ext env (populations valid) 0 valid in
  first_throw ext self env tbl candidates = None
  /\ ranking
     = Array_sort byTotalDescending (map (fun cs => rankedCandidate cs.2 cs.1) scores)
  /\ self' = set_validCache self ranking
  /\ exists checking,
       Forall (fun call => read_call call || lookup_call call = true) checking
       /\ calls
          = logger_info "(OTV::getValidCandidates) Getting candidates" :: checking
            ++ [Date_getTime;
                db_setValidatorScoreMetadata (scoreMetadata ext (populations valid))
                  (Date_now env)]
            ++ scoring_calls scores.
Proof.
  intros Hrun valid scores.
  destruct (getValidCandidates_result ext self env candidates tbl) as (checking & Hc & Heq).
  rewrite Hrun in Heq.
  destruct (first_throw ext self env tbl candidates) as [e|]; [done|].
  injection Heq as -> -> ->. split; [done|]. split; [done|]. split; [done|].
  by exists checking.
Qed.

(** The scores a pass persists, whether it returns or throws. *)
Lemma getValidCandidates_persisted ext self env candidates tbl :
  let valid := validCandidatesOf ext self env candidates tbl in
  let scores := scoresFrom ext env (populations valid) 0 valid in
  persistedScores (getValidCandidates ext self env candidates tbl).2
  = match first_throw ext self env tbl candidates with
    | None => map snd scores
    | Some _ => []
    end.
Proof.
  intros valid scores.
  destruct (getValidCandidates_result ext self env candidates tbl) as (checking & Hc & ->).
  destruct (first_throw ext self env tbl candidates) as [e|]; cbn [snd];
    rewrite persistedScores_cons.
  - by apply persistedScores_checking.
  - rewrite persistedScores_app, (persistedScores_checking _ Hc).
    cbn [app]. rewrite !persistedScores_cons. apply persistedScores_scoring.
Qed.

Lemma computeScore_invariant ext p c (random : Q) now :
  (0 <= random)%Q -> (random < 1)%Q ->
  score_invariant (computeScore ext p c random now).
Proof.
  intros H0 H1. unfold score_invariant, computeScore.
  cbn [aggregate total randomness score_inclusion score_spanInclusion score_discovered
       score_nominated score_rank score_unclaimed score_bonded score_faults score_offline].
  split; [ring|]. split; [lra|]. split; [lra|reflexivity].
Qed.

Lemma scoresFrom_invariant ext env p i l :
  (forall j, (0 <= Math_random env j)%Q /\ (Math_random env j < 1)%Q) ->
  Forall score_invariant (map snd (scoresFrom ext env p i l)).
Proof.
  intros Hr. revert i. induction l as [|c l IH]; intros i; simpl; constructor.
  - apply computeScore_invariant; apply Hr.
  - apply IH.
Qed.

(** C5. The sequence a pass of getValidCandidates returns is sorted
    descending by total (of two adjacent entries, a before b, a.total >=
    b.total), and after the pass the validCache field is exactly the returned
    sequence, whatever it held before.  [self'] is the engine after the
    pass and [ranking] the sequence returned. *)
Theorem ranking_sorted_and_cached
    (ext : Externals) (self : OTV) (env : Env) (candidates : list CandidateData)
    (identityHashTable : gmap string Z)
    (self' : OTV) (ranking : list RankedCandidate) (calls : list Call) :
  getValidCandidates ext self env candidates identityHashTable
  = (Resolved (self', ranking), calls) ->
  (forall i a b, ranking !! i = Some a -> ranking !! S i = Some b ->
     (total (rc_aggregate b) <= total (rc_aggregate a))%Q)
  /\ validCache self' = ranking
  /\ adjacent total_ge (validCache self').
Proof.
  intros Hrun.
  destruct (getValidCandidates_resolved _ _ _ _ _ _ _ _ Hrun) as (_ & -> & -> & _).
  cbn [set_validCache validCache].
  split; [|split; [done|]]; apply Array_sort_total_ge.
Qed.

(** C4, amended. For every candidate scored by getValidCandidates, the
    persisted and the cached score record satisfy: aggregate is the sum of
    the nine sub-scores (inclusion, spanInclusion, discovered, nominated,
    rank, unclaimed, bonded, faults, offline) and total = aggregate x jitter;
    the jitter 1 + random x 0.05 of a draw in [0, 1) lies in [1.0, 1.05) in
    exact arithmetic and, as the binary64 computation the code performs, in
    the closed interval [1.0, 1.05]; in binary64 the aggregate is the sum as
    the source adds it, left to right. *)
Theorem scores_satisfy_invariant
    (ext : Externals) (self : OTV) (env : Env) (candidates : list CandidateData)
    (identityHashTable : gmap string Z) :
  (forall i, (0 <= Math_random env i)%Q /\ (Math_random env i < 1)%Q) ->
  let pass := getValidCandidates ext self env candidates identityHashTable in
  (forall s,
      s ∈ persistedScores pass.2
      \/ (exists self' ranking,
            pass.1 = Resolved (self', ranking) /\ s ∈ cachedScores (validCache self')) ->
      (aggregate s ==
         score_inclusion s + score_spanInclusion s + score_discovered s
         + score_nominated s + score_rank s + score_unclaimed s
         + score_bonded s + score_faults s + score_offline s)%Q
      /\ (1 <= randomness s)%Q /\ (randomness s < 105 # 100)%Q
      /\ (total s == aggregate s * randomness s)%Q)
  /\ (forall inclusionScore spanInclusionScore faultsScore discoveredScore
            nominatedScore rankScore unclaimedScore bondedScore offlineScore
            random : float,
         (0 <=? random)%float = true -> (random <? 1)%float = true ->
         let s := assembleScore64 inclusionScore spanInclusionScore faultsScore
                    discoveredScore nominatedScore rankScore unclaimedScore
                    bondedScore offlineScore random in
         aggregate64 s
         = (inclusion64 s + spanInclusion64 s + faults64 s + discovered64 s
            + nominated64 s + rank64 s + unclaimed64 s + bonded64 s + offline64 s)%float
         /\ total64 s = (aggregate64 s * jitter64 s)%float
         /\ (1 <=? jitter64 s)%float = true
         /\ (jitter64 s <=? c1_05)%float = true).
Proof.
  intros Hr pass. split.
  2:{ intros a1 a2 a3 a4 a5 a6 a7 a8 a9 random H0 H1 s.
      split; [done|]. split; [done|]. by apply randomness64_bounds. }
  intros s. subst pass.
  set (valid := validCandidatesOf ext self env candidates identityHashTable).
  pose proof (scoresFrom_invariant ext env (populations valid) 0 valid Hr) as Hall.
  rewrite Forall_forall in Hall.
  intros [Hs | (self' & ranking & Hrun & Hs)].
  - rewrite getValidCandidates_persisted in Hs.
    destruct (first_throw ext self env identityHashTable candidates);
      [by apply elem_of_nil in Hs|by apply Hall].
  - destruct (getValidCandidates ext self env candidates identityHashTable)
      as [result calls] eqn:Hpass.
    cbn [fst] in Hrun. subst result.
    destruct (getValidCandidates_resolved _ _ _ _ _ _ _ _ Hpass) as (_ & -> & -> & _).
    cbn [set_validCache validCache] in Hs.
    apply Hall. unfold cachedScores in Hs.
    rewrite Array_sort_Permutation in Hs.
    by rewrite <- list_fmap_compose in Hs.
Qed.

Lemma scores_satisfy_invariant_witness :
  Forall score_invariant
    (persistedScores
       (getValidCandidates Scenario.ext Scenario.otv Scenario.env
          Scenario.pool Scenario.table).2)
  /\ (jitter64 (assembleScore64 5 40 5 5 35 0 15 13 2 0.5) <=? c1_05)%float = true.
Proof.
  assert (forall i, (0 <= Math_random Scenario.env i)%Q
                    /\ (Math_random Scenario.env i < 1)%Q) as Hdraws.
  { intros i. cbn [Scenario.env Scenario.world Math_random].
    unfold Qle, Qlt. cbn [Qnum Qden]. rewrite Zpos_P_of_succ_nat. lia. }
  pose proof (scores_satisfy_invariant Scenario.ext Scenario.otv Scenario.env
                Scenario.pool Scenario.table Hdraws) as [Hscores Hjitter].
  split.
  - apply Forall_forall. intros s Hs. apply Hscores. by left.
  - apply (Hjitter 5 40 5 5 35 0 15 13 2 0.5)%float; reflexivity.
Defined.

(** ** The round partitioner *)

(** One turn of the loop is the first-failure run of the reduced rule
    subset. *)
Lemma processCandidate_refines ext self env entry s :
  run (processCandidate ext self env entry s)
  = (partition_turn ext self env s entry, partition_calls ext self env entry).
Proof.
  destruct entry as [c|]; [|done].
  unfold processCandidate, partition_turn, partition_calls, round_checks, first_failure.
  cbn [foldr]. unfold round_commission, round_self_stake, round_destination, round_uptime,
    continue.
  destruct (getCommission _ _) as [value [e|]]; [done|]. simpl.
  destruct (Z.ltb_spec (commission self) (nullToNumber value));
    destruct (bool_decide_reflect (nullToNumber value > commission self));
    try (exfalso; lia); simpl; [done|].
  destruct (skipSelfStake c); simpl.
  - destruct (skipStakedDesitnation self); simpl.
    + by destruct (too_much_downtime c).
    + destruct (destinationIsStaked _ _); simpl; [|done].
      by destruct (too_much_downtime c).
  - destruct (getBondedAmount _ _) as [bondedAmt [e|]]; [done|]. simpl.
    destruct (Z.ltb_spec (nullToNumber bondedAmt) (minSelfStake self));
      destruct (bool_decide_reflect (nullToNumber bondedAmt < minSelfStake self));
      try (exfalso; lia); simpl; [done|].
    destruct (skipStakedDesitnation self); simpl.
    + by destruct (too_much_downtime c).
    + destruct (destinationIsStaked _ _); simpl; [|done].
      by destruct (too_much_downtime c).
Qed.

Lemma iteration_run {R S} (m : Eff S S) :
  iteration (R := R) m = (Continue (run m).1, (run m).2).
Proof. unfold iteration. by destruct (run m). Qed.

Lemma partition_loop {R} ext self env l s :
  for_of (R := R) l (fun entry s => iteration (processCandidate ext self env entry s)) s
  = (Continue (foldl (partition_turn ext self env) s l),
     concat (map (partition_calls ext self env) l)).
Proof.
  revert s. induction l as [|entry l IH]; intros s; [done|].
  rewrite for_of_cons. cbv beta.
  rewrite iteration_run, processCandidate_refines, bind_continue.
  cbn [fst snd]. by rewrite IH.
Qed.

(** What the method resolves to when the era read succeeds, and how it
    rejects when the read fails. *)
Lemma processCandidates_result ext self env candidates :
  processCandidates ext self env candidates
  = match (getActiveEraIndex (chaindata env)).2 with
    | Some e =>
        (Rejected e,
         [logger_info "(OTV::processCandidates) Processing candidates";
          chaindata_getActiveEraIndex])
    | None =>
        (Resolved (foldl (partition_turn ext self env) ([], []) candidates),
         [logger_info "(OTV::processCandidates) Processing candidates";
          chaindata_getActiveEraIndex]
         ++ concat (map (partition_calls ext self env) candidates))
    end.
Proof.
  unfold processCandidates.
  destruct (getActiveEraIndex (chaindata env)) as [activeEraIndex [e|]]; [done|].
  unfold mbind, Eff_bind, eff_bind, await. cbn [snd mret Eff_ret eff_ret app].
  rewrite partition_loop. cbn [run return_ app]. by rewrite app_nil_r.
Qed.

Lemma partition_turn_bad_mono ext self env s entry x :
  x ∈ s.2 -> x ∈ (partition_turn ext self env s entry).2.
Proof.
  destruct entry as [c|]; [|done]. unfold partition_turn.
  destruct (first_failure _).1 as [[[|] reason]|e]; [done| |done].
  simpl. intros H. apply elem_of_app. by left.
Qed.

Lemma partition_bad_mono ext self env l s x :
  x ∈ s.2 -> x ∈ (foldl (partition_turn ext self env) s l).2.
Proof.
  revert s. induction l as [|entry l IH]; intros s H; [done|].
  simpl. apply IH. by apply partition_turn_bad_mono.
Qed.

(** A candidate of the cohort that fails a rule is in the bad set, with the
    reason of the first rule it fails. *)
Lemma partition_bad ext self env l s c reason :
  Some c ∈ l ->
  (first_failure (round_checks ext self env c)).1 = Resolved (Invalid reason) ->
  (c, reason) ∈ (foldl (partition_turn ext self env) s l).2.
Proof.
  intros Hin Hfail. revert s. induction l as [|entry l IH]; intros s.
  - by apply elem_of_nil in Hin.
  - simpl. apply elem_of_cons in Hin as [<- | Hin]; [|by apply IH].
    apply partition_bad_mono. unfold partition_turn. rewrite Hfail. simpl.
    apply elem_of_app. right. apply list_elem_of_here.
Qed.

(** A member of the good set was in it before or passes every rule. *)
Lemma partition_good ext self env l s c :
  c ∈ (foldl (partition_turn ext self env) s l).1 ->
  c ∈ s.1
  \/ exists reason, (first_failure (round_checks ext self env c)).1 = Resolved (true, reason).
Proof.
  revert s. induction l as [|entry l IH]; intros s H; [by left|].
  simpl in H. apply IH in H as [H | H]; [|by right].
  destruct entry as [c'|]; [|by left]. unfold partition_turn in H.
  destruct (first_failure (round_checks ext self env c')).1 as [[[|] reason]|e] eqn:Hv;
    simpl in H; [|by left|by left].
  apply elem_of_app in H as [H | H]; [by left|].
  apply list_elem_of_singleton in H as ->. right. by exists reason.
Qed.

(** C6. If the initial active-era-index read of processCandidates returns
    an error, the call throws that error: it resolves to no partition and
    makes no per-candidate read.  No other read aborts the call: when the era
    read succeeds the call resolves to a partition, and a candidate whose
    commission or bonded-amount read returns an error is in the bad set with
    the error text as its reason. *)
Theorem era_failure_aborts
    (ext : Externals) (self : OTV) (env : Env) (candidates : list (option CandidateData)) :
  (forall value e,
      getActiveEraIndex (chaindata env) = (value, Some e) ->
      processCandidates ext self env candidates
      = (Rejected e,
         [logger_info "(OTV::processCandidates) Processing candidates";
          chaindata_getActiveEraIndex]))
  /\ (forall value,
         getActiveEraIndex (chaindata env) = (value, None) ->
         exists good bad calls,
           processCandidates ext self env candidates = (Resolved (good, bad), calls)
           /\ (forall c v e,
                  Some c ∈ candidates ->
                  getCommission (chaindata env) (stash c) = (v, Some e) ->
                  (c, name c +:+ " " +:+ err_text e) ∈ bad)
           /\ (forall c v v2 e,
                  Some c ∈ candidates ->
                  getCommission (chaindata env) (stash c) = (v, None) ->
                  nullToNumber v <= commission self ->
                  skipSelfStake c = false ->
                  getBondedAmount (chaindata env) (stash c) = (v2, Some e) ->
                  (c, name c +:+ " " +:+ err_text e) ∈ bad)).
Proof.
  split.
  - intros value e Hera. by rewrite processCandidates_result, Hera.
  - intros value Hera. rewrite processCandidates_result, Hera. cbn [snd].
    destruct (foldl (partition_turn ext self env) ([], []) candidates) as [good bad] eqn:Hs.
    exists good, bad. eexists. split; [done|].
    replace bad with (foldl (partition_turn ext self env) ([], []) candidates).2
      by (by rewrite Hs).
    split.
    + intros c v e Hin Hread. apply partition_bad; [done|].
      unfold round_checks. rewrite first_failure_cons.
      unfold round_commission. by rewrite Hread.
    + intros c v v2 e Hin Hread Hle Hskip Hread2. apply partition_bad; [done|].
      unfold round_checks. rewrite !first_failure_cons.
      unfold round_commission, round_self_stake. rewrite Hread, Hskip, Hread2.
      by rewrite bool_decide_false by lia.
Qed.

(** C7. In processCandidates, every non-null candidate whose commission
    read succeeds with a value strictly above the configured ceiling is
    placed in the bad set, and not in the good set, with a reason that
    mentions commission, whatever its other fields and reads are. *)
Theorem commission_above_ceiling_is_bad
    (ext : Externals) (self : OTV) (env : Env) (candidates : list (option CandidateData))
    (c : CandidateData) (value : Z) (era : option Z) :
  getActiveEraIndex (chaindata env) = (era, None) ->
  Some c ∈ candidates ->
  getCommission (chaindata env) (stash c) = (Some value, None) ->
  value > commission self ->
  exists good bad calls reason,
    processCandidates ext self env candidates = (Resolved (good, bad), calls)
    /\ (c, reason) ∈ bad
    /\ mentions "commission" reason
    /\ c ∉ good.
Proof.
  intros Hera Hin Hread Hgt.
  assert ((first_failure (round_checks ext self env c)).1
          = Resolved (Invalid (reason_commission_raised c (Some value)))) as Hfail.
  { unfold round_checks. rewrite first_failure_cons.
    unfold round_commission. rewrite Hread. cbn [nullToNumber default].
    by rewrite bool_decide_true by done. }
  rewrite processCandidates_result, Hera. cbn [snd].
  destruct (foldl (partition_turn ext self env) ([], []) candidates) as [good bad] eqn:Hs.
  exists good, bad. eexists. exists (reason_commission_raised c (Some value)).
  split; [done|]. split; [|split].
  - replace bad with (foldl (partition_turn ext self env) ([], []) candidates).2
      by (by rewrite Hs).
    by apply partition_bad.
  - exists (name c +:+ " found "), (" higher than ten percent: " +:+ showNullable (Some value)).
    unfold reason_commission_raised. by rewrite string_append_assoc.
  - intros Hgood.
    replace good with (foldl (partition_turn ext self env) ([], []) candidates).1 in Hgood
      by (by rewrite Hs).
    apply partition_good in Hgood as [Hgood | [reason Hgood]].
    + by apply elem_of_nil in Hgood.
    + by rewrite Hfail in Hgood.
Qed.

(** ** The theorems on the scenario *)

Lemma checkSingleCandidate_fixed_order_witness :
  checkSingleCandidate Scenario.ext Scenario.otv Scenario.env
    Scenario.alice90 Scenario.table
  = (Resolved (Invalid "alice has unclaimed eras: 90 prior to era: 96"),
     [chaindata_getValidators; db_getLatestRelease; Date_getTime;
      chaindata_hasIdentity "A1"; chaindata_getIdentity "A1";
      chaindata_destinationIsStaked "A1"; chaindata_getCommission "A1";
      chaindata_getBondedAmount "A1"; chaindata_getActiveEraIndex]).
Proof.
  apply (proj1 (checkSingleCandidate_fixed_order Scenario.ext Scenario.otv Scenario.env
                  Scenario.alice90 Scenario.table)
           9%nat (check_unclaimed Scenario.otv Scenario.env Scenario.alice90)).
  - reflexivity.
  - vm_compute. repeat (constructor; [reflexivity|]). constructor.
  - reflexivity.
Defined.

Lemma era_failure_aborts_witness :
  processCandidates Scenario.ext Scenario.otv Scenario.envEraError Scenario.cohort
  = (Rejected Scenario.eraError,
     [logger_info "(OTV::processCandidates) Processing candidates";
      chaindata_getActiveEraIndex]).
Proof.
  apply (proj1 (era_failure_aborts Scenario.ext Scenario.otv Scenario.envEraError
                  Scenario.cohort) None Scenario.eraError).
  reflexivity.
Defined.

Lemma commission_above_ceiling_is_bad_witness :
  exists good bad calls reason,
    processCandidates Scenario.ext Scenario.otv Scenario.envRaised Scenario.cohort
    = (Resolved (good, bad), calls)
    /\ (Scenario.bob, reason) ∈ bad
    /\ mentions "commission" reason
    /\ Scenario.bob ∉ good.
Proof.
  apply (commission_above_ceiling_is_bad Scenario.ext Scenario.otv Scenario.envRaised
           Scenario.cohort Scenario.bob 200000000 (Some 100)).
  - reflexivity.
  - unfold Scenario.cohort. do 2 apply list_elem_of_further. apply list_elem_of_here.
  - reflexivity.
  - reflexivity.
Defined.

(** Every check of the scenario's pool returns. *)
Lemma scenario_pass_returns :
  exists self' ranking calls,
    getValidCandidates Scenario.ext Scenario.otv Scenario.env Scenario.pool Scenario.table
    = (Resolved (self', ranking), calls)
    /\ map rc_name ranking = ["carol"; "bob"; "alice"].
Proof.
  destruct (getValidCandidates_result Scenario.ext Scenario.otv Scenario.env
              Scenario.pool Scenario.table) as (checking & _ & Hrun).
  change (first_throw Scenario.ext Scenario.otv Scenario.env Scenario.table Scenario.pool)
    with (@None ErrorText) in Hrun.
  eexists _, _, _. split; [exact Hrun|]. by vm_compute.
Qed.

Lemma ranking_sorted_and_cached_witness :
  exists self' ranking calls,
    getValidCandidates Scenario.ext Scenario.otv Scenario.env Scenario.pool Scenario.table
    = (Resolved (self', ranking), calls)
    /\ map rc_name ranking = ["carol"; "bob"; "alice"]
    /\ validCache self' = ranking
    /\ adjacent total_ge ranking.
Proof.
  destruct scenario_pass_returns as (self' & ranking & calls & Hrun & Hnames).
  exists self', ranking, calls. split; [exact Hrun|]. split; [exact Hnames|].
  destruct (ranking_sorted_and_cached Scenario.ext Scenario.otv Scenario.env
              Scenario.pool Scenario.table self' ranking calls Hrun) as (_ & Hcache & Hsorted).
  split; [exact Hcache|]. by rewrite <- Hcache.
Defined.

Lemma populateIdentityHashTable_counts_witness :
  sum_counts Scenario.table = 3.
Proof.
  apply (populateIdentityHashTable_counts Scenario.ext Scenario.env Scenario.pool).
Defined.

(** * Further properties of the code *)

(** ** What a verdict tells *)

Lemma checkSingleCandidate_valid ext self env c tbl :
  (checkSingleCandidate ext self env c tbl).1 = Resolved Valid
  <-> Forall passes (checks ext self env c tbl).
Proof. rewrite checkSingleCandidate_refines. apply first_failure_valid. Qed.

Lemma Forall_checks (P : CheckOutcome -> Prop) ext self env c tbl :
  Forall P (checks ext self env c tbl)
  <-> P (check_online c) /\ P (check_validate_intention ext env c)
      /\ P (check_client_version ext self env c) /\ P (check_connection_age self env c)
      /\ P (check_identity ext self env c tbl) /\ P (check_uptime ext c)
      /\ P (check_reward_destination self env c) /\ P (check_commission self env c)
      /\ P (check_self_stake self env c) /\ P (check_unclaimed self env c)
      /\ P (check_cross_network ext env c).
Proof.
  unfold checks. rewrite !Forall_cons, Forall_nil. tauto.
Qed.

(** Every reason the checker gives begins with the candidate's name and a
    space; the reason of a Valid verdict is empty. *)
Lemma check_reason_names_candidate ext self env c tbl o reason :
  o ∈ checks ext self env c tbl -> o.1 = Fail reason ->
  exists rest, reason = name c +:+ " " +:+ rest.
Proof.
  unfold checks. rewrite !elem_of_cons, elem_of_nil.
  unfold check_online, check_validate_intention, check_client_version,
    check_connection_age, check_identity, check_uptime, check_reward_destination,
    check_commission, check_self_stake, check_unclaimed, check_cross_network.
  intros [-> | [-> | [-> | [-> | [-> | [-> | [-> | [-> | [-> | [-> | [-> | []]]]]]]]]]]];
    repeat case_match; simplify_eq/=; intros; simplify_eq; eexists; reflexivity.
Qed.

(** ** The checks, on the data they read *)

Lemma too_much_downtime_iff c :
  too_much_downtime c = true <-> downtime_allowance < offlineAccumulated c.
Proof.
  unfold too_much_downtime. rewrite Qltb_lt.
  change (inject_Z WEEK) with (604800000 # 1)%Q.
  unfold Qlt, Qdiv, Qmult, Qinv, inject_Z, downtime_allowance. cbn. lia.
Qed.

Lemma too_much_downtime_false c :
  too_much_downtime c = false <-> offlineAccumulated c <= downtime_allowance.
Proof.
  destruct (too_much_downtime c) eqn:H.
  - apply too_much_downtime_iff in H. split; [done|lia].
  - split; [|done]. intros _.
    destruct (Z_le_gt_dec (offlineAccumulated c) downtime_allowance) as [|Hgt]; [done|].
    assert (too_much_downtime c = true) by (apply too_much_downtime_iff; lia). congruence.
Qed.

Section CheckFacts.

Variable ext : Externals.
Variable self : OTV.
Variable env : Env.
Variable c : CandidateData.
Variable tbl : gmap string Z.

Lemma passes_online :
  passes (check_online c) <-> onlineSince c <> 0 /\ offlineSince c = 0.
Proof.
  unfold passes, check_online. case_bool_decide as H; simpl; split; try done; intros; lia.
Qed.

Lemma passes_validate_intention :
  passes (check_validate_intention ext env c)
  <-> formatAddress ext (stash c) ∈ getValidators (chaindata env).
Proof.
  unfold passes, check_validate_intention. simpl. case_bool_decide as H; split; try done.
Qed.

Lemma passes_client_version :
  passes (check_client_version ext self env c)
  <-> forall release,
        getLatestRelease env = Some release ->
        exists nodeVersion latestVersion,
          semver_coerce ext (version c) = Some nodeVersion
          /\ semver_clean ext (release_name release) = Some latestVersion
          /\ (skipClientUpgrade self = false ->
              semver_gte ext nodeVersion latestVersion = true).
Proof.
  unfold passes, check_client_version. simpl.
  destruct (getLatestRelease env) as [release|]; [|by split].
  destruct (semver_coerce ext (version c)) as [nodeVersion|] eqn:Hn.
  2:{ split; [done|]. intros H. by destruct (H release eq_refl) as (? & ? & ? & _). }
  destruct (semver_clean ext (release_name release)) as [latestVersion|] eqn:Hl.
  2:{ split; [done|]. intros H. destruct (H release eq_refl) as (? & ? & _ & Hl' & _).
      congruence. }
  destruct (skipClientUpgrade self).
  - split; [|done]. intros _ r [= <-]. by exists nodeVersion, latestVersion.
  - destruct (semver_gte ext nodeVersion latestVersion) eqn:Hup.
    + split; [|done]. intros _ r [= <-]. by exists nodeVersion, latestVersion.
    + split; [done|]. intros H.
      destruct (H release eq_refl) as (n & l & Hn' & Hl' & Hg).
      specialize (Hg eq_refl). congruence.
Qed.

Lemma passes_connection_age :
  passes (check_connection_age self env c)
  <-> (skipConnectionTime self = false -> WEEK <= Date_now env - discoveredAt c).
Proof.
  unfold passes, check_connection_age.
  destruct (skipConnectionTime self); simpl; [by split|].
  case_bool_decide as H; split; try done.
  - intros Hw. specialize (Hw eq_refl). lia.
  - intros _ _. lia.
Qed.

Lemma passes_identity :
  passes (check_identity ext self env c tbl)
  <-> (skipIdentity self = false ->
         hasIdentity (chaindata env) (stash c) = (true, true)
         /\ exists n, tbl !! identityDigest ext env c = Some n /\ n <> 0 /\ n <= 2).
Proof.
  unfold passes, check_identity, identityDigest.
  destruct (skipIdentity self); simpl; [by split|].
  destruct (hasIdentity _ _) as [[|] [|]]; simpl;
    try (split; [done|]; intros H; by destruct (H eq_refl)).
  destruct (tbl !! _) as [n|]; simpl.
  - case_bool_decide as H; split; try done.
    + intros Hn. destruct (Hn eq_refl) as (_ & m & [= <-] & ? & ?). lia.
    + intros _ _. split; [done|]. exists n. split; [done|]. lia.
  - split; [done|]. intros Hn. by destruct (Hn eq_refl) as (_ & m & ? & _).
Qed.

Lemma passes_uptime :
  passes (check_uptime ext c) <-> offlineAccumulated c <= downtime_allowance.
Proof.
  unfold passes, check_uptime. simpl. rewrite <- too_much_downtime_false.
  by destruct (too_much_downtime c).
Qed.

Lemma passes_reward_destination :
  passes (check_reward_destination self env c)
  <-> (skipStakedDesitnation self = false ->
         destinationIsStaked (chaindata env) (stash c) = true).
Proof.
  unfold passes, check_reward_destination.
  destruct (skipStakedDesitnation self); simpl; [by split|].
  destruct (destinationIsStaked _ _); split; try done. intros H. by specialize (H eq_refl).
Qed.

Lemma passes_commission :
  passes (check_commission self env c)
  <-> exists value,
        getCommission (chaindata env) (stash c) = (value, None)
        /\ nullToNumber value <= commission self.
Proof.
  unfold passes, check_commission. simpl.
  destruct (getCommission _ _) as [value [e|]].
  - split; [done|]. by intros (v & ? & _).
  - case_bool_decide as H; split; try done.
    + intros (v & [= <-] & ?). lia.
    + intros _. exists value. split; [done|lia].
Qed.

Lemma passes_self_stake :
  passes (check_self_stake self env c)
  <-> (skipSelfStake c = false ->
         exists value,
           getBondedAmount (chaindata env) (stash c) = (value, None)
           /\ minSelfStake self <= nullToNumber value).
Proof.
  unfold passes, check_self_stake.
  destruct (skipSelfStake c); simpl; [by split|].
  destruct (getBondedAmount _ _) as [value [e|]].
  - split; [done|]. intros H. by destruct (H eq_refl) as (v & ? & _).
  - case_bool_decide as H; split; try done.
    + intros Hv. destruct (Hv eq_refl) as (v & [= <-] & ?). lia.
    + intros _ _. exists value. split; [done|lia].
Qed.

Lemma passes_unclaimed :
  passes (check_unclaimed self env c)
  <-> (skipUnclaimed self = false ->
         forall eras, unclaimedEras c = Some eras ->
           Forall (fun era =>
                     nullToNumber (getActiveEraIndex (chaindata env)).1
                     - unclaimedEraThreshold self - 1 < era) eras).
Proof.
  unfold passes, check_unclaimed, unclaimed_threshold.
  destruct (skipUnclaimed self); simpl; [by split|].
  destruct (unclaimedEras c) as [eras|]; [|by split].
  destruct (existsb _ eras) eqn:Hex; split; try done.
  - intros H. specialize (H eq_refl eras eq_refl).
    apply existsb_exists in Hex as (era & Hin & Hle).
    rewrite Forall_forall in H. apply list_elem_of_In in Hin. specialize (H era Hin). lia.
  - intros _ _ l [= <-]. apply Forall_forall. intros era Hin.
    destruct (Z_lt_le_dec (nullToNumber (getActiveEraIndex (chaindata env)).1
                           - unclaimedEraThreshold self - 1) era) as [|Hle]; [done|].
    assert (existsb (fun era => era <=? nullToNumber (getActiveEraIndex (chaindata env)).1
                                        - unclaimedEraThreshold self - 1) eras = true);
      [|congruence].
    apply existsb_exists. exists era. split; [by apply list_elem_of_In|lia].
Qed.

Lemma passes_cross_network :
  passes (check_cross_network ext env c)
  <-> forall k invalidityReasons rank,
        kusamaStash c = Some k -> k <> "" ->
        axios_get env (kusama_url ext k)
        = HttpResponse (DataObject invalidityReasons rank) ->
        truthy invalidityReasons = false
        /\ Number_lt (ToNumber ext rank) 25 = false.
Proof.
  unfold passes, check_cross_network.
  destruct (kusamaStash c) as [[|a k]|];
    [split; [by intros _ k ir rank [= <-]|done]|..|by split].
  destruct (axios_get env _) as [|[|ir rank]] eqn:Hget; simpl;
    try (split; [|done]; intros _ k' ir' rank' [= <-] _; by rewrite Hget).
  destruct (truthy ir) eqn:Hir; [|destruct (Number_lt _ _) eqn:Hlt]; split; try done.
  - intros H. destruct (H _ ir rank eq_refl ltac:(done) Hget). congruence.
  - intros H. destruct (H _ ir rank eq_refl ltac:(done) Hget). congruence.
  - intros _ k' ir' rank' [= <-] _. rewrite Hget. by intros [= <- <-].
Qed.

Lemma eligible_checks :
  eligible ext self env c tbl <-> Forall passes (checks ext self env c tbl).
Proof.
  rewrite Forall_checks. unfold eligible.
  rewrite passes_online, passes_validate_intention, passes_client_version,
    passes_connection_age, passes_identity, passes_uptime, passes_reward_destination,
    passes_commission, passes_self_stake, passes_unclaimed, passes_cross_network.
  done.
Qed.

End CheckFacts.

(** ** Relaxing the configuration *)

Lemma relaxes_eligible ext strict relaxed env c tbl :
  relaxes strict relaxed ->
  eligible ext strict env c tbl -> eligible ext relaxed env c tbl.
Proof.
  intros (Hc & Hi & Hs & Hv & Hu & Hcom & Hmin & Hthr).
  intros (E1 & E2 & E3 & E4 & E5 & E6 & E7 & E8 & E9 & E10 & E11).
  assert (forall b b' : bool, (b = true -> b' = true) -> b' = false -> b = false) as Hskip.
  { intros [|] [|] H1 H2; try done. by specialize (H1 eq_refl). }
  refine (conj E1 (conj E2 (conj _ (conj _ (conj _ (conj E6
            (conj _ (conj _ (conj _ (conj _ E11)))))))))).
  - intros r Hr. destruct (E3 r Hr) as (n & l & Hn & Hl & Hg).
    exists n, l. split; [done|]. split; [done|].
    intros Hf. apply Hg. by apply (Hskip _ _ Hv).
  - intros Hf. apply E4. by apply (Hskip _ _ Hc).
  - intros Hf. apply E5. by apply (Hskip _ _ Hi).
  - intros Hf. apply E7. by apply (Hskip _ _ Hs).
  - destruct E8 as (v & ? & ?). exists v. split; [done|lia].
  - intros H. destruct (E9 H) as (v & ? & ?). exists v. split; [done|lia].
  - intros H eras Heras. eapply Forall_impl; [apply (E10 (Hskip _ _ Hu H) eras Heras)|].
    simpl. intros; lia.
Qed.

(** ** The verdict of the single-candidate checker *)

(** X1. The checker returns Valid exactly for the candidates that meet
    every criterion it reads: online, validate intention, when a release is
    known a version in the candidate's text and in the release name (without
    which the comparison throws, even when the check is skipped) and, unless
    skipped, the latest client, one week connected, identity set, verified
    and counted once or twice in the table, at most 12096000 ms (2% of a
    week) offline, rewards staked, commission and bonded amount read without
    error and within their limits, no unclaimed era at or below the
    threshold, and no invalidity reason or rank below 25 in a cross-network
    answer; the skip flags switch their criteria off. *)
Theorem valid_iff_eligible
    (ext : Externals) (self : OTV) (env : Env) (c : CandidateData)
    (identityHashTable : gmap string Z) :
  (checkSingleCandidate ext self env c identityHashTable).1 = Resolved Valid
  <-> eligible ext self env c identityHashTable.
Proof. by rewrite eligible_checks, <- checkSingleCandidate_valid. Qed.

(** X2. Every reason the checker gives begins with the name of the
    candidate it rejects, followed by a space; the reason of a Valid verdict
    is the empty string. *)
Theorem reason_names_candidate
    (ext : Externals) (self : OTV) (env : Env) (c : CandidateData)
    (identityHashTable : gmap string Z) (verdict : Verdict) :
  (checkSingleCandidate ext self env c identityHashTable).1 = Resolved verdict ->
  (verdict.1 = true -> verdict.2 = "")
  /\ (verdict.1 = false -> exists rest, verdict.2 = name c +:+ " " +:+ rest).
Proof.
  rewrite checkSingleCandidate_refines.
  destruct (first_failure_verdict (checks ext self env c identityHashTable))
    as [Hv | [[reason Hv] | [e Hv]]]; rewrite Hv; intros [= <-].
  - by split.
  - split; [done|]. intros _.
    destruct (first_failure_invalid _ _ Hv) as (o & Ho & Hr).
    by apply (check_reason_names_candidate ext self env c identityHashTable o).
Qed.

(** X3. A candidate that is offline ([onlineSince] is 0 or [offlineSince]
    is not) is rejected before anything is read: the verdict is Invalid with
    the offline reason and the checker makes no call at all. *)
Theorem offline_rejected_without_reads
    (ext : Externals) (self : OTV) (env : Env) (c : CandidateData)
    (identityHashTable : gmap string Z) :
  onlineSince c = 0 \/ offlineSince c <> 0 ->
  checkSingleCandidate ext self env c identityHashTable
  = (Resolved (Invalid (name c +:+ " offline. Offline since "
                        +:+ pretty (offlineSince c) +:+ ".")),
     []).
Proof.
  intros Hoff. rewrite checkSingleCandidate_refines. unfold checks.
  rewrite first_failure_cons. unfold check_online. by rewrite bool_decide_true.
Qed.

(** X4. Relaxing the configuration never turns a Valid verdict into an
    Invalid one: if an engine accepts a candidate, so does every engine that
    skips at least the same checks, allows at least the same commission,
    asks for at most the same self-stake and tolerates at least as old
    unclaimed eras. *)
Theorem relaxing_keeps_valid
    (ext : Externals) (strict relaxed : OTV) (env : Env) (c : CandidateData)
    (identityHashTable : gmap string Z) :
  relaxes strict relaxed ->
  (checkSingleCandidate ext strict env c identityHashTable).1 = Resolved Valid ->
  (checkSingleCandidate ext relaxed env c identityHashTable).1 = Resolved Valid.
Proof.
  intros Hrel Hvalid.
  assert (eligible ext strict env c identityHashTable) as He.
  { by apply eligible_checks, checkSingleCandidate_valid. }
  apply (relaxes_eligible ext strict relaxed env c identityHashTable Hrel) in He.
  apply eligible_checks in He.
  rewrite checkSingleCandidate_refines. by rewrite (first_failure_all_pass _ He).
Qed.

(** X5. The checker only reads: every call it makes reads the chain, the
    clock or the latest release, or belongs to the cross-network lookup (the
    HTTP request and the log line of its failure); it persists no score, no
    score metadata, and draws no random number.  For a candidate without a
    secondary-network stash (absent or empty) it makes no HTTP request and
    writes no log line. *)
Theorem checker_only_reads
    (ext : Externals) (self : OTV) (env : Env) (c : CandidateData)
    (identityHashTable : gmap string Z) :
  let calls := (checkSingleCandidate ext self env c identityHashTable).2 in
  Forall (fun call => read_call call || lookup_call call = true) calls
  /\ (kusamaStash c = None \/ kusamaStash c = Some "" ->
      Forall (fun call => read_call call = true) calls).
Proof.
  intros calls. subst calls. rewrite checkSingleCandidate_refines. split.
  - apply first_failure_calls, checks_only_read.
  - intros Hk. apply first_failure_calls, checks_no_lookup.
    by destruct Hk as [-> | ->].
Qed.

(** X6. When the lookup of a non-empty secondary-network stash answers and
    the ten checks before it pass, the answer decides the verdict: a truthy
    [invalidityReasons] makes it Invalid whatever the rank; otherwise a
    numeric rank makes it Invalid when it is below 25 and Valid when it is 25
    or more. *)
Theorem lookup_answer_decides
    (ext : Externals) (self : OTV) (env : Env) (c : CandidateData)
    (identityHashTable : gmap string Z) (k : string) (invalidityReasons rank_ : JsValue) :
  kusamaStash c = Some k -> k <> "" ->
  axios_get env (kusama_url ext k) = HttpResponse (DataObject invalidityReasons rank_) ->
  Forall passes (take 10 (checks ext self env c identityHashTable)) ->
  let verdict := (checkSingleCandidate ext self env c identityHashTable).1 in
  (truthy invalidityReasons = true ->
   verdict = Resolved (Invalid (name c +:+ " has a kusama node that is invalid: "
                                +:+ ToString ext invalidityReasons)))
  /\ (forall q, truthy invalidityReasons = false -> rank_ = JNumber q ->
        ((q < 25)%Q ->
         verdict = Resolved (Invalid (name c
             +:+ " has a Kusama stash with lower than 25 rank in the Kusama OTV programme: "
             +:+ showNumber ext q +:+ ".")))
        /\ ((25 <= q)%Q -> verdict = Resolved Valid)).
Proof.
  intros Hk Hne Hres Hten verdict. subst verdict.
  rewrite checkSingleCandidate_refines, checks_split_last.
  rewrite (first_failure_app_pass _ _ Hten). cbn [fst].
  rewrite first_failure_cons. unfold check_cross_network. rewrite Hk.
  destruct k as [|a k]; [done|]. rewrite Hres. split.
  - by intros ->.
  - intros q -> ->. cbn [ToNumber Number_lt]. split.
    + intros Hlt. apply Qltb_lt in Hlt. by rewrite Hlt.
    + intros Hge. apply Qltb_ge in Hge. by rewrite Hge.
Qed.

(** ** The identity index and the checker *)

Lemma sharers_cons ext env c l h :
  sharers ext env (c :: l) h
  = (if String.eqb (identityDigest ext env c) h then 1 else 0) + sharers ext env l h.
Proof.
  unfold sharers. cbn [List.filter].
  destruct (String.eqb _ h); cbn [length]; lia.
Qed.

Lemma sharers_nonneg ext env l h : 0 <= sharers ext env l h.
Proof. unfold sharers. lia. Qed.

Lemma sharers_member ext env l c : c ∈ l -> 1 <= sharers ext env l (identityDigest ext env c).
Proof.
  induction 1 as [c l | c c' l _ IH]; rewrite sharers_cons.
  - rewrite String.eqb_refl. pose proof (sharers_nonneg ext env l (identityDigest ext env c)). lia.
  - destruct (String.eqb _ _); lia.
Qed.

Lemma sharers_Permutation ext env l l' h :
  l ≡ₚ l' -> sharers ext env l h = sharers ext env l' h.
Proof.
  induction 1 as [|c l l' _ IH|c c' l|l l' l'' _ IH1 _ IH2];
    rewrite ?sharers_cons; try done; lia.
Qed.

(** The table after counting a list into [m]. *)
Lemma foldl_count_identity_lookup ext env l m h :
  foldl (count_identity ext env) m l !! h
  = if sharers ext env l h =? 0 then m !! h
    else Some (default 0 (m !! h) + sharers ext env l h).
Proof.
  revert m. induction l as [|c l IH]; intros m; [done|].
  cbn [foldl]. rewrite IH, sharers_cons. unfold count_identity.
  fold (identityDigest ext env c). rewrite orZero_default.
  pose proof (sharers_nonneg ext env l h) as Hl.
  destruct (String.eqb_spec (identityDigest ext env c) h) as [-> | Hne].
  - rewrite lookup_insert_eq. cbn [default].
    destruct (Z.eqb_spec (1 + sharers ext env l h) 0); [lia|].
    destruct (Z.eqb_spec (sharers ext env l h) 0) as [-> | H0]; apply (f_equal Some); unfold id; generalize (default 0 (m !! h)); intros; lia.
  - rewrite lookup_insert_ne by done. by rewrite Z.add_0_l.
Qed.

Lemma populate_lookup ext env pool h :
  (populateIdentityHashTable ext env pool).1 !! h
  = if sharers ext env pool h =? 0 then None else Some (sharers ext env pool h).
Proof.
  rewrite populateIdentityHashTable_fold, foldl_count_identity_lookup, lookup_empty.
  by destruct (_ =? 0).
Qed.

(** X7. The identity table maps a digest to the number of candidates of the
    list whose identity has that digest, and holds no entry for a digest of
    no candidate; building it reads the identity of every candidate once,
    in list order, after one log line. *)
Theorem identity_table_counts_sharers
    (ext : Externals) (env : Env) (candidates : list CandidateData) :
  (forall digest,
      (populateIdentityHashTable ext env candidates).1 !! digest
      = if sharers ext env candidates digest =? 0 then None
        else Some (sharers ext env candidates digest))
  /\ (populateIdentityHashTable ext env candidates).2
     = logger_info "(OTV::populateIdentityHashTable) Populating hash table"
       :: map (fun c => chaindata_getIdentity (stash c)) candidates.
Proof.
  split; [intros digest; apply populate_lookup|].
  unfold populateIdentityHashTable. rewrite populate_loop. cbn. by rewrite app_nil_r.
Qed.

(** X8. The identity table does not depend on the order of the candidates:
    two lists that are permutations of one another give the same table. *)
Theorem identity_table_order_independent
    (ext : Externals) (env : Env) (candidates candidates' : list CandidateData) :
  candidates ≡ₚ candidates' ->
  (populateIdentityHashTable ext env candidates).1
  = (populateIdentityHashTable ext env candidates').1.
Proof.
  intros Hp. apply map_eq. intros h.
  by rewrite !populate_lookup, (sharers_Permutation ext env _ _ h Hp).
Qed.

(** X9. With the table built from the pool the candidate belongs to, the
    identity check (when not skipped) lets the candidate through exactly
    when its identity is set and verified and at most two candidates of the
    pool share it: the count-zero branch is never taken.  A candidate whose
    identity is shared by more than two candidates of the pool is never
    Valid: its check returns Invalid, unless the version comparison throws
    before. *)
Theorem shared_identity_rejected
    (ext : Externals) (self : OTV) (env : Env) (pool : list CandidateData)
    (c : CandidateData) :
  c ∈ pool -> skipIdentity self = false ->
  let table := (populateIdentityHashTable ext env pool).1 in
  ((identity_block ext self c env table).1 = Continue tt
   <-> hasIdentity (chaindata env) (stash c) = (true, true)
       /\ sharers ext env pool (identityDigest ext env c) <= 2)
  /\ (2 < sharers ext env pool (identityDigest ext env c) ->
      (exists reason,
          (checkSingleCandidate ext self env c table).1 = Resolved (Invalid reason))
      \/ (checkSingleCandidate ext self env c table).1 = Rejected (semver_TypeError ext)).
Proof.
  intros Hin Hskip table.
  pose proof (sharers_member ext env pool c Hin) as Hone.
  assert (passes (check_identity ext self env c table)
          <-> hasIdentity (chaindata env) (stash c) = (true, true)
              /\ sharers ext env pool (identityDigest ext env c) <= 2) as Hid.
  { rewrite passes_identity. subst table. rewrite populate_lookup.
    destruct (Z.eqb_spec (sharers ext env pool (identityDigest ext env c)) 0) as [|Hnz];
      [lia|].
    split.
    - intros H. destruct (H Hskip) as (Hh & n & [= <-] & _ & Hle). done.
    - intros [Hh Hle] _. split; [done|]. eexists. split; [done|]. lia. }
  split.
  - rewrite <- Hid, identity_block_check. unfold passes.
    by destruct (check_identity ext self env c table) as [[|r|e] calls].
  - intros Hmany.
    pose proof (checkSingleCandidate_rejected ext self env c table) as Hrej.
    pose proof (proj1 (checkSingleCandidate_valid ext self env c table)) as Hval.
    rewrite checkSingleCandidate_refines in Hrej, Hval |- *.
    destruct (first_failure_verdict (checks ext self env c table))
      as [Hv | [[reason Hv] | [e Hv]]].
    + apply Hval, Forall_checks in Hv.
      destruct Hv as (_ & _ & _ & _ & Hpass & _). apply Hid in Hpass. lia.
    + left. by exists reason.
    + right. by rewrite Hv, (Hrej e Hv).
Qed.

(** ** The scoring pass, call by call *)

Lemma scoresFrom_fst ext env p i l : map fst (scoresFrom ext env p i l) = l.
Proof. revert i. induction l as [|c l IH]; intros i; simpl; [done|]. by rewrite IH. Qed.

Lemma validCandidatesOf_elem ext self env candidates tbl c :
  c ∈ validCandidatesOf ext self env candidates tbl
  <-> c ∈ candidates /\ (checkSingleCandidate ext self env c tbl).1 = Resolved Valid.
Proof.
  unfold validCandidatesOf. rewrite !list_elem_of_In, filter_In, accepts_valid. done.
Qed.

(** X10. The ranking a pass returns holds exactly the candidates the
    checker accepts, each once: its stashes are a permutation of theirs,
    every entry is the projection of an accepted candidate of the input with
    its score, and every accepted candidate has its entry. *)
Theorem ranking_holds_the_valid
    (ext : Externals) (self : OTV) (env : Env) (candidates : list CandidateData)
    (identityHashTable : gmap string Z)
    (self' : OTV) (ranking : list RankedCandidate) (calls : list Call) :
  getValidCandidates ext self env candidates identityHashTable
  = (Resolved (self', ranking), calls) ->
  map rc_stash ranking
    ≡ₚ map stash (validCandidatesOf ext self env candidates identityHashTable)
  /\ (forall rc, rc ∈ ranking ->
        exists c, c ∈ candidates
                  /\ (checkSingleCandidate ext self env c identityHashTable).1
                     = Resolved Valid
                  /\ rc = rankedCandidate (rc_aggregate rc) c)
  /\ (forall c, c ∈ candidates ->
        (checkSingleCandidate ext self env c identityHashTable).1 = Resolved Valid ->
        exists rc, rc ∈ ranking /\ rc = rankedCandidate (rc_aggregate rc) c).
Proof.
  intros Hrun.
  destruct (getValidCandidates_resolved _ _ _ _ _ _ _ _ Hrun) as (_ & -> & _ & _).
  set (valid := validCandidatesOf ext self env candidates identityHashTable).
  set (scores := scoresFrom ext env (populations valid) 0 valid).
  pose proof (Array_sort_Permutation byTotalDescending
                (map (fun cs : CandidateData * Score => rankedCandidate cs.2 cs.1) scores))
    as Hperm.
  split; [|split].
  - rewrite Hperm.
    replace (map stash valid) with (map stash (map fst scores))
      by (unfold scores; by rewrite scoresFrom_fst).
    by rewrite !map_map.
  - intros rc Hrc. rewrite Hperm in Hrc.
    apply list_elem_of_fmap in Hrc as ([c s] & -> & Hcs).
    exists c. cbn [fst snd rc_aggregate rankedCandidate].
    assert (c ∈ valid) as Hc.
    { rewrite <- (scoresFrom_fst ext env (populations valid) 0 valid). fold scores.
      apply list_elem_of_fmap. by exists (c, s). }
    apply validCandidatesOf_elem in Hc as [? ?]. done.
  - intros c Hin Hv.
    assert (c ∈ valid) as Hc by (by apply validCandidatesOf_elem).
    rewrite <- (scoresFrom_fst ext env (populations valid) 0 valid) in Hc. fold scores in Hc.
    apply list_elem_of_fmap in Hc as ([c' s] & -> & Hcs).
    exists (rankedCandidate s c'). split; [|done].
    rewrite Hperm. apply list_elem_of_fmap. by exists (c', s).
Qed.

(** X11. A pass that returns calls its collaborators in three stages:
    first the checks of the candidates, which only read (and log); then one
    clock read and one metadata write, with the statistics of the valid
    candidates' populations; then, for each valid candidate in input order,
    one random draw, one clock read and the write of its score.  Nothing
    else is called. *)
Theorem pass_calls_in_three_stages
    (ext : Externals) (self : OTV) (env : Env) (candidates : list CandidateData)
    (identityHashTable : gmap string Z)
    (self' : OTV) (ranking : list RankedCandidate) (calls : list Call) :
  getValidCandidates ext self env candidates identityHashTable
  = (Resolved (self', ranking), calls) ->
  let valid := validCandidatesOf ext self env candidates identityHashTable in
  let scores := scoresFrom ext env (populations valid) 0 valid in
  exists checking,
    Forall (fun call => read_call call || lookup_call call = true) checking
    /\ calls
       = logger_info "(OTV::getValidCandidates) Getting candidates" :: checking
         ++ [Date_getTime;
             db_setValidatorScoreMetadata (scoreMetadata ext (populations valid))
               (Date_now env)]
         ++ concat (map (fun cs : CandidateData * Score =>
                           [Math_random_call; Date_getTime;
                            db_setValidatorScore (stash cs.1) cs.2]) scores)
    /\ map fst scores = valid.
Proof.
  intros Hrun valid scores.
  destruct (getValidCandidates_resolved _ _ _ _ _ _ _ _ Hrun)
    as (_ & _ & _ & checking & Hc & Heq).
  exists checking. split; [done|]. split; [exact Heq|]. apply scoresFrom_fst.
Qed.

Lemma first_throw_all_return ext self env tbl candidates :
  (forall c, c ∈ candidates ->
     exists verdict, (checkSingleCandidate ext self env c tbl).1 = Resolved verdict) ->
  first_throw ext self env tbl candidates = None.
Proof.
  intros H. apply first_throw_none. intros c Hc. unfold throws.
  by destruct (H c Hc) as [v ->].
Qed.

(** X12. When the checker rejects every candidate with a reason, and in
    particular on an empty list, the pass returns the empty ranking and
    empties the cache, persists no score and draws no random number, and
    still writes one metadata record, with the statistics of empty
    populations. *)
Theorem pass_without_valid_candidates
    (ext : Externals) (self : OTV) (env : Env) (candidates : list CandidateData)
    (identityHashTable : gmap string Z) :
  (forall c, c ∈ candidates ->
     exists reason,
       (checkSingleCandidate ext self env c identityHashTable).1
       = Resolved (Invalid reason)) ->
  let pass := getValidCandidates ext self env candidates identityHashTable in
  pass.1 = Resolved (set_validCache self [], [])
  /\ validCandidateCache (set_validCache self []) = []
  /\ persistedScores pass.2 = []
  /\ (Math_random_call ∉ pass.2)
  /\ persistedMetadata pass.2 = [(scoreMetadata ext (populations []), Date_now env)].
Proof.
  intros Hnone pass. subst pass.
  assert (validCandidatesOf ext self env candidates identityHashTable = []) as Hvalid.
  { unfold validCandidatesOf. induction candidates as [|c l IH]; [done|].
    cbn [List.filter]. unfold accepts at 1.
    destruct (Hnone c (list_elem_of_here _ _)) as [reason ->]. cbn.
    apply IH. intros c' Hc'. apply Hnone. by apply list_elem_of_further. }
  assert (first_throw ext self env identityHashTable candidates = None) as Hthrow.
  { apply first_throw_all_return. intros c Hc. destruct (Hnone c Hc) as [reason ->].
    by eexists. }
  destruct (getValidCandidates_result ext self env candidates identityHashTable)
    as (checking & Hc & Heq).
  rewrite Hthrow, Hvalid in Heq. cbn in Heq. rewrite Heq. cbn [fst snd].
  split; [done|]. split; [done|].
  assert (forall P : Call -> Prop,
            (forall call, read_call call || lookup_call call = true -> P call) ->
            Forall P checking) as Hall.
  { intros P HP. eapply Forall_impl; [exact Hc|exact HP]. }
  split; [|split].
  - rewrite persistedScores_cons, persistedScores_app, (persistedScores_checking _ Hc).
    done.
  - rewrite not_elem_of_cons. split; [done|]. rewrite not_elem_of_app. split.
    + intros Hin. pose proof (Hall (fun call => call <> Math_random_call)) as HP.
      rewrite Forall_forall in HP. by apply (HP ltac:(by intros []) _ Hin).
    + rewrite !not_elem_of_cons. repeat split; try done. apply not_elem_of_nil.
  - rewrite app_comm_cons, persistedMetadata_app.
    change (logger_info "(OTV::getValidCandidates) Getting candidates" :: checking)
      with ([logger_info "(OTV::getValidCandidates) Getting candidates"] ++ checking).
    by rewrite persistedMetadata_app, (persistedMetadata_checking _ Hc).
Qed.

(** ** The order of the ranking and the range of the scores *)

Lemma adjacent_pairwise (l : list RankedCandidate) :
  adjacent total_ge l ->
  forall i j a b, (i < j)%nat -> l !! i = Some a -> l !! j = Some b -> total_ge a b.
Proof.
  intros Hadj i j. induction j as [|j IH]; intros a b Hij Ha Hb; [lia|].
  destruct (decide (i = j)) as [-> | Hne]; [by apply (Hadj j)|].
  assert (is_Some (l !! j)) as [x Hx].
  { apply lookup_lt_is_Some. apply lookup_lt_Some in Hb. lia. }
  assert (total_ge a x) as H1 by (apply IH; [lia|done|done]).
  assert (total_ge x b) as H2 by (by apply (Hadj j)).
  unfold total_ge in *. by apply (Qle_trans _ _ _ H2).
Qed.

(** X13. The ranking a pass returns is descending by total throughout:
    of any two entries, the one ranked above has at least the total of the
    one ranked below. *)
Theorem ranking_descending_throughout
    (ext : Externals) (self : OTV) (env : Env) (candidates : list CandidateData)
    (identityHashTable : gmap string Z)
    (self' : OTV) (ranking : list RankedCandidate) (calls : list Call)
    (i j : nat) (above below : RankedCandidate) :
  getValidCandidates ext self env candidates identityHashTable
  = (Resolved (self', ranking), calls) ->
  (i < j)%nat -> ranking !! i = Some above -> ranking !! j = Some below ->
  (total (rc_aggregate below) <= total (rc_aggregate above))%Q.
Proof.
  intros Hrun Hij Ha Hb.
  apply (adjacent_pairwise ranking) with i j; try done.
  destruct (getValidCandidates_resolved _ _ _ _ _ _ _ _ Hrun) as (_ & -> & _ & _).
  apply Array_sort_total_ge.
Qed.

Lemma orZeroQ_eq x : (orZeroQ x == x)%Q.
Proof.
  unfold orZeroQ. destruct (Qeq_bool x 0) eqn:H; [|reflexivity].
  apply Qeq_bool_eq in H. by rewrite H.
Qed.

Lemma orZeroZ_eq x : orZeroZ x = inject_Z x.
Proof. unfold orZeroZ. by destruct (Z.eqb_spec x 0) as [-> |]. Qed.

Lemma member_scaled (ext : Externals) (f : CandidateData -> Q) (v : Q)
    (valid : list CandidateData) c :
  scaled_in_unit ext -> c ∈ valid -> (f c == v)%Q ->
  (0 <= scaled ext v (map f valid) <= 1)%Q.
Proof.
  intros Hs Hin Heq. apply Hs. exists (f c). split; [|done].
  apply in_map. by apply list_elem_of_In.
Qed.

Lemma computeScore_within_weights ext valid c (random : Q) now :
  scaled_in_unit ext -> c ∈ valid ->
  (0 <= random)%Q -> (random <= 1)%Q ->
  within_weights (computeScore ext (populations valid) c random now).
Proof.
  intros Hs Hin H0 H1.
  pose proof (member_scaled ext (fun c => orZeroQ (inclusion c)) (inclusion c) valid c
                Hs Hin (orZeroQ_eq _)) as Hinc.
  pose proof (member_scaled ext (fun c => orZeroQ (spanInclusion c)) (spanInclusion c)
                valid c Hs Hin (orZeroQ_eq _)) as Hspan.
  pose proof (member_scaled ext (fun c => orZeroZ (discoveredAt c))
                (inject_Z (discoveredAt c)) valid c Hs Hin
                ltac:(cbv beta; by rewrite orZeroZ_eq)) as Hdisc.
  pose proof (member_scaled ext (fun c => orZeroZ (nominatedAt c))
                (inject_Z (nominatedAt c)) valid c Hs Hin
                ltac:(cbv beta; by rewrite orZeroZ_eq)) as Hnom.
  pose proof (member_scaled ext (fun c => orZeroZ (rank c))
                (inject_Z (rank c)) valid c Hs Hin
                ltac:(cbv beta; by rewrite orZeroZ_eq)) as Hrank.
  pose proof (member_scaled ext (fun c => orZeroZ (offlineAccumulated c))
                (inject_Z (offlineAccumulated c)) valid c Hs Hin
                ltac:(cbv beta; by rewrite orZeroZ_eq)) as Hoff.
  pose proof (member_scaled ext (fun c => orZeroZ (faults c))
                (inject_Z (faults c)) valid c Hs Hin
                ltac:(cbv beta; by rewrite orZeroZ_eq)) as Hfaults.
  assert (forall eras, unclaimedEras c = Some eras ->
            (0 <= scaled ext (inject_Z (Z.of_nat (length eras)))
                    (map unclaimedCount valid) <= 1)%Q) as Hunc.
  { intros eras He. apply (member_scaled ext unclaimedCount _ valid c Hs Hin).
    unfold unclaimedCount. rewrite He.
    by destruct (Z.eqb_spec (Z.of_nat (length eras)) 0) as [-> |]. }
  assert (forall b, bonded c = Some b ->
            (0 <= scaled ext (inject_Z b)
                    (map (fun c => inject_Z (orZero (bonded c))) valid) <= 1)%Q) as Hbond.
  { intros b Hb.
    apply (member_scaled ext (fun c => inject_Z (orZero (bonded c))) _ valid c Hs Hin).
    rewrite Hb. cbn [orZero]. by destruct (Z.eqb_spec b 0) as [-> |]. }
  unfold within_weights, computeScore, populations, weight_sum,
    INCLUSION_WEIGHT, SPAN_INCLUSION_WEIGHT, DISCOVERED_WEIGHT, NOMINATED_WEIGHT,
    RANK_WEIGHT, UNCLAIMED_WEIGHT, BONDED_WEIGHT, FAULTS_WEIGHT, OFFLINE_WEIGHT.
  cbn [aggregate total randomness score_inclusion score_spanInclusion score_discovered
       score_nominated score_rank score_unclaimed score_bonded score_faults score_offline
       inclusionValues spanInclusionValues discoveredAtValues nominatedAtValues
       rankValues unclaimedValues bondedValues offlineValues faultsValues].
  set (s1 := scaled ext (inclusion c) _) in *.
  set (s2 := scaled ext (spanInclusion c) _) in *.
  set (s3 := scaled ext (inject_Z (discoveredAt c)) _) in *.
  set (s4 := scaled ext (inject_Z (nominatedAt c)) _) in *.
  set (s5 := scaled ext (inject_Z (rank c)) _) in *.
  set (s8 := scaled ext (inject_Z (offlineAccumulated c)) _) in *.
  set (s9 := scaled ext (inject_Z (faults c)) _) in *.
  set (s6 := match unclaimedEras c with
             | Some eras => scaled ext (inject_Z (Z.of_nat (length eras))) _
             | None => 0%Q
             end).
  assert (0 <= s6 <= 1)%Q as H6.
  { subst s6. destruct (unclaimedEras c) as [eras|]; [by apply Hunc|lra]. }
  set (s7 := match bonded c with
             | Some b => if Qeq_bool (scaled ext (inject_Z b) _) 0 then 0%Q
                         else (scaled ext (inject_Z b) _ * 13)%Q
             | None => 0%Q
             end).
  assert (0 <= s7 <= 13)%Q as H7.
  { subst s7. destruct (bonded c) as [b|]; [|lra].
    specialize (Hbond b eq_refl). destruct (Qeq_bool _ 0); lra. }
  clearbody s1 s2 s3 s4 s5 s6 s7 s8 s9.
  set (agg := ((1 - s1) * 5 + (1 - s2) * 40 + (1 - s9) * 5 + (1 - s3) * 5
               + (1 - s4) * 35 + s5 * 5 + (1 - s6) * 15 + s7 + (1 - s8) * 2)%Q).
  assert (0 <= agg <= 125)%Q as Hagg by (subst agg; lra).
  clearbody agg.
  assert (0 <= agg * (random * (5 # 100)))%Q by (apply Qmult_le_0_compat; lra).
  assert (0 <= (125 - agg) * (1 + random * (5 # 100)))%Q
    by (apply Qmult_le_0_compat; lra).
  repeat split; lra.
Qed.

Lemma scoresFrom_within_weights ext env valid i l :
  scaled_in_unit ext -> draws_in_unit env ->
  (forall c, c ∈ l -> c ∈ valid) ->
  Forall within_weights (map snd (scoresFrom ext env (populations valid) i l)).
Proof.
  intros Hs Hr. revert i. induction l as [|c l IH]; intros i Hsub; simpl; constructor.
  - apply computeScore_within_weights; [done|apply Hsub, list_elem_of_here|apply Hr|].
    apply Qlt_le_weak, Hr.
  - apply IH. intros c' Hc'. by apply Hsub, list_elem_of_further.
Qed.

(** X14. When [scaled] maps the members of a population into [0, 1] and the
    draws lie in [0, 1), every score a pass persists or caches has its nine
    sub-scores between 0 and their weights (5, 40, 5, 35, 5, 15, 13, 5, 2),
    its aggregate between 0 and 125, and its total between 0 and 131.25,
    the bounds included. *)
Theorem scores_within_weights
    (ext : Externals) (self : OTV) (env : Env) (candidates : list CandidateData)
    (identityHashTable : gmap string Z) :
  scaled_in_unit ext -> draws_in_unit env ->
  let pass := getValidCandidates ext self env candidates identityHashTable in
  Forall within_weights (persistedScores pass.2)
  /\ (forall self' ranking,
        pass.1 = Resolved (self', ranking) ->
        Forall within_weights (cachedScores (validCache self')))
  /\ (weight_sum == INCLUSION_WEIGHT + SPAN_INCLUSION_WEIGHT + DISCOVERED_WEIGHT
                     + NOMINATED_WEIGHT + RANK_WEIGHT + UNCLAIMED_WEIGHT + BONDED_WEIGHT
                     + FAULTS_WEIGHT + OFFLINE_WEIGHT)%Q.
Proof.
  intros Hs Hr pass. subst pass.
  set (valid := validCandidatesOf ext self env candidates identityHashTable).
  pose proof (scoresFrom_within_weights ext env valid 0 valid Hs Hr ltac:(done)) as Hall.
  split; [|split; [|done]].
  - rewrite getValidCandidates_persisted.
    by destruct (first_throw ext self env identityHashTable candidates).
  - intros self' ranking Hrun.
    destruct (getValidCandidates ext self env candidates identityHashTable)
      as [result calls] eqn:Hpass.
    cbn [fst] in Hrun. subst result.
    destruct (getValidCandidates_resolved _ _ _ _ _ _ _ _ Hpass) as (_ & -> & -> & _).
    cbn [set_validCache validCache].
    unfold cachedScores. rewrite Forall_forall in Hall |- *.
    intros s Hin. apply list_elem_of_fmap in Hin as (rc & -> & Hrc).
    rewrite Array_sort_Permutation in Hrc.
    apply list_elem_of_fmap in Hrc as ([c s] & -> & Hcs).
    apply Hall. apply list_elem_of_fmap. by exists (c, s).
Qed.

(** ** getInvalidCandidates *)

Lemma invalidEntry_run ext self env tbl c :
  invalidEntry ext self env tbl c
  = (match (checkSingleCandidate ext self env c tbl).1 with
     | Resolved _ => Resolved (rejection ext self env tbl c)
     | Rejected e => Rejected e
     end,
     (checkSingleCandidate ext self env c tbl).2).
Proof.
  unfold invalidEntry, await_throwing, rejection.
  destruct (checkSingleCandidate ext self env c tbl) as [[[[|] reason]|e] t]; simpl;
    by rewrite ?app_nil_r.
Qed.

Lemma Promise_all_entries ext self env tbl candidates :
  Promise_all (map fst (map (invalidEntry ext self env tbl) candidates))
  = match first_throw ext self env tbl candidates with
    | None => Resolved (map (rejection ext self env tbl) candidates)
    | Some e => Rejected e
    end.
Proof.
  induction candidates as [|c l IH]; [done|].
  cbn [map first_throw Promise_all]. rewrite invalidEntry_run. cbn [fst].
  destruct (checkSingleCandidate ext self env c tbl).1 as [v|e]; [|done].
  rewrite IH. by destruct (first_throw ext self env tbl l).
Qed.

Lemma omap_id_map {A B} (f : A -> option B) (l : list A) : omap id (map f l) = omap f l.
Proof.
  induction l as [|x l IH]; [done|]. cbn [map omap list_omap]. unfold id at 1.
  destruct (f x); by rewrite <- IH.
Qed.

(** What the method returns and caches: when no check throws, the report of
    the rejected candidates; when one throws, its error. *)
Lemma getInvalidCandidates_result ext self env candidates tbl :
  let report := omap (rejection ext self env tbl) candidates in
  getInvalidCandidates ext self env candidates tbl
  = (match first_throw ext self env tbl candidates with
     | None => Resolved (set_invalidCache self (map snd report), report)
     | Some e => Rejected e
     end,
     map (fun c => (checkSingleCandidate ext self env c tbl).2) candidates).
Proof.
  intros report. unfold getInvalidCandidates. rewrite Promise_all_entries. f_equal.
  - destruct (first_throw ext self env tbl candidates); [done|].
    subst report. by rewrite omap_id_map.
  - rewrite map_map. apply map_ext. intros c. by rewrite invalidEntry_run.
Qed.

(** With no check throwing, the report lists the candidates the checker
    does not accept, each with its stash and the reason of its verdict. *)
Lemma report_rejected ext self env tbl candidates :
  first_throw ext self env tbl candidates = None ->
  Forall2 (fun c (entry : string * string) =>
             entry.1 = stash c
             /\ (checkSingleCandidate ext self env c tbl).1 = Resolved (Invalid entry.2))
    (List.filter (fun c => negb (accepts ext self env tbl c)) candidates)
    (omap (rejection ext self env tbl) candidates).
Proof.
  induction candidates as [|c l IH]; cbn [first_throw List.filter]; [constructor|].
  unfold accepts at 1, rejection at 1.
  destruct (checkSingleCandidate ext self env c tbl).1 as [[[|] reason]|e] eqn:Hc;
    [|intros Ht..|done]; cbn [negb omap list_omap].
  - intros Ht. rewrite Hc. by apply IH.
  - rewrite Hc. constructor; [done|]. by apply IH.
Qed.

Lemma scoresFrom_length ext env p i l : length (scoresFrom ext env p i l) = length l.
Proof. by rewrite <- (scoresFrom_fst ext env p i l) at 2; rewrite length_map. Qed.

Lemma filter_complement_length {A} (f : A -> bool) (l : list A) :
  (length (List.filter (fun x => negb (f x)) l) + length (List.filter f l) = length l)%nat.
Proof.
  induction l as [|x l IH]; [done|]. cbn [List.filter length].
  destruct (f x); cbn [negb length]; lia.
Qed.

(** X15. When getInvalidCandidates returns, it reports exactly the
    candidates the checker does not accept, in input order, each with its
    stash and the checker's reason; it stores the reasons in the invalid
    cache and leaves the configuration and the valid cache alone; every
    candidate is checked once, accepted or not. *)
Theorem getInvalidCandidates_reports_rejected
    (ext : Externals) (self : OTV) (env : Env) (candidates : list CandidateData)
    (identityHashTable : gmap string Z)
    (self' : OTV) (reported : list (string * string)) :
  let check c := checkSingleCandidate ext self env c identityHashTable in
  let result := getInvalidCandidates ext self env candidates identityHashTable in
  result.1 = Resolved (self', reported) ->
  Forall2 (fun c (entry : string * string) =>
             entry.1 = stash c /\ (check c).1 = Resolved (Invalid entry.2))
    (List.filter (fun c => negb (accepts ext self env identityHashTable c)) candidates)
    reported
  /\ self' = set_invalidCache self (map snd reported)
  /\ invalidCandidateCache self' = map snd reported
  /\ validCandidateCache self' = validCandidateCache self
  /\ result.2 = map (fun c => (check c).2) candidates.
Proof.
  intros check result. subst check result.
  rewrite getInvalidCandidates_result. cbn [fst snd].
  destruct (first_throw ext self env identityHashTable candidates) eqn:Ht; [done|].
  intros [= <- <-]. split; [by apply report_rejected|]. done.
Qed.

(** X16. On the same engine, chain and table, getInvalidCandidates and
    getValidCandidates, when they return, split the candidates between
    them: the number of reported candidates and the length of the ranking
    add up to the number of candidates, and the stash of every candidate is
    reported or ranked. *)
Theorem reported_or_ranked
    (ext : Externals) (self : OTV) (env : Env) (candidates : list CandidateData)
    (identityHashTable : gmap string Z)
    (self1 self2 : OTV) (reported : list (string * string))
    (ranking : list RankedCandidate) (calls : list Call) :
  (getInvalidCandidates ext self env candidates identityHashTable).1
  = Resolved (self1, reported) ->
  getValidCandidates ext self env candidates identityHashTable
  = (Resolved (self2, ranking), calls) ->
  (length reported + length ranking = length candidates)%nat
  /\ (forall c, c ∈ candidates ->
        (exists reason, (stash c, reason) ∈ reported) \/ stash c ∈ map rc_stash ranking).
Proof.
  intros Hreport Hrun.
  destruct (getValidCandidates_resolved _ _ _ _ _ _ _ _ Hrun) as (Ht & -> & _ & _).
  rewrite getInvalidCandidates_result, Ht in Hreport. cbn [fst] in Hreport.
  injection Hreport as _ <-.
  pose proof (report_rejected ext self env identityHashTable candidates Ht) as Hrep.
  set (valid := validCandidatesOf ext self env candidates identityHashTable).
  split.
  - rewrite <- (Forall2_length _ _ _ Hrep).
    rewrite (Permutation_length (Array_sort_Permutation _ _)), !length_map.
    rewrite scoresFrom_length. subst valid. unfold validCandidatesOf.
    apply filter_complement_length.
  - intros c Hin.
    destruct (accepts ext self env identityHashTable c) eqn:Hv.
    + right. rewrite Array_sort_Permutation, map_map. cbn [rankedCandidate rc_stash].
      assert (c ∈ valid) as Hc.
      { apply validCandidatesOf_elem. split; [done|]. by apply accepts_valid. }
      rewrite <- (scoresFrom_fst ext env (populations valid) 0 valid) in Hc.
      apply list_elem_of_fmap in Hc as ([c' s] & -> & Hcs).
      apply list_elem_of_fmap. by exists (c', s).
    + left.
      assert (exists reason, rejection ext self env identityHashTable c = Some (stash c, reason))
        as [reason Hr].
      { pose proof (proj1 (first_throw_none ext self env identityHashTable candidates) Ht c Hin)
          as Hnothrow.
        unfold throws in Hnothrow. unfold accepts in Hv. unfold rejection.
        destruct (checkSingleCandidate ext self env c identityHashTable).1
          as [[[|] reason]|e]; try done. by exists reason. }
      exists reason. apply list_elem_of_omap. by exists c.
Qed.

(** The checker does not read the caches. *)
Lemma first_throw_cache ext self env tbl ranking candidates :
  first_throw ext (set_validCache self ranking) env tbl candidates
  = first_throw ext self env tbl candidates.
Proof.
  induction candidates as [|c l IH]; [done|]. cbn [first_throw]. rewrite IH.
  reflexivity.
Qed.

Lemma getValidCandidates_after_report
    ext self env candidates tbl reasons self2 ranking calls :
  getValidCandidates ext self env candidates tbl = (Resolved (self2, ranking), calls) ->
  getValidCandidates ext (set_invalidCache self reasons) env candidates tbl
  = (Resolved (set_validCache (set_invalidCache self reasons) ranking, ranking), calls).
Proof.
  intros Hrun.
  destruct (getValidCandidates_resolved _ _ _ _ _ _ _ _ Hrun) as (Ht & _ & _ & _).
  revert Hrun. unfold getValidCandidates.
  change (collectValid ext (set_invalidCache self reasons) env candidates tbl)
    with (collectValid ext self env candidates tbl).
  unfold collectValid, scoreAll.
  destruct (collectValid_loop ext self env tbl candidates []) as (calls1 & _ & ->).
  rewrite Ht. unfold mbind, Eff_bind, eff_bind, await. cbn [app].
  rewrite (scoreAll_loop ext env _ _ []). cbn [run return_ fst snd app length].
  by intros [= _ <- <-].
Qed.

Lemma getInvalidCandidates_after_pass ext self env candidates tbl ranking :
  getInvalidCandidates ext (set_validCache self ranking) env candidates tbl
  = (match (getInvalidCandidates ext self env candidates tbl).1 with
     | Resolved (self1, reported) =>
         Resolved (set_invalidCache (set_validCache self ranking) (map snd reported),
                   reported)
     | Rejected e => Rejected e
     end,
     (getInvalidCandidates ext self env candidates tbl).2).
Proof.
  rewrite !getInvalidCandidates_result, first_throw_cache. cbn [fst snd].
  by destruct (first_throw ext self env tbl candidates).
Qed.

(** X17. The two cache-filling methods do not disturb one another: the
    verdicts do not depend on the caches, so calling getInvalidCandidates
    and then getValidCandidates, or the two in the other order, gives the
    same report, the same ranking, and the same engine, whose caches hold
    the reasons and the ranking. *)
Theorem cache_fills_commute
    (ext : Externals) (self : OTV) (env : Env) (candidates : list CandidateData)
    (identityHashTable : gmap string Z)
    (self1 self2 : OTV) (reported : list (string * string))
    (ranking : list RankedCandidate) (calls1 : list (list Call)) (calls2 : list Call) :
  getInvalidCandidates ext self env candidates identityHashTable
  = (Resolved (self1, reported), calls1) ->
  getValidCandidates ext self env candidates identityHashTable
  = (Resolved (self2, ranking), calls2) ->
  exists self12,
    getValidCandidates ext self1 env candidates identityHashTable
    = (Resolved (self12, ranking), calls2)
    /\ getInvalidCandidates ext self2 env candidates identityHashTable
       = (Resolved (self12, reported), calls1)
    /\ invalidCandidateCache self12 = map snd reported
    /\ validCandidateCache self12 = ranking.
Proof.
  intros Hreport Hrun.
  destruct (getValidCandidates_resolved _ _ _ _ _ _ _ _ Hrun) as (Ht & _ & Hself2 & _).
  pose proof Hreport as Hreport'.
  rewrite getInvalidCandidates_result, Ht in Hreport'.
  injection Hreport' as Hself1 Hreported _.
  exists (set_validCache self1 ranking).
  split; [|split; [|split]].
  - rewrite <- Hself1. by apply getValidCandidates_after_report with self2.
  - rewrite Hself2, getInvalidCandidates_after_pass, Hreport. cbn [fst snd].
    by rewrite <- Hself1, Hreported.
  - by rewrite <- Hself1, Hreported.
  - done.
Qed.

Lemma getValidCandidates_returns ext self env candidates tbl :
  first_throw ext self env tbl candidates = None ->
  exists ranking calls,
    getValidCandidates ext self env candidates tbl
    = (Resolved (set_validCache self ranking, ranking), calls).
Proof.
  intros Ht. destruct (getValidCandidates_result ext self env candidates tbl)
    as (checking & _ & Hrun).
  rewrite Ht in Hrun. by eexists _, _.
Qed.

Lemma getInvalidCandidates_returns ext self env candidates tbl :
  first_throw ext self env tbl candidates = None ->
  exists reported calls,
    getInvalidCandidates ext self env candidates tbl
    = (Resolved (set_invalidCache self (map snd reported), reported), calls).
Proof. intros Ht. rewrite getInvalidCandidates_result, Ht. by eexists _, _. Qed.

(** X23. Both cache-filling methods return exactly when the check of every
    candidate returns.  When the check of some candidate throws (its
    version comparison, the one throw of the checker), getValidCandidates
    throws the same error after the checks made so far: it persists no
    score and no score metadata and draws no random number;
    getInvalidCandidates throws it as well, and neither returns an engine
    with a new cache. *)
Theorem throwing_check_aborts
    (ext : Externals) (self : OTV) (env : Env) (candidates : list CandidateData)
    (identityHashTable : gmap string Z) :
  let check c := (checkSingleCandidate ext self env c identityHashTable).1 in
  let pass := getValidCandidates ext self env candidates identityHashTable in
  let report := getInvalidCandidates ext self env candidates identityHashTable in
  ((forall c, c ∈ candidates -> exists verdict, check c = Resolved verdict) ->
   exists ranking reported,
     pass.1 = Resolved (set_validCache self ranking, ranking)
     /\ report.1 = Resolved (set_invalidCache self (map snd reported), reported))
  /\ (forall c e, c ∈ candidates -> check c = Rejected e ->
        pass.1 = Rejected (semver_TypeError ext)
        /\ report.1 = Rejected (semver_TypeError ext)
        /\ persistedScores pass.2 = []
        /\ persistedMetadata pass.2 = []
        /\ (Math_random_call ∉ pass.2)).
Proof.
  intros check pass report. subst check pass report. split.
  - intros Hall. pose proof (first_throw_all_return _ _ _ _ _ Hall) as Ht.
    destruct (getValidCandidates_returns _ _ _ _ _ Ht) as (ranking & calls & ->).
    destruct (getInvalidCandidates_returns _ _ _ _ _ Ht) as (reported & calls' & ->).
    by exists ranking, reported.
  - intros c e Hin Hrej.
    destruct (first_throw ext self env identityHashTable candidates) as [e'|] eqn:Ht.
    2: { rewrite first_throw_none in Ht. specialize (Ht c Hin). unfold throws in Ht.
         by rewrite Hrej in Ht. }
    destruct (first_throw_some _ _ _ _ _ _ Ht) as (-> & _).
    destruct (getValidCandidates_result ext self env candidates identityHashTable)
      as (checking & Hc & Hrun).
    rewrite getValidCandidates_persisted, Hrun, getInvalidCandidates_result, Ht.
    cbn [fst snd]. split; [done|]. split; [done|]. split; [done|]. split.
    + change (logger_info "(OTV::getValidCandidates) Getting candidates" :: checking)
        with ([logger_info "(OTV::getValidCandidates) Getting candidates"] ++ checking).
      by rewrite persistedMetadata_app, (persistedMetadata_checking _ Hc).
    + rewrite not_elem_of_cons. split; [done|]. intros Hrandom.
      rewrite Forall_forall in Hc. by specialize (Hc _ Hrandom).
Qed.

(** ** processCandidates *)

Lemma round_retained ext self env c :
  exists reason,
    (first_failure (round_checks ext self env c)).1
    = Resolved (retained self env c, reason).
Proof.
  unfold round_checks, first_failure, retained. cbn [foldr].
  unfold round_commission, round_self_stake, round_destination, round_uptime.
  destruct (getCommission _ _) as [value [e|]]; [by eexists|].
  destruct (Z.leb_spec (nullToNumber value) (commission self));
    destruct (bool_decide_reflect (nullToNumber value > commission self));
    try (exfalso; lia); [|by eexists].
  pose proof (too_much_downtime_false c) as Hd.
  assert ((offlineAccumulated c <=? downtime_allowance) = negb (too_much_downtime c)) as ->.
  { destruct (too_much_downtime c) eqn:Ht.
    - apply too_much_downtime_iff in Ht. simpl. apply Z.leb_gt. lia.
    - simpl. apply Z.leb_le. by apply Hd. }
  destruct (skipSelfStake c); simpl.
  - destruct (skipStakedDesitnation self); simpl.
    + destruct (too_much_downtime c); by eexists.
    + destruct (destinationIsStaked _ _); simpl; [|by eexists].
      destruct (too_much_downtime c); by eexists.
  - destruct (getBondedAmount _ _) as [bondedAmt [e|]]; [by eexists|]. simpl.
    destruct (Z.leb_spec (minSelfStake self) (nullToNumber bondedAmt));
      destruct (bool_decide_reflect (nullToNumber bondedAmt < minSelfStake self));
      try (exfalso; lia); simpl; [|by eexists].
    destruct (skipStakedDesitnation self); simpl.
    + destruct (too_much_downtime c); by eexists.
    + destruct (destinationIsStaked _ _); simpl; [|by eexists].
      destruct (too_much_downtime c); by eexists.
Qed.

Lemma round_reason_names_candidate ext self env c reason :
  (first_failure (round_checks ext self env c)).1 = Resolved (Invalid reason) ->
  exists rest, reason = name c +:+ " " +:+ rest.
Proof.
  intros H. apply first_failure_invalid in H as (o & Ho & Hr). revert Ho Hr.
  unfold round_checks. rewrite !elem_of_cons, elem_of_nil.
  unfold round_commission, round_self_stake, round_destination, round_uptime.
  intros [-> | [-> | [-> | [-> | []]]]];
    repeat case_match; simplify_eq/=; intros; simplify_eq; eexists; reflexivity.
Qed.

(** The two sets after a run of turns. *)
Lemma partition_fold ext self env l s :
  let s' := foldl (partition_turn ext self env) s l in
  s'.1 = s.1 ++ List.filter (retained self env) (nonNull l)
  /\ map fst s'.2
     = map fst s.2 ++ List.filter (fun c => negb (retained self env c)) (nonNull l)
  /\ (forall c reason, (c, reason) ∈ s'.2 ->
        (c, reason) ∈ s.2 \/ exists rest, reason = name c +:+ " " +:+ rest).
Proof.
  revert s. induction l as [|entry l IH]; intros s; cbn zeta.
  - cbn. rewrite !app_nil_r. split; [done|]. split; [done|]. by left.
  - cbn [foldl]. destruct (IH (partition_turn ext self env s entry)) as (H1 & H2 & H3).
    cbn zeta in H1, H2, H3. rewrite H1, H2. clear H1 H2.
    destruct entry as [c|]; [|split; [done|split; [done|exact H3]]].
    unfold nonNull. cbn [omap list_omap id]. fold (nonNull l).
    cbn [List.filter]. unfold partition_turn in *.
    destruct (round_retained ext self env c) as (reason & Hv). rewrite Hv in *.
    destruct (retained self env c); cbn [fst snd add_good add_bad negb] in *.
    + split; [by rewrite <- app_assoc|]. split; [done|exact H3].
    + split; [done|]. split; [by rewrite map_app, <- app_assoc|].
      intros c' reason' Hin. destruct (H3 c' reason' Hin) as [Hold | Hnew]; [|by right].
      apply elem_of_app in Hold as [Hold | Hold]; [by left|].
      apply list_elem_of_singleton in Hold as [= -> ->]. right.
      by apply (round_reason_names_candidate ext self env c).
Qed.

(** X18. When the era read succeeds, processCandidates sorts every non-null
    entry into exactly one of the two sets: [good] holds, in input order,
    the candidates whose commission and bonded-amount reads succeed within
    the limits, whose rewards are staked and who were offline for at most 2%
    of a week (the skip flags switching their rules off); [bad] holds the
    others, in input order, each with a reason that begins with its name;
    null entries are in neither set. *)
Theorem processCandidates_partitions
    (ext : Externals) (self : OTV) (env : Env) (candidates : list (option CandidateData))
    (era : option Z) :
  getActiveEraIndex (chaindata env) = (era, None) ->
  exists good bad calls,
    processCandidates ext self env candidates = (Resolved (good, bad), calls)
    /\ good = List.filter (retained self env) (nonNull candidates)
    /\ map fst bad
       = List.filter (fun c => negb (retained self env c)) (nonNull candidates)
    /\ (length good + length bad = length (nonNull candidates))%nat
    /\ (forall c reason, (c, reason) ∈ bad ->
          exists rest, reason = name c +:+ " " +:+ rest).
Proof.
  intros Hera. rewrite processCandidates_result, Hera. cbn [snd].
  destruct (partition_fold ext self env candidates ([], [])) as (H1 & H2 & H3).
  cbn zeta in H1, H2, H3.
  destruct (foldl (partition_turn ext self env) ([], []) candidates) as [good bad].
  cbn [fst snd map app] in H1, H2, H3.
  exists good, bad. eexists. split; [done|]. split; [done|]. split; [done|]. split.
  - rewrite <- (length_map fst bad), H1, H2.
    pose proof (filter_complement_length (retained self env) (nonNull candidates)). lia.
  - intros c reason Hin. destruct (H3 c reason Hin) as [Hnil | ?]; [|done].
    by apply elem_of_nil in Hnil.
Qed.

Lemma eligible_retained ext self env c tbl :
  eligible ext self env c tbl -> retained self env c = true.
Proof.
  intros (_ & _ & _ & _ & _ & E6 & E7 & E8 & E9 & _). unfold retained.
  destruct E8 as (value & -> & Hle).
  rewrite (proj2 (Z.leb_le _ _) Hle), (proj2 (Z.leb_le _ _) E6). cbn [andb].
  rewrite andb_true_r. apply andb_true_intro. split.
  - destruct (skipSelfStake c); [done|]. destruct (E9 eq_refl) as (b & -> & Hb).
    by apply Z.leb_le.
  - destruct (skipStakedDesitnation self); [done|]. by apply E7.
Qed.

Lemma nonNull_elem (candidates : list (option CandidateData)) c :
  c ∈ nonNull candidates <-> Some c ∈ candidates.
Proof.
  unfold nonNull. rewrite list_elem_of_omap. split.
  - by intros ([c'|] & Hin & [= ->]).
  - intros Hin. by exists (Some c).
Qed.

(** X19. Admission implies retention: a candidate the single-candidate
    checker finds Valid is kept in the good set, and is not in the bad set,
    when processCandidates runs on the same engine and chain with the
    candidate in the cohort. *)
Theorem admitted_is_retained
    (ext : Externals) (self : OTV) (env : Env) (candidates : list (option CandidateData))
    (identityHashTable : gmap string Z) (era : option Z) (c : CandidateData) :
  getActiveEraIndex (chaindata env) = (era, None) ->
  Some c ∈ candidates ->
  (checkSingleCandidate ext self env c identityHashTable).1 = Resolved Valid ->
  exists good bad calls,
    processCandidates ext self env candidates = (Resolved (good, bad), calls)
    /\ c ∈ good
    /\ c ∉ map fst bad.
Proof.
  intros Hera Hin Hvalid.
  assert (retained self env c = true) as Hret.
  { apply (eligible_retained ext self env c identityHashTable).
    apply eligible_checks, checkSingleCandidate_valid. by rewrite Hvalid. }
  rewrite processCandidates_result, Hera. cbn [snd].
  destruct (partition_fold ext self env candidates ([], [])) as (H1 & H2 & _).
  cbn zeta in H1, H2.
  destruct (foldl (partition_turn ext self env) ([], []) candidates) as [good bad].
  cbn [fst snd map app] in H1, H2.
  exists good, bad. eexists. split; [done|]. rewrite H1, H2. split.
  - apply list_elem_of_In, filter_In. split; [|done].
    by apply list_elem_of_In, nonNull_elem.
  - intros Hbad. apply list_elem_of_In, filter_In in Hbad as [_ Hbad].
    by rewrite Hret in Hbad.
Qed.

Lemma partition_calls_round ext self env entry :
  Forall (fun call => round_call call = true) (partition_calls ext self env entry)
  /\ (length (partition_calls ext self env entry) <= 4)%nat
  /\ (skipStakedDesitnation self = true ->
      forall stash, chaindata_destinationIsStaked stash ∉ partition_calls ext self env entry).
Proof.
  destruct entry as [c|]; cbn [partition_calls].
  - unfold round_checks, first_failure. cbn [foldr].
    unfold round_commission, round_self_stake, round_destination, round_uptime.
    split; [|split].
    + repeat case_match; cbn; repeat constructor.
    + repeat case_match; cbn; lia.
    + intros -> stash. repeat case_match; cbn; rewrite ?not_elem_of_cons;
        repeat split; try done; apply not_elem_of_nil.
  - split; [by repeat constructor|]. split; [cbn; lia|].
    intros _ stash. rewrite not_elem_of_cons. split; [done|apply not_elem_of_nil].
Qed.

Lemma partition_calls_concat ext self env l :
  Forall (fun call => round_call call = true)
    (concat (map (partition_calls ext self env) l))
  /\ (length (concat (map (partition_calls ext self env) l)) <= 4 * length l)%nat
  /\ (skipStakedDesitnation self = true ->
      forall stash,
        chaindata_destinationIsStaked stash
          ∉ concat (map (partition_calls ext self env) l)).
Proof.
  induction l as [|entry l (IH1 & IH2 & IH3)]; cbn [map concat length].
  - split; [constructor|]. split; [lia|]. intros _ stash. apply not_elem_of_nil.
  - destruct (partition_calls_round ext self env entry) as (H1 & H2 & H3).
    split; [by apply Forall_app|]. split; [rewrite length_app; lia|].
    intros Hskip stash. rewrite not_elem_of_app. split; [by apply H3|by apply IH3].
Qed.

(** X20. processCandidates only calls the era read, the commission,
    bonded-amount and reward-destination reads and the logger: it never
    touches the database, the clock, the validator set, the identities or
    the cross-network endpoint.  After its first two calls it makes at most
    four calls per entry, and no reward-destination read when the engine
    skips that rule. *)
Theorem processCandidates_call_budget
    (ext : Externals) (self : OTV) (env : Env) (candidates : list (option CandidateData)) :
  let calls := (processCandidates ext self env candidates).2 in
  Forall (fun call => round_call call = true) calls
  /\ (length calls <= 2 + 4 * length candidates)%nat
  /\ (skipStakedDesitnation self = true ->
      forall stash, chaindata_destinationIsStaked stash ∉ calls).
Proof.
  intros calls. subst calls. rewrite processCandidates_result.
  destruct (partition_calls_concat ext self env candidates) as (H1 & H2 & H3).
  destruct (getActiveEraIndex (chaindata env)).2 as [e|]; cbn [snd].
  - split; [by repeat constructor|]. split; [cbn; lia|].
    intros _ stash. rewrite !not_elem_of_cons. repeat split; try done. apply not_elem_of_nil.
  - split; [by repeat constructor|]. split; [cbn [app length]; lia|].
    intros Hskip stash. cbn [app]. rewrite !not_elem_of_cons. repeat split; try done.
    by apply H3.
Qed.

Lemma same_round_checks ext self self' env env' c :
  same_round_inputs self self' env env' ->
  round_checks ext self env c = round_checks ext self' env' c.
Proof.
  intros (Hc & Hm & Hs & Hcom & Hbond & Hdest).
  unfold round_checks, round_commission, round_self_stake, round_destination.
  by rewrite Hc, Hm, Hs, Hcom, Hbond, Hdest.
Qed.

(** X21. A round of processCandidates consults nothing but the commission
    ceiling, the self-stake minimum, the reward-destination skip flag, the
    candidates' own fields and the commission, bonded-amount and
    reward-destination reads: the value of the era index it reads first, the
    other skip flags, the unclaimed-era threshold, the caches, the clock,
    the latest release and the cross-network endpoint have no effect on the
    partition or on the calls made, as long as the era read succeeds. *)
Theorem round_ignores_the_rest
    (ext : Externals) (self self' : OTV) (env env' : Env)
    (candidates : list (option CandidateData)) :
  same_round_inputs self self' env env' ->
  (getActiveEraIndex (chaindata env)).2 = None ->
  (getActiveEraIndex (chaindata env')).2 = None ->
  processCandidates ext self env candidates = processCandidates ext self' env' candidates.
Proof.
  intros Hsame Hera Hera'. rewrite !processCandidates_result, Hera, Hera'.
  assert (forall s entry,
            partition_turn ext self env s entry = partition_turn ext self' env' s entry)
    as Hturn.
  { intros s [c|]; [|done]. unfold partition_turn.
    by rewrite (same_round_checks ext self self' env env' c Hsame). }
  assert (forall entry,
            partition_calls ext self env entry = partition_calls ext self' env' entry)
    as Hcalls.
  { intros [c|]; [|done]. unfold partition_calls.
    by rewrite (same_round_checks ext self self' env env' c Hsame). }
  assert (forall s, foldl (partition_turn ext self env) s candidates
                    = foldl (partition_turn ext self' env') s candidates) as ->.
  { induction candidates as [|entry l IH]; intros s; [done|].
    cbn [foldl]. by rewrite Hturn, IH. }
  by rewrite (map_ext _ _ Hcalls).
Qed.

(** ** The further properties on the scenario *)

Lemma foldr_Qmin_le (x : Q) l y : In y (x :: l) -> (foldr Qmin x l <= y)%Q.
Proof.
  induction l as [|a l IH]; cbn [foldr].
  - intros [-> | []]. apply Qle_refl.
  - intros [-> | [-> | Hin]].
    + eapply Qle_trans; [apply Q.le_min_r|]. apply IH. by left.
    + apply Q.le_min_l.
    + eapply Qle_trans; [apply Q.le_min_r|]. apply IH. by right.
Qed.

Lemma foldr_Qmax_ge (x : Q) l y : In y (x :: l) -> (y <= foldr Qmax x l)%Q.
Proof.
  induction l as [|a l IH]; cbn [foldr].
  - intros [-> | []]. apply Qle_refl.
  - intros [-> | [-> | Hin]].
    + eapply Qle_trans; [|apply Q.le_max_r]. apply IH. by left.
    + apply Q.le_max_l.
    + eapply Qle_trans; [|apply Q.le_max_r]. apply IH. by right.
Qed.

(** The scenario's [scaled] maps the members of a population into [0, 1]. *)
Lemma scaled_spec_in_unit : scaled_in_unit Scenario.ext.
Proof.
  intros v [|x l] (y & Hin & Heq); [done|].
  cbn [Scenario.ext scaled Scenario.scaled_spec].
  pose proof (foldr_Qmin_le x l y Hin) as Hlo.
  pose proof (foldr_Qmax_ge x l y Hin) as Hhi.
  set (lo := foldr Qmin x l) in *. set (hi := foldr Qmax x l) in *.
  destruct (Qeq_bool hi lo) eqn:Hb; [lra|].
  apply Qeq_bool_neq in Hb.
  assert (lo < hi)%Q as Hlt.
  { destruct (Qlt_le_dec lo hi) as [|Hge]; [done|]. exfalso. apply Hb. lra. }
  split.
  - apply Qle_shift_div_l; lra.
  - apply Qle_shift_div_r; lra.
Qed.

Lemma scenario_draws_in_unit : draws_in_unit Scenario.env.
Proof.
  intros i. cbn [Scenario.env Scenario.world Math_random].
  unfold Qle, Qlt. cbn [Qnum Qden]. rewrite Zpos_P_of_succ_nat. lia.
Qed.

Lemma valid_iff_eligible_witness :
  eligible Scenario.ext Scenario.otv Scenario.env Scenario.alice Scenario.table.
Proof.
  apply (valid_iff_eligible Scenario.ext Scenario.otv Scenario.env
           Scenario.alice Scenario.table).
  reflexivity.
Defined.

Lemma reason_names_candidate_witness :
  (checkSingleCandidate Scenario.ext Scenario.otv Scenario.env
     Examples.dave Scenario.table).1
  = Resolved (Invalid "dave offline. Offline since 1500.")
  /\ exists rest, "dave offline. Offline since 1500." = "dave" +:+ " " +:+ rest.
Proof.
  split; [reflexivity|].
  apply (proj2 (reason_names_candidate Scenario.ext Scenario.otv Scenario.env
                  Examples.dave Scenario.table
                  (Invalid "dave offline. Offline since 1500.") eq_refl)).
  reflexivity.
Defined.

Lemma offline_rejected_without_reads_witness :
  checkSingleCandidate Scenario.ext Scenario.otv Scenario.env
    Examples.dave Scenario.table
  = (Resolved (Invalid "dave offline. Offline since 1500."), []).
Proof.
  apply (offline_rejected_without_reads Scenario.ext Scenario.otv Scenario.env
           Examples.dave Scenario.table).
  right. discriminate.
Defined.

Lemma relaxing_keeps_valid_witness :
  (checkSingleCandidate Scenario.ext Examples.lenient Scenario.env
     Scenario.alice Scenario.table).1 = Resolved Valid.
Proof.
  apply (relaxing_keeps_valid Scenario.ext Scenario.otv Examples.lenient Scenario.env
           Scenario.alice Scenario.table).
  - unfold relaxes. cbn. repeat split; try discriminate; lia.
  - reflexivity.
Defined.

Lemma checker_only_reads_witness :
  Forall (fun call => read_call call = true)
    (checkSingleCandidate Scenario.ext Scenario.otv Scenario.env
       Scenario.alice Scenario.table).2.
Proof.
  apply (proj2 (checker_only_reads Scenario.ext Scenario.otv Scenario.env
                  Scenario.alice Scenario.table)).
  left. reflexivity.
Defined.

Lemma lookup_answer_decides_witness :
  (checkSingleCandidate Scenario.ext Scenario.otv (Examples.envRank 30)
     Scenario.aliceK Scenario.table).1 = Resolved Valid
  /\ (checkSingleCandidate Scenario.ext Scenario.otv (Examples.envRank 24)
        Scenario.aliceK Scenario.table).1
     = Resolved (Invalid "alice has a Kusama stash with lower than 25 rank in the Kusama OTV programme: 24/1.").
Proof.
  split.
  - apply (proj2 (lookup_answer_decides Scenario.ext Scenario.otv (Examples.envRank 30)
                    Scenario.aliceK Scenario.table "K1" JUndefined (JNumber 30)
                    eq_refl ltac:(discriminate) eq_refl
                    ltac:(vm_compute; repeat (constructor; [reflexivity|]); constructor))
             30%Q eq_refl eq_refl).
    discriminate.
  - apply (proj2 (lookup_answer_decides Scenario.ext Scenario.otv (Examples.envRank 24)
                    Scenario.aliceK Scenario.table "K1" JUndefined (JNumber 24)
                    eq_refl ltac:(discriminate) eq_refl
                    ltac:(vm_compute; repeat (constructor; [reflexivity|]); constructor))
             24%Q eq_refl eq_refl).
    reflexivity.
Defined.

Lemma identity_table_counts_sharers_witness :
  (populateIdentityHashTable Scenario.ext Examples.envShared Scenario.pool).1
    !! "0xone operator" = Some 3
  /\ (populateIdentityHashTable Scenario.ext Examples.envShared Scenario.pool).1
       !! "0xnobody" = None.
Proof.
  split.
  - apply (proj1 (identity_table_counts_sharers Scenario.ext Examples.envShared
                    Scenario.pool) "0xone operator").
  - apply (proj1 (identity_table_counts_sharers Scenario.ext Examples.envShared
                    Scenario.pool) "0xnobody").
Defined.

Lemma identity_table_order_independent_witness :
  (populateIdentityHashTable Scenario.ext Scenario.env
     [Scenario.bob; Scenario.alice; Scenario.carol]).1
  = Scenario.table.
Proof.
  apply (identity_table_order_independent Scenario.ext Scenario.env
           [Scenario.bob; Scenario.alice; Scenario.carol] Scenario.pool).
  apply perm_swap.
Defined.

Lemma shared_identity_rejected_witness :
  (exists reason,
      (checkSingleCandidate Scenario.ext Scenario.otv Examples.envShared Scenario.alice
         (populateIdentityHashTable Scenario.ext Examples.envShared Scenario.pool).1).1
      = Resolved (Invalid reason))
  \/ (checkSingleCandidate Scenario.ext Scenario.otv Examples.envShared Scenario.alice
        (populateIdentityHashTable Scenario.ext Examples.envShared Scenario.pool).1).1
     = Rejected (semver_TypeError Scenario.ext).
Proof.
  apply (proj2 (shared_identity_rejected Scenario.ext Scenario.otv Examples.envShared
                  Scenario.pool Scenario.alice ltac:(apply list_elem_of_here) eq_refl)).
  reflexivity.
Defined.

Lemma ranking_holds_the_valid_witness :
  exists ranking calls rc,
    getValidCandidates Scenario.ext Scenario.otv Scenario.env Examples.pool4 Scenario.table
    = (Resolved (set_validCache Scenario.otv ranking, ranking), calls)
    /\ rc ∈ ranking
    /\ rc = rankedCandidate (rc_aggregate rc) Scenario.bob.
Proof.
  destruct (getValidCandidates_returns Scenario.ext Scenario.otv Scenario.env
              Examples.pool4 Scenario.table eq_refl) as (ranking & calls & Hrun).
  destruct (proj2 (proj2 (ranking_holds_the_valid Scenario.ext Scenario.otv Scenario.env
                            Examples.pool4 Scenario.table _ ranking calls Hrun))
              Scenario.bob
              ltac:(apply list_elem_of_further, list_elem_of_here) eq_refl)
    as (rc & Hin & Hrc).
  exists ranking, calls, rc. split; [exact Hrun|]. split; [exact Hin|exact Hrc].
Defined.

Lemma pass_calls_in_three_stages_witness :
  exists ranking calls checking,
    getValidCandidates Scenario.ext Scenario.otv Scenario.env Examples.pool4 Scenario.table
    = (Resolved (set_validCache Scenario.otv ranking, ranking), calls)
    /\ calls
       = logger_info "(OTV::getValidCandidates) Getting candidates" :: checking
         ++ [Date_getTime;
             db_setValidatorScoreMetadata
               (scoreMetadata Scenario.ext (populations Scenario.pool))
               (Date_now Scenario.env)]
         ++ concat (map (fun cs : CandidateData * Score =>
                           [Math_random_call; Date_getTime;
                            db_setValidatorScore (stash cs.1) cs.2])
                      (scoresFrom Scenario.ext Scenario.env (populations Scenario.pool)
                         0 Scenario.pool)).
Proof.
  destruct (getValidCandidates_returns Scenario.ext Scenario.otv Scenario.env
              Examples.pool4 Scenario.table eq_refl) as (ranking & calls & Hrun).
  destruct (pass_calls_in_three_stages Scenario.ext Scenario.otv Scenario.env
              Examples.pool4 Scenario.table _ ranking calls Hrun)
    as (checking & _ & Hcalls & _).
  exists ranking, calls, checking. split; [exact Hrun|exact Hcalls].
Defined.

Lemma pass_without_valid_candidates_witness :
  (getValidCandidates Scenario.ext Scenario.otv Scenario.env
     [Examples.dave] Scenario.table).1
  = Resolved (set_validCache Scenario.otv [], []).
Proof.
  apply (pass_without_valid_candidates Scenario.ext Scenario.otv Scenario.env
           [Examples.dave] Scenario.table).
  intros c Hin. apply list_elem_of_singleton in Hin. rewrite Hin.
  exists "dave offline. Offline since 1500.". reflexivity.
Defined.

Lemma ranking_descending_throughout_witness :
  exists self' above mid below calls,
    getValidCandidates Scenario.ext Scenario.otv Scenario.env Scenario.pool Scenario.table
    = (Resolved (self', [above; mid; below]), calls)
    /\ rc_name above = "carol" /\ rc_name below = "alice"
    /\ (total (rc_aggregate below) <= total (rc_aggregate above))%Q.
Proof.
  destruct scenario_pass_returns as (self' & ranking & calls & Hrun & Hnames).
  destruct ranking as [|above [|mid [|below [|]]]]; try discriminate Hnames.
  injection Hnames as Habove _ Hbelow.
  exists self', above, mid, below, calls.
  split; [exact Hrun|]. split; [exact Habove|]. split; [exact Hbelow|].
  apply (ranking_descending_throughout Scenario.ext Scenario.otv Scenario.env
           Scenario.pool Scenario.table self' [above; mid; below] calls
           0 2 above below Hrun); [lia|reflexivity|reflexivity].
Defined.

Lemma scores_within_weights_witness :
  Forall within_weights
    (persistedScores
       (getValidCandidates Scenario.ext Scenario.otv Scenario.env
          Scenario.pool Scenario.table).2).
Proof.
  apply (scores_within_weights Scenario.ext Scenario.otv Scenario.env
           Scenario.pool Scenario.table scaled_spec_in_unit scenario_draws_in_unit).
Defined.

Lemma getInvalidCandidates_reports_rejected_witness :
  (getInvalidCandidates Scenario.ext Scenario.otv Scenario.env
     Examples.pool4 Scenario.table).1
  = Resolved (set_invalidCache Scenario.otv ["dave offline. Offline since 1500."],
              [("D4", "dave offline. Offline since 1500.")])
  /\ invalidCandidateCache
       (set_invalidCache Scenario.otv ["dave offline. Offline since 1500."])
     = ["dave offline. Offline since 1500."].
Proof.
  split; [reflexivity|].
  apply (getInvalidCandidates_reports_rejected Scenario.ext Scenario.otv Scenario.env
           Examples.pool4 Scenario.table
           (set_invalidCache Scenario.otv ["dave offline. Offline since 1500."])
           [("D4", "dave offline. Offline since 1500.")] eq_refl).
Defined.

Lemma reported_or_ranked_witness :
  exists ranking calls,
    getValidCandidates Scenario.ext Scenario.otv Scenario.env Examples.pool4 Scenario.table
    = (Resolved (set_validCache Scenario.otv ranking, ranking), calls)
    /\ (length [("D4", "dave offline. Offline since 1500.")] + length ranking = 4)%nat.
Proof.
  destruct (getValidCandidates_returns Scenario.ext Scenario.otv Scenario.env
              Examples.pool4 Scenario.table eq_refl) as (ranking & calls & Hrun).
  exists ranking, calls. split; [exact Hrun|].
  apply (reported_or_ranked Scenario.ext Scenario.otv Scenario.env
           Examples.pool4 Scenario.table
           (set_invalidCache Scenario.otv ["dave offline. Offline since 1500."]) _
           [("D4", "dave offline. Offline since 1500.")] ranking calls eq_refl Hrun).
Defined.

Lemma cache_fills_commute_witness :
  exists ranking calls self12,
    getValidCandidates Scenario.ext
      (set_invalidCache Scenario.otv ["dave offline. Offline since 1500."])
      Scenario.env Examples.pool4 Scenario.table
    = (Resolved (self12, ranking), calls)
    /\ invalidCandidateCache self12 = ["dave offline. Offline since 1500."]
    /\ validCandidateCache self12 = ranking.
Proof.
  destruct (getValidCandidates_returns Scenario.ext Scenario.otv Scenario.env
              Examples.pool4 Scenario.table eq_refl) as (ranking & calls & Hrun).
  destruct (cache_fills_commute Scenario.ext Scenario.otv Scenario.env
              Examples.pool4 Scenario.table
              (set_invalidCache Scenario.otv ["dave offline. Offline since 1500."]) _
              [("D4", "dave offline. Offline since 1500.")] ranking _ calls
              eq_refl Hrun)
    as (self12 & Hpass & _ & Hinvalid & Hvalid).
  exists ranking, calls, self12.
  split; [exact Hpass|]. split; [exact Hinvalid|exact Hvalid].
Defined.

Lemma throwing_check_aborts_witness :
  (getValidCandidates Scenario.ext Examples.skipUpgrade Scenario.env
     Examples.poolNightly Scenario.table).1
  = Rejected (semver_TypeError Scenario.ext)
  /\ (getInvalidCandidates Scenario.ext Examples.skipUpgrade Scenario.env
        Examples.poolNightly Scenario.table).1
     = Rejected (semver_TypeError Scenario.ext)
  /\ persistedScores
       (getValidCandidates Scenario.ext Examples.skipUpgrade Scenario.env
          Examples.poolNightly Scenario.table).2 = []
  /\ persistedMetadata
       (getValidCandidates Scenario.ext Examples.skipUpgrade Scenario.env
          Examples.poolNightly Scenario.table).2 = []
  /\ (Math_random_call
        ∉ (getValidCandidates Scenario.ext Examples.skipUpgrade Scenario.env
             Examples.poolNightly Scenario.table).2).
Proof.
  apply (proj2 (throwing_check_aborts Scenario.ext Examples.skipUpgrade Scenario.env
                  Examples.poolNightly Scenario.table)
           Examples.aliceNightly (semver_TypeError Scenario.ext)).
  - apply list_elem_of_further, list_elem_of_here.
  - reflexivity.
Defined.

Lemma processCandidates_partitions_witness :
  exists good bad calls,
    processCandidates Scenario.ext Scenario.otv Scenario.env Examples.cohort4
    = (Resolved (good, bad), calls)
    /\ good = [Scenario.alice; Scenario.bob]
    /\ map fst bad = [Examples.dave].
Proof.
  destruct (processCandidates_partitions Scenario.ext Scenario.otv Scenario.env
              Examples.cohort4 (Some 100) eq_refl)
    as (good & bad & calls & Hrun & Hgood & Hbad & _).
  exists good, bad, calls. split; [exact Hrun|]. split; [exact Hgood|exact Hbad].
Defined.

Lemma admitted_is_retained_witness :
  exists good bad calls,
    processCandidates Scenario.ext Scenario.otv Scenario.env Scenario.cohort
    = (Resolved (good, bad), calls)
    /\ Scenario.alice ∈ good
    /\ Scenario.alice ∉ map fst bad.
Proof.
  apply (admitted_is_retained Scenario.ext Scenario.otv Scenario.env Scenario.cohort
           Scenario.table (Some 100) Scenario.alice).
  - reflexivity.
  - apply list_elem_of_here.
  - reflexivity.
Defined.

Lemma processCandidates_call_budget_witness :
  (length (processCandidates Scenario.ext Scenario.otv Scenario.env Examples.cohort4).2
   <= 2 + 4 * 4)%nat.
Proof.
  apply (processCandidates_call_budget Scenario.ext Scenario.otv Scenario.env
           Examples.cohort4).
Defined.

Lemma round_ignores_the_rest_witness :
  processCandidates Scenario.ext Scenario.otv Scenario.env Examples.cohort4
  = processCandidates Scenario.ext Examples.skipping Examples.envLater Examples.cohort4.
Proof.
  apply (round_ignores_the_rest Scenario.ext Scenario.otv Examples.skipping
           Scenario.env Examples.envLater Examples.cohort4).
  - unfold same_round_inputs. repeat split.
  - reflexivity.
  - reflexivity.
Defined.
